(** * hwctrl: the command processor of the RaspiCar hardware controller

    A shallow embedding of [hwctrl/hwctrl.py].  The processor object, the
    devices it drives and the environment it talks to are one explicit
    state; every method is a computation in a state-and-exception monad,
    with Python's [try]/[except]/[finally] as combinators.

    Conventions of the embedding:
    - a Python [float] is an exact rational or one of the three non-finite
      values (rounding of binary64 is not modelled);
    - a Python [int] is a [Z];
    - the bus and the GPIO pins answer from two scripts held in the state
      (what the next transaction returns, whether the next pin access
      fails), so that every hardware call can succeed or raise;
    - at a wait or a sleep the other threads run, whether or not the
      call blocks: they are the function [others] on the state, the
      identity when nobody interferes;
    - [trace] is the log of the calls issued by the thread under study,
      newest first. *)

From Stdlib Require Import ZArith QArith List String Ascii Bool Lia Lqa
  DecimalString.
Import ListNotations.
Local Open Scope string_scope.
Local Open Scope list_scope.
Local Open Scope Z_scope.

(** ** Python floats *)

Inductive pyfloat := Fin (q : Q) | PosInf | NegInf | NaN.

Definition Qltb (a b : Q) : bool := negb (Qle_bool b a).

(** [a < b] on floats; every comparison with NaN is false. *)
Definition flt (a b : pyfloat) : bool :=
  match a, b with
  | NaN, _ => false
  | _, NaN => false
  | Fin x, Fin y => Qltb x y
  | Fin _, PosInf => true
  | Fin _, NegInf => false
  | PosInf, _ => false
  | NegInf, NegInf => false
  | NegInf, _ => true
  end.

(** Python's two-argument [min(a, b)] and [max(a, b)]: the first argument
    is kept unless the second is strictly smaller (greater). *)
Definition py_min (a b : pyfloat) : pyfloat := if flt b a then b else a.
Definition py_max (a b : pyfloat) : pyfloat := if flt a b then b else a.

Definition inf_of (positive : bool) : pyfloat :=
  if positive then PosInf else NegInf.

Definition scale_inf (positive : bool) (x : Q) : pyfloat :=
  match Qcompare x 0 with
  | Eq => NaN
  | Gt => inf_of positive
  | Lt => inf_of (negb positive)
  end.

Definition fmul (a b : pyfloat) : pyfloat :=
  match a, b with
  | NaN, _ => NaN
  | _, NaN => NaN
  | Fin x, Fin y => Fin (x * y)
  | Fin x, PosInf => scale_inf true x
  | Fin x, NegInf => scale_inf false x
  | PosInf, Fin y => scale_inf true y
  | NegInf, Fin y => scale_inf false y
  | PosInf, PosInf => PosInf
  | NegInf, NegInf => PosInf
  | PosInf, NegInf => NegInf
  | NegInf, PosInf => NegInf
  end.

(** Division by a non-zero literal. *)
Definition fdiv (a : pyfloat) (d : Q) : pyfloat := fmul a (Fin (/ d)).

(** The rounding of one float operation: [rnd] maps the exact result to
    the float that represents it. *)
Definition fround (rnd : Q -> Q) (x : pyfloat) : pyfloat :=
  match x with
  | Fin q => Fin (rnd q)
  | _ => x
  end.

(** ** Exceptions and the monad *)

Inductive exn :=
| IndexError | ValueError | KeyError | OSError
| OverflowError | RuntimeError | GPIOZeroError.

Inductive outcome (A : Type) :=
| Ret (a : A)
| Raise (e : exn).
Arguments Ret {A} a.
Arguments Raise {A} e.

(** [int(x)] of a float: truncation towards zero. *)
Definition int_of_float (x : pyfloat) : outcome Z :=
  match x with
  | Fin q => Ret (Z.quot (Qnum q) (Zpos (Qden q)))
  | PosInf => Raise OverflowError
  | NegInf => Raise OverflowError
  | NaN => Raise ValueError
  end.

(** [str(n)] of an int. *)
Definition str_of_int (n : Z) : string := NilZero.string_of_int (Z.to_int n).

(** ** Commands and responses *)

Module Opcode.
Definition MOVE : string := "move".
Definition MEASURE_DISTANCE : string := "measure-distance".
Definition DETECT_COLOR : string := "detect-color".
Definition LIGHT_EYE : string := "light-eye".
End Opcode.

Inductive RaspiCarMoveOp := FORWARD | BACKWARD | CLOCKWISE | COUNTERCLOCKWISE | STOP.

(** [RaspiCarMoveOp(s)]: the member whose value is [s], if any. *)
Definition RaspiCarMoveOp_of (s : string) : option RaspiCarMoveOp :=
  if String.eqb s "fwd" then Some FORWARD
  else if String.eqb s "bwd" then Some BACKWARD
  else if String.eqb s "cw" then Some CLOCKWISE
  else if String.eqb s "ccw" then Some COUNTERCLOCKWISE
  else if String.eqb s "stop" then Some STOP
  else None.

Module RaspiCarEye.
Definition LEFT : string := "left".
Definition RIGHT : string := "right".
Definition BOTH : string := "both".
End RaspiCarEye.

(** [s.split(sep)] for a one-character separator. *)
Fixpoint split_on (sep : ascii) (s : string) : list string :=
  match s with
  | EmptyString => [EmptyString]
  | String c rest =>
      if Ascii.eqb c sep then EmptyString :: split_on sep rest
      else match split_on sep rest with
           | hd :: tl => String c hd :: tl
           | [] => [String c EmptyString]
           end
  end.

Module HwCtrlCmd.
(** [oid] is the identity of the object.  The class defines neither
    [__eq__] nor [__hash__]: a set tells two commands apart by identity,
    whatever their fields. *)
Record t := mk {
  oid : nat;
  cmd_no : string;
  opcode : string;
  params : list string
}.

(** The classmethod [of] ([of] is a keyword here); [oid] is the identity
    of the object it creates. *)
Definition of_ (oid : nat) (cmd : string) : t :=
  let fields := split_on "," cmd in
  let num_fields := List.length fields in
  let cmd_no := if (1 <=? num_fields)%nat then nth 0 fields "" else "" in
  let opcode := if (2 <=? num_fields)%nat then nth 1 fields "" else "" in
  let params := if (3 <=? num_fields)%nat then skipn 2 fields else [] in
  mk oid cmd_no opcode params.

(** Equality of objects that have no [__eq__]: identity. *)
Definition eqb (a b : t) : bool := Nat.eqb (oid a) (oid b).
End HwCtrlCmd.

Module HwCtrlResp.
Record t := mk {
  cmd_no : string;
  opcode : string;
  is_successful : bool;
  data : list string
}.

Definition str_of_bool (b : bool) : string := if b then "True" else "False".

(** [__str__] *)
Definition str (r : t) : string :=
  fold_left (fun res val => (res ++ "," ++ val)%string) (data r)
    (cmd_no r ++ "," ++ str_of_bool (is_successful r) ++ "," ++ opcode r)%string.
End HwCtrlResp.

(** ** Devices *)

Inductive Lock := I2cLock | ColorSensorLock | MoveLock.

Record Locks := mkLocks {
  i2c_lock : bool;
  color_sensor_lock : bool;
  move_lock : bool
}.

Definition held (ls : Locks) (l : Lock) : bool :=
  match l with
  | I2cLock => i2c_lock ls
  | ColorSensorLock => color_sensor_lock ls
  | MoveLock => move_lock ls
  end.

Definition set_held (l : Lock) (b : bool) (ls : Locks) : Locks :=
  match l with
  | I2cLock => mkLocks b (color_sensor_lock ls) (move_lock ls)
  | ColorSensorLock => mkLocks (i2c_lock ls) b (move_lock ls)
  | MoveLock => mkLocks (i2c_lock ls) (color_sensor_lock ls) b
  end.

(** The three output devices of [MoveCtrl]: PWM on pin 12, the phase
    outputs on pins 16 and 26. *)
Record MoveCtrl := mkMoveCtrl {
  pwm : pyfloat;
  lhs_phase : bool;
  rhs_phase : bool
}.

Inductive LED := Led (pin : nat).

(** The dict of an eye, keys ['red'], ['green'], ['blue']. *)
Module Eye.
Record t := mk { red : LED; green : LED; blue : LED }.

(** [eye.values()], in insertion order. *)
Definition values (e : t) : list LED := [red e; green e; blue e].
End Eye.

Definition right_eye : Eye.t := Eye.mk (Led 23) (Led 25) (Led 24).
Definition left_eye : Eye.t := Eye.mk (Led 17) (Led 22) (Led 27).

Definition COLOR_SENSOR_I2C_ADDR : Z := 0x2A.
Definition DISTANCE_SENSOR_I2C_ADDR : Z := 0x57.

(** Calls issued to locks, wait handles and hardware. *)
Inductive action :=
| Acquire (l : Lock)
| Release (l : Lock)
| I2cWriteByte (addr value : Z)
| I2cWriteByteData (addr register value : Z)
| I2cReadBlock (addr register length : Z)
| I2cClose
| PwmWrite (value : pyfloat)
| PhaseWrite (pin : nat) (level : bool)
| LedWrite (pin : nat) (level : bool)
| EventSet (ev : nat)
| EventWait (ev : nat) (timeout : pyfloat)
| Sleep (seconds : Q).

(** ** The state *)

Record State := mkState {
  (* CmdProcessor fields *)
  locks : Locks;
  num_times_moved : Z;
  move_event : option nat;
  get_color_event : option nat;
  activeCmds : list HwCtrlCmd.t;
  move_ctrl : MoveCtrl;
  (* level of the LED on each pin *)
  leds : nat -> bool;
  (* the flag of every threading.Event created so far *)
  events : list bool;
  (* environment: the result of the next bus transactions ([None]: the
     transaction raises) and whether the next pin accesses fail *)
  i2c_in : list (option (list Z));
  gpio_faults : list bool;
  trace : list action
}.

Definition with_locks (f : Locks -> Locks) (s : State) : State :=
  mkState (f (locks s)) (num_times_moved s) (move_event s) (get_color_event s)
    (activeCmds s) (move_ctrl s) (leds s) (events s) (i2c_in s)
    (gpio_faults s) (trace s).

Definition with_num_times_moved (n : Z) (s : State) : State :=
  mkState (locks s) n (move_event s) (get_color_event s)
    (activeCmds s) (move_ctrl s) (leds s) (events s) (i2c_in s)
    (gpio_faults s) (trace s).

Definition with_move_event (e : option nat) (s : State) : State :=
  mkState (locks s) (num_times_moved s) e (get_color_event s)
    (activeCmds s) (move_ctrl s) (leds s) (events s) (i2c_in s)
    (gpio_faults s) (trace s).

Definition with_get_color_event (e : option nat) (s : State) : State :=
  mkState (locks s) (num_times_moved s) (move_event s) e
    (activeCmds s) (move_ctrl s) (leds s) (events s) (i2c_in s)
    (gpio_faults s) (trace s).

Definition with_activeCmds (a : list HwCtrlCmd.t) (s : State) : State :=
  mkState (locks s) (num_times_moved s) (move_event s) (get_color_event s)
    a (move_ctrl s) (leds s) (events s) (i2c_in s)
    (gpio_faults s) (trace s).

Definition with_move_ctrl (m : MoveCtrl) (s : State) : State :=
  mkState (locks s) (num_times_moved s) (move_event s) (get_color_event s)
    (activeCmds s) m (leds s) (events s) (i2c_in s)
    (gpio_faults s) (trace s).

Definition with_leds (l : nat -> bool) (s : State) : State :=
  mkState (locks s) (num_times_moved s) (move_event s) (get_color_event s)
    (activeCmds s) (move_ctrl s) l (events s) (i2c_in s)
    (gpio_faults s) (trace s).

Definition with_events (e : list bool) (s : State) : State :=
  mkState (locks s) (num_times_moved s) (move_event s) (get_color_event s)
    (activeCmds s) (move_ctrl s) (leds s) e (i2c_in s)
    (gpio_faults s) (trace s).

Definition with_i2c_in (i : list (option (list Z))) (s : State) : State :=
  mkState (locks s) (num_times_moved s) (move_event s) (get_color_event s)
    (activeCmds s) (move_ctrl s) (leds s) (events s) i
    (gpio_faults s) (trace s).

Definition with_gpio_faults (g : list bool) (s : State) : State :=
  mkState (locks s) (num_times_moved s) (move_event s) (get_color_event s)
    (activeCmds s) (move_ctrl s) (leds s) (events s) (i2c_in s)
    g (trace s).

Definition log (a : action) (s : State) : State :=
  mkState (locks s) (num_times_moved s) (move_event s) (get_color_event s)
    (activeCmds s) (move_ctrl s) (leds s) (events s) (i2c_in s)
    (gpio_faults s) (a :: trace s).

Definition M (A : Type) : Type := State -> outcome A * State.

Definition ret {A} (a : A) : M A := fun s => (Ret a, s).
Definition raise {A} (e : exn) : M A := fun s => (Raise e, s).

Definition bind {A B} (m : M A) (k : A -> M B) : M B :=
  fun s =>
    match m s with
    | (Ret a, s') => k a s'
    | (Raise e, s') => (Raise e, s')
    end.

Notation "x <- m ;; k" := (bind m (fun x => k))
  (at level 61, m at next level, right associativity).
Notation "m ;; k" := (bind m (fun _ => k))
  (at level 61, right associativity).

Definition gets {A} (f : State -> A) : M A := fun s => (Ret (f s), s).
Definition modify (f : State -> State) : M unit := fun s => (Ret tt, f s).
Definition lift {A} (o : outcome A) : M A := fun s => (o, s).

(** [try: m except Exception as e: h e] *)
Definition try_except {A} (m : M A) (h : exn -> M A) : M A :=
  fun s =>
    match m s with
    | (Ret a, s') => (Ret a, s')
    | (Raise e, s') => h e s'
    end.

(** [try: m finally: f]: [f] runs on every exit of [m]; an exception of
    [f] replaces the outcome of [m]. *)
Definition try_finally {A} (m : M A) (f : M unit) : M A :=
  fun s =>
    match m s with
    | (r, s') =>
        match f s' with
        | (Ret _, s'') => (r, s'')
        | (Raise e, s'') => (Raise e, s'')
        end
    end.

(** A block either leaves the function with a value ([Return]) or falls
    through to the statements after it ([Next]). *)
Inductive flow (R A : Type) :=
| Return (r : R)
| Next (a : A).
Arguments Return {R A} r.
Arguments Next {R A} a.

(** ** Primitives: locks, pins, wait handles, bus, registry *)

(** [lock.acquire()]: the call returns once the lock is this thread's. *)
Definition Lock_acquire (l : Lock) : M unit :=
  modify (fun s => log (Acquire l) (with_locks (set_held l true) s)).

(** [lock.release()]: RuntimeError on a lock that is not held. *)
Definition Lock_release (l : Lock) : M unit :=
  fun s =>
    if held (locks s) l
    then (Ret tt, log (Release l) (with_locks (set_held l false) s))
    else (Raise RuntimeError, s).

(** One access to a GPIO pin: it fails when the script says so. *)
Definition gpio_access : M unit :=
  fun s =>
    match gpio_faults s with
    | true :: rest => (Raise GPIOZeroError, with_gpio_faults rest s)
    | false :: rest => (Ret tt, with_gpio_faults rest s)
    | [] => (Ret tt, s)
    end.

Definition set_pin (pin : nat) (level : bool) (l : nat -> bool) : nat -> bool :=
  fun p => if Nat.eqb p pin then level else l p.

Definition LED_write (led : LED) (level : bool) : M unit :=
  match led with
  | Led pin =>
      modify (log (LedWrite pin level));;
      gpio_access;;
      modify (fun s => with_leds (set_pin pin level (leds s)) s)
  end.

Definition LED_on (led : LED) : M unit := LED_write led true.
Definition LED_off (led : LED) : M unit := LED_write led false.

Definition pwm_set (v : pyfloat) : M unit :=
  modify (log (PwmWrite v));;
  gpio_access;;
  modify (fun s =>
    with_move_ctrl
      (mkMoveCtrl v (lhs_phase (move_ctrl s)) (rhs_phase (move_ctrl s))) s).

Definition lhs_phase_set (level : bool) : M unit :=
  modify (log (PhaseWrite 16 level));;
  gpio_access;;
  modify (fun s =>
    with_move_ctrl
      (mkMoveCtrl (pwm (move_ctrl s)) level (rhs_phase (move_ctrl s))) s).

Definition rhs_phase_set (level : bool) : M unit :=
  modify (log (PhaseWrite 26 level));;
  gpio_access;;
  modify (fun s =>
    with_move_ctrl
      (mkMoveCtrl (pwm (move_ctrl s)) (lhs_phase (move_ctrl s)) level) s).

(** [threading.Event()]: a fresh, unset flag. *)
Definition Event_new : M nat :=
  fun s => (Ret (List.length (events s)), with_events (events s ++ [false]) s).

Fixpoint set_flag (ev : nat) (l : list bool) : list bool :=
  match l, ev with
  | [], _ => []
  | _ :: rest, O => true :: rest
  | b :: rest, S k => b :: set_flag k rest
  end.

(** [event.set()] *)
Definition Event_set (ev : nat) : M unit :=
  modify (fun s => log (EventSet ev) (with_events (set_flag ev (events s)) s)).

Definition is_set (s : State) (ev : nat) : bool := nth ev (events s) false.

(** One bus transaction: the script gives its result. *)
Definition i2c_transact (a : action) : M (list Z) :=
  fun s =>
    match i2c_in s with
    | Some reply :: rest => (Ret reply, with_i2c_in rest (log a s))
    | None :: rest => (Raise OSError, with_i2c_in rest (log a s))
    | [] => (Raise OSError, log a s)
    end.

Definition write_byte (addr value : Z) : M unit :=
  i2c_transact (I2cWriteByte addr value);; ret tt.

Definition write_byte_data (addr register value : Z) : M unit :=
  i2c_transact (I2cWriteByteData addr register value);; ret tt.

Definition read_i2c_block_data (addr register length : Z) : M (list Z) :=
  i2c_transact (I2cReadBlock addr register length).

Definition i2c_close : M unit := modify (log I2cClose).

(** [l[i]]: IndexError out of range. *)
Definition index {A} (l : list A) (i : nat) : M A :=
  match nth_error l i with
  | Some x => ret x
  | None => raise IndexError
  end.

(** The in-flight registry is a [set] of command objects, here the list
    of its members.  [add] of a member changes nothing; [remove] of a
    non-member raises KeyError. *)
Definition mem (cmd : HwCtrlCmd.t) (l : list HwCtrlCmd.t) : bool :=
  existsb (HwCtrlCmd.eqb cmd) l.

Definition discard (cmd : HwCtrlCmd.t) (l : list HwCtrlCmd.t)
  : list HwCtrlCmd.t :=
  filter (fun x => negb (HwCtrlCmd.eqb cmd x)) l.

Definition activeCmds_add (cmd : HwCtrlCmd.t) : M unit :=
  modify (fun s =>
    if mem cmd (activeCmds s) then s
    else with_activeCmds (cmd :: activeCmds s) s).

Definition activeCmds_remove (cmd : HwCtrlCmd.t) : M unit :=
  fun s =>
    if mem cmd (activeCmds s)
    then (Ret tt, with_activeCmds (discard cmd (activeCmds s)) s)
    else (Raise KeyError, s).

(** ** MoveCtrl *)

Module MoveCtrlM.

Definition clamp (speed : pyfloat) : pyfloat :=
  py_min (Fin 1) (py_max speed (Fin 0)).

Definition forward (speed : pyfloat) : M unit :=
  let speed := clamp speed in
  lhs_phase_set false;; rhs_phase_set false;; pwm_set speed.

Definition backward (speed : pyfloat) : M unit :=
  let speed := clamp speed in
  lhs_phase_set true;; rhs_phase_set true;; pwm_set speed.

Definition clockwise (speed : pyfloat) : M unit :=
  let speed := clamp speed in
  lhs_phase_set false;; rhs_phase_set true;; pwm_set speed.

Definition counter_clockwise (speed : pyfloat) : M unit :=
  let speed := clamp speed in
  lhs_phase_set true;; rhs_phase_set false;; pwm_set speed.

Definition stop : M unit := pwm_set (Fin 0).

Definition move (move_op : RaspiCarMoveOp) (speed : pyfloat) : M unit :=
  match move_op with
  | FORWARD => forward speed
  | BACKWARD => backward speed
  | CLOCKWISE => clockwise speed
  | COUNTERCLOCKWISE => counter_clockwise speed
  | STOP => stop
  end.

End MoveCtrlM.

(** ** CmdProcessor *)

(** [threading.TIMEOUT_MAX], in seconds: a blocking acquire converts its
    timeout to microseconds, rounding up, and raises OverflowError when
    the result exceeds [PY_TIMEOUT_MAX] = 9223372036854775 microseconds. *)
Definition TIMEOUT_MAX : Q := 9223372036.854775%Q.

Definition too_large (timeout : pyfloat) : bool :=
  match timeout with
  | Fin q => Qltb TIMEOUT_MAX q
  | PosInf => true
  | NegInf => false
  | NaN => false
  end.

Section Processor.

(** The builtins [float(s)] and [int(s)] on a string ([None]: the call
    raises ValueError), and what the other threads do while this one is
    blocked. *)
Variable py_float : string -> option pyfloat.
Variable py_int : string -> option Z.
Variable others : State -> State.

Definition float (s : string) : M pyfloat :=
  match py_float s with
  | Some x => ret x
  | None => raise ValueError
  end.

Definition int (s : string) : M Z :=
  match py_int s with
  | Some n => ret n
  | None => raise ValueError
  end.

(** [event.wait(timeout)].  A set flag returns at once; a timeout that is
    not positive polls without blocking; otherwise the thread blocks and
    comes back at the timeout or the signal.  The wait is called with no
    lock held: whether it blocks or not, the other threads may run before
    this thread goes on, and take the locks it has released. *)
Definition Event_wait (ev : nat) (timeout : pyfloat) : M unit :=
  fun s =>
    let s := log (EventWait ev timeout) s in
    if is_set s ev then (Ret tt, others s)
    else if flt (Fin 0) timeout then
      if too_large timeout then (Raise OverflowError, s)
      else (Ret tt, others s)
    else (Ret tt, others s).

Definition sleep (seconds : Q) : M unit :=
  modify (fun s => others (log (Sleep seconds) s)).

Definition cancel_move : M unit :=
  e <- gets move_event;;
  match e with
  | Some ev => Event_set ev
  | None => ret tt
  end.

Definition cancel_color_detection : M unit :=
  e <- gets get_color_event;;
  match e with
  | Some ev => Event_set ev
  | None => ret tt
  end.

Definition incr_num_times_moved : M unit :=
  modify (fun s => with_num_times_moved (num_times_moved s + 1) s).

(** [__stop_raspicar] *)
Definition stop_raspicar : M bool :=
  r <- try_finally
         (try_except
            (Lock_acquire MoveLock;;
             incr_num_times_moved;;
             MoveCtrlM.stop;;
             cancel_move;;
             ret (Next tt))
            (fun _ => ret (Return false)))
         (Lock_release MoveLock);;
  match r with
  | Return b => ret b
  | Next _ => ret true
  end.

(** [__move_raspicar], first block under the move lock: it yields the
    captured value of the counter. *)
Definition move_raspicar_begin (move_op : RaspiCarMoveOp) (speed : pyfloat)
  (event : nat) : M (flow bool Z) :=
  try_finally
    (try_except
       (Lock_acquire MoveLock;;
        incr_num_times_moved;;
        num_times_moved' <- gets num_times_moved;;
        MoveCtrlM.move move_op speed;;
        cancel_move;;
        modify (with_move_event (Some event));;
        ret (Next num_times_moved'))
       (fun _ => ret (Return false)))
    (Lock_release MoveLock).

(** [__move_raspicar], second block under the move lock, after the wait. *)
Definition move_raspicar_end (num_times_moved' : Z) : M (flow bool unit) :=
  try_finally
    (try_except
       (Lock_acquire MoveLock;;
        current <- gets num_times_moved;;
        if negb (num_times_moved' =? current) then ret (Return true)
        else (MoveCtrlM.stop;; ret (Next tt)))
       (fun _ => ret (Return false)))
    (Lock_release MoveLock).

(** [__move_raspicar] *)
Definition move_raspicar (move_op : RaspiCarMoveOp) (speed time : pyfloat)
  : M bool :=
  event <- Event_new;;
  r <- move_raspicar_begin move_op speed event;;
  match r with
  | Return b => ret b
  | Next num_times_moved' =>
      Event_wait event time;;
      r' <- move_raspicar_end num_times_moved';;
      match r' with
      | Return b => ret b
      | Next _ => ret true
      end
  end.

Definition RaspiCarMoveOp_ (s : string) : M RaspiCarMoveOp :=
  match RaspiCarMoveOp_of s with
  | Some op => ret op
  | None => raise ValueError
  end.

(** [__move] *)
Definition move (cmd : HwCtrlCmd.t) : M HwCtrlResp.t :=
  success <- try_except
    (p0 <- index (HwCtrlCmd.params cmd) 0;;
     move_op <- RaspiCarMoveOp_ p0;;
     match move_op with
     | STOP => stop_raspicar
     | _ =>
         p1 <- index (HwCtrlCmd.params cmd) 1;;
         speed <- float p1;;
         p2 <- index (HwCtrlCmd.params cmd) 2;;
         time <- float p2;;
         move_raspicar move_op speed time
     end)
    (fun _ => ret false);;
  ret (HwCtrlResp.mk (HwCtrlCmd.cmd_no cmd) (HwCtrlCmd.opcode cmd) success []).

(** The integration-time register value of an exposure time, in exact
    arithmetic: the value the code computes when neither the product
    nor the quotient is rounded. *)
Definition integ_val_of (exp_time : pyfloat) : outcome Z :=
  let max_exp_time := Fin 11 in
  let exp_time_us :=
    fmul (py_max (Fin 0) (py_min exp_time max_exp_time)) (Fin 1000000) in
  let exp_unit_time := 175%Q in
  int_of_float (fdiv exp_time_us exp_unit_time).

(** The same value with the rounding of the two float operations
    explicit: the product by [1e6] and the quotient by 175 are each
    rounded by [rnd] before [int] truncates. *)
Definition integ_val_rounded (rnd : Q -> Q) (exp_time : pyfloat)
  : outcome Z :=
  let max_exp_time := Fin 11 in
  let exp_time_us :=
    fround rnd
      (fmul (py_max (Fin 0) (py_min exp_time max_exp_time)) (Fin 1000000)) in
  let exp_unit_time := 175%Q in
  int_of_float (fround rnd (fdiv exp_time_us exp_unit_time)).

(** The timeout handed to the wait between set-up and read-out. *)
Definition exposure_wait (exp_time : pyfloat) : pyfloat :=
  fmul (fmul (Fin 4) exp_time) (Fin 1.05).

(** [__get_color_sensor_val], first block under the bus lock. *)
Definition color_sensor_setup (integ_val : Z) (event : nat)
  : M (flow (list Z) unit) :=
  try_finally
    (try_except
       (Lock_acquire I2cLock;;
        write_byte_data COLOR_SENSOR_I2C_ADDR 0 0x8C;;
        write_byte_data COLOR_SENSOR_I2C_ADDR 1 (Z.shiftr integ_val 8);;
        write_byte_data COLOR_SENSOR_I2C_ADDR 2 (Z.land integ_val 0xFF);;
        write_byte_data COLOR_SENSOR_I2C_ADDR 0 0x0C;;
        modify (with_get_color_event (Some event));;
        ret (Next tt))
       (fun _ => ret (Return [])))
    (Lock_release I2cLock).

(** [__get_color_sensor_val], second block under the bus lock. *)
Definition color_sensor_readout : M (flow (list Z) (list Z)) :=
  try_finally
    (try_except
       (Lock_acquire I2cLock;;
        color_vals <- read_i2c_block_data COLOR_SENSOR_I2C_ADDR 3 8;;
        ret (Next color_vals))
       (fun _ => ret (Return [])))
    (Lock_release I2cLock).

(** [__get_color_sensor_val] up to the end of the wait: set-up of the
    sensor, then the exposure. *)
Definition color_sensor_expose (exp_time : pyfloat) : M (flow (list Z) unit) :=
  integ_val <- lift (integ_val_of exp_time);;
  event <- Event_new;;
  r <- color_sensor_setup integ_val event;;
  match r with
  | Return v => ret (Return v)
  | Next _ =>
      Event_wait event (exposure_wait exp_time);;
      ret (Next tt)
  end.

(** [__get_color_sensor_val] after the wait: read-out and decoding. *)
Definition color_sensor_collect : M (list Z) :=
  r' <- color_sensor_readout;;
  match r' with
  | Return v => ret v
  | Next color_vals =>
      c0 <- index color_vals 0;;
      c1 <- index color_vals 1;;
      c2 <- index color_vals 2;;
      c3 <- index color_vals 3;;
      c4 <- index color_vals 4;;
      c5 <- index color_vals 5;;
      ret [Z.lor (Z.shiftl c0 8) c1;
           Z.lor (Z.shiftl c2 8) c3;
           Z.lor (Z.shiftl c4 8) c5]
  end.

(** [__get_color_sensor_val] *)
Definition get_color_sensor_val (exp_time : pyfloat) : M (list Z) :=
  r <- color_sensor_expose exp_time;;
  match r with
  | Return v => ret v
  | Next _ => color_sensor_collect
  end.

Definition failure (cmd : HwCtrlCmd.t) : HwCtrlResp.t :=
  HwCtrlResp.mk (HwCtrlCmd.cmd_no cmd) (HwCtrlCmd.opcode cmd) false [].

(** [__detect_color] *)
Definition detect_color (cmd : HwCtrlCmd.t) : M HwCtrlResp.t :=
  try_finally
    (try_except
       (Lock_acquire ColorSensorLock;;
        p0 <- index (HwCtrlCmd.params cmd) 0;;
        exp_time <- float p0;;
        colors <- get_color_sensor_val exp_time;;
        match colors with
        | _ :: _ =>
            let resp_data := map str_of_int colors in
            ret (HwCtrlResp.mk (HwCtrlCmd.cmd_no cmd) (HwCtrlCmd.opcode cmd)
                   true resp_data)
        | [] => ret (failure cmd)
        end)
       (fun _ => ret (failure cmd)))
    (Lock_release ColorSensorLock).

(** [__measure_distance] *)
Definition measure_distance (cmd : HwCtrlCmd.t) : M HwCtrlResp.t :=
  try_finally
    (try_except
       (Lock_acquire I2cLock;;
        write_byte DISTANCE_SENSOR_I2C_ADDR 0x1;;
        sleep 0.2;;
        data <- read_i2c_block_data DISTANCE_SENSOR_I2C_ADDR 0 3;;
        d0 <- index data 0;;
        d1 <- index data 1;;
        d2 <- index data 2;;
        let distance := Z.lor (Z.lor (Z.shiftl d0 16) (Z.shiftl d1 8)) d2 in
        ret (HwCtrlResp.mk (HwCtrlCmd.cmd_no cmd) (HwCtrlCmd.opcode cmd)
               true [str_of_int distance]))
       (fun _ => ret (failure cmd)))
    (Lock_release I2cLock).

(** [__light_leds]: the dict is its list of items. *)
Fixpoint light_leds (led_to_flag : list (LED * bool)) : M unit :=
  match led_to_flag with
  | [] => ret tt
  | (led, flag) :: rest =>
      (if flag then LED_on led else LED_off led);;
      light_leds rest
  end.

(** [bool(n)] *)
Definition bool_of_int (n : Z) : bool := negb (n =? 0).

(** [__light_eye] *)
Definition light_eye (cmd : HwCtrlCmd.t) : M HwCtrlResp.t :=
  try_except
    (eye <- index (HwCtrlCmd.params cmd) 0;;
     p1 <- index (HwCtrlCmd.params cmd) 1;;
     n1 <- int p1;;
     let red := bool_of_int n1 in
     p2 <- index (HwCtrlCmd.params cmd) 2;;
     n2 <- int p2;;
     let green := bool_of_int n2 in
     p3 <- index (HwCtrlCmd.params cmd) 3;;
     n3 <- int p3;;
     let blue := bool_of_int n3 in
     (if String.eqb eye RaspiCarEye.LEFT || String.eqb eye RaspiCarEye.BOTH
      then light_leds [(Eye.red left_eye, red);
                       (Eye.green left_eye, green);
                       (Eye.blue left_eye, blue)]
      else ret tt);;
     (if String.eqb eye RaspiCarEye.RIGHT || String.eqb eye RaspiCarEye.BOTH
      then light_leds [(Eye.red right_eye, red);
                       (Eye.green right_eye, green);
                       (Eye.blue right_eye, blue)]
      else ret tt);;
     ret (HwCtrlResp.mk (HwCtrlCmd.cmd_no cmd) (HwCtrlCmd.opcode cmd) true []))
    (fun _ => ret (failure cmd)).

(** The [try] block of [process], over the four methods it dispatches
    to. *)
Definition process_try
  (detect_color' move' measure_distance' light_eye'
     : HwCtrlCmd.t -> M HwCtrlResp.t)
  (cmd : HwCtrlCmd.t) : M (flow HwCtrlResp.t unit) :=
  activeCmds_add cmd;;
  if String.eqb (HwCtrlCmd.opcode cmd) Opcode.DETECT_COLOR then
    resp <- detect_color' cmd;; ret (Return resp)
  else if String.eqb (HwCtrlCmd.opcode cmd) Opcode.MOVE then
    resp <- move' cmd;; ret (Return resp)
  else if String.eqb (HwCtrlCmd.opcode cmd) Opcode.MEASURE_DISTANCE then
    resp <- measure_distance' cmd;; ret (Return resp)
  else if String.eqb (HwCtrlCmd.opcode cmd) Opcode.LIGHT_EYE then
    resp <- light_eye' cmd;; ret (Return resp)
  else ret (Next tt).

(** The body of [process], over the four methods. *)
Definition process_with
  (detect_color' move' measure_distance' light_eye'
     : HwCtrlCmd.t -> M HwCtrlResp.t)
  (cmd : HwCtrlCmd.t) : M HwCtrlResp.t :=
  r <- try_finally
         (process_try detect_color' move' measure_distance' light_eye' cmd)
         (activeCmds_remove cmd);;
  match r with
  | Return resp => ret resp
  | Next _ => ret (failure cmd)
  end.

(** [process] *)
Definition process (cmd : HwCtrlCmd.t) : M HwCtrlResp.t :=
  process_with detect_color move measure_distance light_eye cmd.

(** The polling loop of [close]; [remaining] is [15 - count]. *)
Fixpoint close_poll (remaining : nat) : M unit :=
  match remaining with
  | O => ret tt
  | S k =>
      n <- gets (fun s => List.length (activeCmds s));;
      if Nat.eqb n 0 then ret tt
      else (cancel_move;;
            cancel_color_detection;;
            sleep 0.1;;
            close_poll k)
  end.

Fixpoint leds_off (l : list LED) : M unit :=
  match l with
  | [] => ret tt
  | led :: rest => LED_off led;; leds_off rest
  end.

(** [close] *)
Definition close : M unit :=
  close_poll 15;;
  leds_off (Eye.values right_eye ++ Eye.values right_eye);;
  i2c_close.

(** ** The worker loop *)

(** [process_cmds], the loop of a worker thread.  [polls] lists what the
    successive [cmd_fifo.get(timeout = 0.1)] give up to the moment the
    loop sees [is_terminated]: a command, or [None] when the queue stayed
    empty for the timeout ([Empty], the one exception the loop catches).
    The thread is blocked during a [get]: the others run.  [resp_fifo]
    is the queue of responses; [put] appends to it. *)
Fixpoint process_cmds (polls : list (option HwCtrlCmd.t))
  (resp_fifo : list HwCtrlResp.t) : M (list HwCtrlResp.t) :=
  match polls with
  | [] => ret resp_fifo
  | poll :: rest =>
      modify others;;
      match poll with
      | Some cmd =>
          resp <- process cmd;;
          process_cmds rest (resp_fifo ++ [resp])
      | None => process_cmds rest resp_fifo
      end
  end.

End Processor.

(** ** Input and output of the program *)

Definition newline : ascii := ascii_of_nat 10.

(** [output_fifo_elems]: what the drain thread writes to the standard
    output, over the results of its successive [fifo.get]. *)
Fixpoint output_fifo_elems (polls : list (option HwCtrlResp.t))
  (stdout : string) : string :=
  match polls with
  | [] => stdout
  | Some resp :: rest =>
      output_fifo_elems rest
        (stdout ++ HwCtrlResp.str resp ++ String newline EmptyString)%string
  | None :: rest => output_fifo_elems rest stdout
  end.

(** [line.rstrip('\n')]: the line without its trailing newlines. *)
Fixpoint rstrip_newline (line : string) : string :=
  match line with
  | EmptyString => EmptyString
  | String c rest =>
      match rstrip_newline rest with
      | EmptyString =>
          if Ascii.eqb c newline then EmptyString
          else String c EmptyString
      | r => String c r
      end
  end.

(** The reading loop of [main], over the lines of the standard input:
    the commands put on [cmd_fifo] until the line [terminate] or the end
    of the input.  [oid] is the identity of the next object created. *)
Fixpoint read_commands (oid : nat) (stdin : list string)
  (cmd_fifo : list HwCtrlCmd.t) : list HwCtrlCmd.t :=
  match stdin with
  | [] => cmd_fifo
  | line :: rest =>
      let data := rstrip_newline line in
      if String.eqb data "terminate" then cmd_fifo
      else read_commands (S oid) rest (cmd_fifo ++ [HwCtrlCmd.of_ oid data])
  end.

(** ** Instances used in the examples *)

(** [int(s)] on decimal integer literals. *)
Definition dec_int (s : string) : option Z :=
  option_map Z.of_int (NilZero.int_of_string s).

(** [float(s)] on decimal integer literals. *)
Definition dec_float (s : string) : option pyfloat :=
  option_map (fun n => Fin (inject_Z n)) (dec_int s).

(** No other thread runs. *)
Definition quiet (s : State) : State := s.

(** The processor as [__init__] leaves it, with a bus that answers
    nothing and pins that never fail. *)
Definition CmdProcessor_init : State :=
  mkState (mkLocks false false false) 0 None None []
    (mkMoveCtrl (Fin 0) false false) (fun _ => false) [] [] [] [].

(** ** Vocabulary of the statements *)

Definition holds (l : Lock) (s : State) : Prop := held (locks s) l = true.

Definition registered (cmd : HwCtrlCmd.t) (s : State) : Prop :=
  mem cmd (activeCmds s) = true.

(** What a response to [cmd] looks like: the failure response, or a
    successful one that echoes the command. *)
Definition answers (cmd : HwCtrlCmd.t) (resp : HwCtrlResp.t) : Prop :=
  resp = failure cmd
  \/ (HwCtrlResp.cmd_no resp = HwCtrlCmd.cmd_no cmd
      /\ HwCtrlResp.opcode resp = HwCtrlCmd.opcode cmd
      /\ HwCtrlResp.is_successful resp = true).

Definition recognized (opcode : string) : bool :=
  String.eqb opcode Opcode.DETECT_COLOR
  || String.eqb opcode Opcode.MOVE
  || String.eqb opcode Opcode.MEASURE_DISTANCE
  || String.eqb opcode Opcode.LIGHT_EYE.

(** [m] keeps [J] on every exit, normal or exceptional. *)
Definition keeps {A} (J : State -> Prop) (m : M A) : Prop :=
  forall s, J s -> J (snd (m s)).

(** Every value [m] returns satisfies [R]. *)
Definition yields {A} (R : A -> Prop) (m : M A) : Prop :=
  forall s a s', m s = (Ret a, s') -> R a.

(** [m] returns from every state: it never raises. *)
Definition total {A} (m : M A) : Prop :=
  forall s, exists a s', m s = (Ret a, s').

(** A predicate on the state that no step of a method can break, apart
    from the release of a lock, the writing of a LED, an update of the
    counter or of the registry, and what the other threads do. *)
Record Stable (J : State -> Prop) : Prop := {
  st_log : forall a s, J s -> J (log a s);
  st_acquire : forall l s, J s -> J (with_locks (set_held l true) s);
  st_move_event : forall e s, J s -> J (with_move_event e s);
  st_get_color_event : forall e s, J s -> J (with_get_color_event e s);
  st_move_ctrl : forall m s, J s -> J (with_move_ctrl m s);
  st_events : forall e s, J s -> J (with_events e s);
  st_i2c_in : forall i s, J s -> J (with_i2c_in i s);
  st_gpio_faults : forall g s, J s -> J (with_gpio_faults g s)
}.

Definition Countable (J : State -> Prop) : Prop :=
  forall n s, J s -> J (with_num_times_moved n s).

Definition Interruptible (others : State -> State) (J : State -> Prop)
  : Prop :=
  forall s, J s -> J (others s).

Definition Releasable (J : State -> Prop) (l : Lock) : Prop :=
  forall s, J s -> J (with_locks (set_held l false) s).

Definition Lightable (J : State -> Prop) (led : LED) : Prop :=
  forall level s,
    J s ->
    J (with_leds (set_pin (match led with Led pin => pin end) level (leds s)) s).

(** The calls a computation issues from a state, newest first. *)
Definition issued {A} (m : M A) (s : State) : list action :=
  let s' := snd (m s) in
  firstn (List.length (trace s') - List.length (trace s)) (trace s').

Definition motor_action (a : action) : bool :=
  match a with
  | PwmWrite _ => true
  | PhaseWrite _ _ => true
  | _ => false
  end.

(** A block that another thread runs under the move lock while this one
    waits: a stop command, the first block of a move command, or the
    second block of an earlier move command. *)
Inductive move_block :=
| BlockStop
| BlockBegin (move_op : RaspiCarMoveOp) (speed : pyfloat) (event : nat)
| BlockEnd (num_times_moved' : Z).

Definition run_block (b : move_block) (s : State) : State :=
  match b with
  | BlockStop => snd (stop_raspicar s)
  | BlockBegin move_op speed event =>
      snd (move_raspicar_begin move_op speed event s)
  | BlockEnd n => snd (move_raspicar_end n s)
  end.

Definition run_blocks (bs : list move_block) (s : State) : State :=
  fold_left (fun s b => run_block b s) bs s.

(** The blocks of a newer move or stop command. *)
Definition newer (b : move_block) : bool :=
  match b with
  | BlockStop => true
  | BlockBegin _ _ _ => true
  | BlockEnd _ => false
  end.

(** The generation counter has the value [c]. *)
Definition counts (c : Z) (s : State) : Prop := num_times_moved s = c.

(** What a write to the motor driver leaves alone. *)
Definition motor_frame (s s' : State) : Prop :=
  gpio_faults s' = gpio_faults s
  /\ num_times_moved s' = num_times_moved s
  /\ locks s' = locks s
  /\ move_event s' = move_event s
  /\ events s' = events s.

(** The next [n] bus transactions succeed. *)
Fixpoint acks (n : nat) (script : list (option (list Z))) : bool :=
  match n with
  | O => true
  | S k =>
      match script with
      | Some _ :: rest => acks k rest
      | _ => false
      end
  end.

Definition is_some {A} (o : option A) : bool :=
  match o with
  | Some _ => true
  | None => false
  end.

(** The parameters of a command are the ones its method reads: every
    [params[i]] exists and every [float], [int] and [RaspiCarMoveOp]
    conversion succeeds.  An opcode that is none of the four parses to
    nothing. *)
Definition parses (py_float : string -> option pyfloat)
  (py_int : string -> option Z) (cmd : HwCtrlCmd.t) : bool :=
  let ps := HwCtrlCmd.params cmd in
  if String.eqb (HwCtrlCmd.opcode cmd) Opcode.DETECT_COLOR then
    match ps with
    | p0 :: _ => is_some (py_float p0)
    | [] => false
    end
  else if String.eqb (HwCtrlCmd.opcode cmd) Opcode.MOVE then
    match ps with
    | p0 :: rest =>
        match RaspiCarMoveOp_of p0 with
        | Some STOP => true
        | Some _ =>
            match rest with
            | p1 :: p2 :: _ => is_some (py_float p1) && is_some (py_float p2)
            | _ => false
            end
        | None => false
        end
    | [] => false
    end
  else if String.eqb (HwCtrlCmd.opcode cmd) Opcode.MEASURE_DISTANCE then true
  else if String.eqb (HwCtrlCmd.opcode cmd) Opcode.LIGHT_EYE then
    match ps with
    | _ :: p1 :: p2 :: p3 :: _ =>
        is_some (py_int p1) && is_some (py_int p2) && is_some (py_int p3)
    | _ => false
    end
  else false.

(** The method [process] dispatches an opcode to. *)
Definition method_of (py_float : string -> option pyfloat)
  (py_int : string -> option Z) (others : State -> State) (opcode : string)
  : option (HwCtrlCmd.t -> M HwCtrlResp.t) :=
  if String.eqb opcode Opcode.DETECT_COLOR then
    Some (detect_color py_float others)
  else if String.eqb opcode Opcode.MOVE then Some (move py_float others)
  else if String.eqb opcode Opcode.MEASURE_DISTANCE then
    Some (measure_distance others)
  else if String.eqb opcode Opcode.LIGHT_EYE then Some (light_eye py_int)
  else None.

(** The first bus transaction of the command fails: one of the four
    set-up writes of a detect-color command, or the start-measurement
    write of a measure-distance command. *)
Definition bus_fails (cmd : HwCtrlCmd.t) (s : State) : bool :=
  (String.eqb (HwCtrlCmd.opcode cmd) Opcode.DETECT_COLOR
   && negb (acks 4 (i2c_in s)))
  || (String.eqb (HwCtrlCmd.opcode cmd) Opcode.MEASURE_DISTANCE
      && negb (acks 1 (i2c_in s))).

(** The next bus transaction fails, or its reply has fewer than [n]
    items. *)
Definition reads_short (n : nat) (script : list (option (list Z))) : bool :=
  match script with
  | Some d :: _ => (List.length d <? n)%nat
  | _ => true
  end.

(** One of the bus transactions of a sensor command fails: one of the
    four set-up writes or the read-out of a detect-color command (a
    read-out of fewer than six bytes cannot be decoded), the
    start-measurement write or the read of a measure-distance command
    (three bytes are decoded). *)
Definition transport_fails (cmd : HwCtrlCmd.t) (s : State) : bool :=
  (String.eqb (HwCtrlCmd.opcode cmd) Opcode.DETECT_COLOR
   && (negb (acks 4 (i2c_in s)) || reads_short 6 (skipn 4 (i2c_in s))))
  || (String.eqb (HwCtrlCmd.opcode cmd) Opcode.MEASURE_DISTANCE
      && (negb (acks 1 (i2c_in s)) || reads_short 3 (skipn 1 (i2c_in s)))).

(** One of the next [n] pin accesses fails. *)
Definition faults (n : nat) (s : State) : bool :=
  existsb (fun b => b) (firstn n (gpio_faults s)).

(** The number of lamps an eye selector designates. *)
Definition lamps (eye : string) : nat :=
  (if String.eqb eye RaspiCarEye.LEFT || String.eqb eye RaspiCarEye.BOTH
   then 3 else 0)
  + (if String.eqb eye RaspiCarEye.RIGHT || String.eqb eye RaspiCarEye.BOTH
     then 3 else 0).

(** One of the pin accesses of a command fails: a lamp of a light-eye
    command, the PWM write of a stop, or one of the four accesses of a
    move (left phase, right phase, speed, and the stop after the
    wait). *)
Definition pins_fail (cmd : HwCtrlCmd.t) (s : State) : bool :=
  if String.eqb (HwCtrlCmd.opcode cmd) Opcode.LIGHT_EYE then
    match HwCtrlCmd.params cmd with
    | eye :: _ => faults (lamps eye) s
    | [] => false
    end
  else if String.eqb (HwCtrlCmd.opcode cmd) Opcode.MOVE then
    match HwCtrlCmd.params cmd with
    | p0 :: _ =>
        match RaspiCarMoveOp_of p0 with
        | Some STOP => faults 1 s
        | Some _ => faults 4 s
        | None => false
        end
    | [] => false
    end
  else false.

(** The character [c] occurs in [s]. *)
Fixpoint has_char (c : ascii) (s : string) : bool :=
  match s with
  | EmptyString => false
  | String c' rest => Ascii.eqb c' c || has_char c rest
  end.

(** A run of [k] newline characters. *)
Fixpoint newlines (k : nat) : string :=
  match k with
  | O => EmptyString
  | S k => String newline (newlines k)
  end.

(** The elements that a sequence of [get] calls delivers, in order. *)
Definition taken {A} (polls : list (option A)) : list A :=
  flat_map (fun p => match p with Some x => [x] | None => [] end) polls.

(** The command [c] is in the registry, or is not, according to [b]. *)
Definition listed (c : HwCtrlCmd.t) (b : bool) (s : State) : Prop :=
  mem c (activeCmds s) = b.




(** * Properties *)

(** ** Rules for the combinators *)

Section Rules.
Context {A B : Type}.
Variable J : State -> Prop.

Lemma keeps_ret (a : A) : keeps J (ret a).
Proof. intros s H; exact H. Qed.

Lemma keeps_raise e : keeps J (@raise A e).
Proof. intros s H; exact H. Qed.

Lemma keeps_gets (f : State -> A) : keeps J (gets f).
Proof. intros s H; exact H. Qed.

Lemma keeps_lift (o : outcome A) : keeps J (lift o).
Proof. intros s H; exact H. Qed.

Lemma keeps_index (l : list A) i : keeps J (index l i).
Proof. unfold index. destruct (nth_error l i); intros s H; exact H. Qed.

Lemma keeps_bind (m : M A) (k : A -> M B) :
  keeps J m -> (forall a, keeps J (k a)) -> keeps J (bind m k).
Proof.
  intros Hm Hk s H. unfold bind. specialize (Hm s H).
  destruct (m s) as [[a|e] s1]; cbn in *; [apply Hk|]; assumption.
Qed.

Lemma keeps_try_except (m : M A) h :
  keeps J m -> (forall e, keeps J (h e)) -> keeps J (try_except m h).
Proof.
  intros Hm Hh s H. unfold try_except. specialize (Hm s H).
  destruct (m s) as [[a|e] s1]; cbn in *; [|apply Hh]; assumption.
Qed.

Lemma keeps_try_finally (m : M A) f :
  keeps J m -> keeps J f -> keeps J (try_finally m f).
Proof.
  intros Hm Hf s H. unfold try_finally. specialize (Hm s H).
  destruct (m s) as [r s1]; cbn in *. specialize (Hf s1 Hm).
  destruct (f s1) as [[[]|e] s2]; cbn in *; assumption.
Qed.

Variable R : B -> Prop.

Lemma yields_ret b : R b -> yields R (ret b).
Proof. intros H s a s' E. inversion E; subst; exact H. Qed.

Lemma yields_raise e : yields R (raise e).
Proof. intros s a s' E. discriminate. Qed.

Lemma yields_bind (m : M A) (k : A -> M B) :
  (forall a, yields R (k a)) -> yields R (bind m k).
Proof.
  intros Hk s b s' E. unfold bind in E.
  destruct (m s) as [[a|e] s1]; [eapply Hk; eassumption | discriminate].
Qed.

Lemma yields_try_except (m : M B) h :
  yields R m -> (forall e, yields R (h e)) -> yields R (try_except m h).
Proof.
  intros Hm Hh s b s' E. unfold try_except in E.
  destruct (m s) as [[a|e] s1] eqn:Em.
  - inversion E; subst. eapply Hm; eassumption.
  - eapply Hh; eassumption.
Qed.

Lemma yields_try_finally (m : M B) f :
  yields R m -> yields R (try_finally m f).
Proof.
  intros Hm s b s' E. unfold try_finally in E.
  destruct (m s) as [r s1] eqn:Em.
  destruct (f s1) as [[[]|e] s2]; [|discriminate].
  inversion E; subst. eapply Hm; eassumption.
Qed.

Lemma total_ret (a : A) : total (ret a).
Proof. intros s; do 2 eexists; reflexivity. Qed.

Lemma total_bind (m : M A) (k : A -> M B) :
  total m -> (forall a, total (k a)) -> total (bind m k).
Proof.
  intros Hm Hk s. destruct (Hm s) as (a & s1 & E).
  unfold bind. rewrite E. apply Hk.
Qed.

Lemma total_try_except (m : M A) h :
  (forall e, total (h e)) -> total (try_except m h).
Proof.
  intros Hh s. unfold try_except.
  destruct (m s) as [[a|e] s1]; [do 2 eexists; reflexivity | apply Hh].
Qed.

End Rules.

Lemma held_set_same l b ls : held (set_held l b ls) l = b.
Proof. destruct l; reflexivity. Qed.

Lemma held_set_other l l' b ls :
  l <> l' -> held (set_held l' b ls) l = held ls l.
Proof.
  destruct l, l'; intros H; try reflexivity; contradiction H; reflexivity.
Qed.

(** A block that takes a lock on entry, turns every exception into a
    value and releases the lock in [finally] never raises, as long as
    nothing in it gives the lock away. *)
Lemma total_locked {A} l (rest : M A) (x : A) :
  keeps (holds l) rest ->
  total (try_finally
           (try_except (Lock_acquire l;; rest) (fun _ => ret x))
           (Lock_release l)).
Proof.
  intros Hk s. unfold try_finally, try_except, bind, Lock_acquire, modify.
  assert (H1 : holds l (log (Acquire l) (with_locks (set_held l true) s)))
    by apply held_set_same.
  specialize (Hk _ H1). unfold holds in Hk.
  destruct (rest _) as [[a|e] s2]; cbn in *;
    unfold Lock_release; rewrite Hk; do 2 eexists; reflexivity.
Qed.

(** ** Stable predicates through the primitives *)

Section Primitives.
Variable py_float : string -> option pyfloat.
Variable py_int : string -> option Z.
Variable others : State -> State.
Variable J : State -> Prop.
Hypothesis HJ : Stable J.
Hypothesis HC : Countable J.
Hypothesis HI : Interruptible others J.

Ltac frame :=
  repeat first
    [ apply keeps_bind; [|intro] | apply keeps_ret
    | apply keeps_raise | apply keeps_gets ];
  try (let s := fresh "s" in
       let H := fresh "H" in
       intros s H; cbn;
       repeat first
         [ apply (st_log _ HJ) | apply (st_acquire _ HJ)
         | apply HC | apply (st_move_event _ HJ)
         | apply (st_get_color_event _ HJ) | apply (st_move_ctrl _ HJ)
         | apply (st_events _ HJ) | apply (st_i2c_in _ HJ)
         | apply (st_gpio_faults _ HJ) | apply HI ];
       exact H).

Lemma keeps_Lock_acquire l : keeps J (Lock_acquire l).
Proof. frame. Qed.

Lemma keeps_Lock_release l : Releasable J l -> keeps J (Lock_release l).
Proof.
  intros HR s H. unfold Lock_release.
  destruct (held (locks s) l); cbn; [|exact H].
  apply (st_log _ HJ), HR, H.
Qed.

Lemma keeps_gpio_access : keeps J gpio_access.
Proof.
  intros s H. unfold gpio_access.
  destruct (gpio_faults s) as [|[] g]; cbn; try exact H;
    apply (st_gpio_faults _ HJ), H.
Qed.

Lemma keeps_modify_log a : keeps J (modify (log a)).
Proof. frame. Qed.

Lemma keeps_LED_write led level :
  Lightable J led -> keeps J (LED_write led level).
Proof.
  intros HL. destruct led as [pin]. unfold LED_write.
  apply keeps_bind; [apply keeps_modify_log | intro].
  apply keeps_bind; [apply keeps_gpio_access | intro].
  intros s H. apply (HL level s H).
Qed.

Lemma keeps_pwm_set v : keeps J (pwm_set v).
Proof.
  unfold pwm_set.
  apply keeps_bind; [apply keeps_modify_log | intro].
  apply keeps_bind; [apply keeps_gpio_access | intro]. frame.
Qed.

Lemma keeps_lhs_phase_set v : keeps J (lhs_phase_set v).
Proof.
  unfold lhs_phase_set.
  apply keeps_bind; [apply keeps_modify_log | intro].
  apply keeps_bind; [apply keeps_gpio_access | intro]. frame.
Qed.

Lemma keeps_rhs_phase_set v : keeps J (rhs_phase_set v).
Proof.
  unfold rhs_phase_set.
  apply keeps_bind; [apply keeps_modify_log | intro].
  apply keeps_bind; [apply keeps_gpio_access | intro]. frame.
Qed.

Lemma keeps_Event_new : keeps J Event_new.
Proof. frame. Qed.

Lemma keeps_Event_set ev : keeps J (Event_set ev).
Proof. frame. Qed.

Lemma keeps_i2c_transact a : keeps J (i2c_transact a).
Proof.
  intros s H. unfold i2c_transact.
  destruct (i2c_in s) as [|[r|] rest]; cbn;
    repeat first [apply (st_i2c_in _ HJ) | apply (st_log _ HJ)]; exact H.
Qed.

Lemma keeps_i2c_close : keeps J i2c_close.
Proof. frame. Qed.

Lemma keeps_float x : keeps J (float py_float x).
Proof. unfold float. destruct (py_float x); frame. Qed.

Lemma keeps_int x : keeps J (int py_int x).
Proof. unfold int. destruct (py_int x); frame. Qed.

Lemma keeps_Event_wait ev t : keeps J (Event_wait others ev t).
Proof.
  intros s H. unfold Event_wait.
  destruct (is_set _ ev); [|destruct (flt _ t); [destruct (too_large t)|]];
    cbn; repeat first [apply HI | apply (st_log _ HJ)];
    exact H.
Qed.

Lemma keeps_sleep t : keeps J (sleep others t).
Proof. frame. Qed.

Lemma keeps_incr : keeps J incr_num_times_moved.
Proof. frame. Qed.

Lemma keeps_with_move_event e : keeps J (modify (with_move_event e)).
Proof. frame. Qed.

Lemma keeps_with_get_color_event e :
  keeps J (modify (with_get_color_event e)).
Proof. frame. Qed.

End Primitives.

Create HintDb keeps.

#[global] Hint Resolve keeps_ret keeps_raise keeps_gets keeps_lift keeps_index
  keeps_Lock_acquire keeps_Lock_release keeps_gpio_access keeps_modify_log
  keeps_LED_write keeps_pwm_set keeps_lhs_phase_set keeps_rhs_phase_set
  keeps_Event_new keeps_Event_set keeps_i2c_transact keeps_i2c_close
  keeps_float keeps_int keeps_Event_wait keeps_sleep keeps_incr
  keeps_with_move_event keeps_with_get_color_event : keeps.

Ltac keeps_step :=
  match goal with
  | |- keeps _ (bind _ _) => apply keeps_bind; [|intro]
  | |- keeps _ (try_except _ _) => apply keeps_try_except; [|intro]
  | |- keeps _ (try_finally _ _) => apply keeps_try_finally
  | |- keeps _ (match ?x with _ => _ end) => destruct x
  | |- keeps _ _ => solve [eauto with keeps]
  end.

Ltac keeps_auto := repeat keeps_step.

(** ** Stable predicates through the methods *)

Section Methods.
Variable py_float : string -> option pyfloat.
Variable py_int : string -> option Z.
Variable others : State -> State.
Variable J : State -> Prop.
Hypothesis HJ : Stable J.
Hypothesis HC : Countable J.
Hypothesis HI : Interruptible others J.

Lemma keeps_write_byte a v : keeps J (write_byte a v).
Proof. unfold write_byte. keeps_auto. Qed.

Lemma keeps_write_byte_data a r v : keeps J (write_byte_data a r v).
Proof. unfold write_byte_data. keeps_auto. Qed.

Lemma keeps_read_i2c_block_data a r v : keeps J (read_i2c_block_data a r v).
Proof. unfold read_i2c_block_data. keeps_auto. Qed.

Lemma keeps_cancel_move : keeps J cancel_move.
Proof. unfold cancel_move. keeps_auto. Qed.

Lemma keeps_cancel_color_detection : keeps J cancel_color_detection.
Proof. unfold cancel_color_detection. keeps_auto. Qed.

Lemma keeps_MoveCtrl_stop : keeps J MoveCtrlM.stop.
Proof. unfold MoveCtrlM.stop. keeps_auto. Qed.

Lemma keeps_MoveCtrl_move op speed : keeps J (MoveCtrlM.move op speed).
Proof.
  destruct op; cbn;
    [ unfold MoveCtrlM.forward | unfold MoveCtrlM.backward
    | unfold MoveCtrlM.clockwise | unfold MoveCtrlM.counter_clockwise
    | apply keeps_MoveCtrl_stop ];
    cbv zeta; keeps_auto.
Qed.

Hint Resolve keeps_write_byte keeps_write_byte_data
  keeps_read_i2c_block_data keeps_cancel_move keeps_cancel_color_detection
  keeps_MoveCtrl_stop keeps_MoveCtrl_move : keeps.

Lemma keeps_leds_off l :
  (forall led, In led l -> Lightable J led) -> keeps J (leds_off l).
Proof.
  induction l as [|led l IH]; intros HL; cbn; [keeps_auto|].
  apply keeps_bind.
  - apply keeps_LED_write; [exact HJ|].
    apply HL; left; reflexivity.
  - intro. apply IH. intros led' Hin. apply HL; right; exact Hin.
Qed.

Lemma keeps_close_poll n : keeps J (close_poll others n).
Proof. induction n as [|n IH]; cbn; keeps_auto. Qed.

Lemma keeps_close :
  (forall led, In led (Eye.values right_eye) -> Lightable J led) ->
  keeps J (close others).
Proof.
  intros HL. unfold close.
  apply keeps_bind; [apply keeps_close_poll | intro].
  apply keeps_bind; [| intro; keeps_auto].
  apply keeps_leds_off. intros led Hin. apply HL.
  apply in_app_or in Hin. destruct Hin; assumption.
Qed.

Section AnyLed.
Hypothesis HL : forall led, Lightable J led.

Lemma keeps_light_leds l : keeps J (light_leds l).
Proof.
  induction l as [|[led flag] l IH]; cbn; [keeps_auto|].
  apply keeps_bind; [|intro; exact IH].
  destruct flag; apply keeps_LED_write; auto.
Qed.

Hint Resolve keeps_light_leds : keeps.

Lemma keeps_light_eye cmd : keeps J (light_eye py_int cmd).
Proof. unfold light_eye. keeps_auto. Qed.

End AnyLed.

Section MoveLocked.
Hypothesis HR : Releasable J MoveLock.

Lemma keeps_stop_raspicar : keeps J stop_raspicar.
Proof. unfold stop_raspicar. keeps_auto. Qed.

Lemma keeps_move_raspicar_begin op speed ev :
  keeps J (move_raspicar_begin op speed ev).
Proof. unfold move_raspicar_begin. keeps_auto. Qed.

Lemma keeps_move_raspicar_end n : keeps J (move_raspicar_end n).
Proof. unfold move_raspicar_end. keeps_auto. Qed.

Hint Resolve keeps_stop_raspicar keeps_move_raspicar_begin
  keeps_move_raspicar_end : keeps.

Lemma keeps_move_raspicar op speed time :
  keeps J (move_raspicar others op speed time).
Proof. unfold move_raspicar. keeps_auto. Qed.

Hint Resolve keeps_move_raspicar : keeps.

Lemma keeps_move cmd : keeps J (move py_float others cmd).
Proof. unfold move, RaspiCarMoveOp_. keeps_auto. Qed.

End MoveLocked.

Section BusLocked.
Hypothesis HR : Releasable J I2cLock.

Lemma keeps_color_sensor_setup iv ev : keeps J (color_sensor_setup iv ev).
Proof. unfold color_sensor_setup. keeps_auto. Qed.

Lemma keeps_color_sensor_readout : keeps J color_sensor_readout.
Proof. unfold color_sensor_readout. keeps_auto. Qed.

Hint Resolve keeps_color_sensor_setup keeps_color_sensor_readout : keeps.

Lemma keeps_color_sensor_expose e : keeps J (color_sensor_expose others e).
Proof. unfold color_sensor_expose. keeps_auto. Qed.

Lemma keeps_color_sensor_collect : keeps J color_sensor_collect.
Proof. unfold color_sensor_collect. keeps_auto. Qed.

Hint Resolve keeps_color_sensor_expose keeps_color_sensor_collect : keeps.

Lemma keeps_get_color_sensor_val e :
  keeps J (get_color_sensor_val others e).
Proof. unfold get_color_sensor_val. keeps_auto. Qed.

Hint Resolve keeps_get_color_sensor_val : keeps.

Lemma keeps_measure_distance cmd : keeps J (measure_distance others cmd).
Proof. unfold measure_distance. keeps_auto. Qed.

Lemma keeps_detect_color cmd :
  Releasable J ColorSensorLock -> keeps J (detect_color py_float others cmd).
Proof. intros HRC. unfold detect_color. keeps_auto. Qed.

End BusLocked.
End Methods.

#[global] Hint Resolve keeps_write_byte keeps_write_byte_data
  keeps_read_i2c_block_data keeps_cancel_move keeps_cancel_color_detection
  keeps_MoveCtrl_stop keeps_MoveCtrl_move keeps_light_leds keeps_light_eye
  keeps_stop_raspicar keeps_move_raspicar_begin keeps_move_raspicar_end
  keeps_move_raspicar keeps_move keeps_color_sensor_setup
  keeps_color_sensor_readout keeps_color_sensor_expose
  keeps_color_sensor_collect keeps_get_color_sensor_val
  keeps_measure_distance keeps_detect_color : keeps.

(** ** [process]: no exception, the response, the registry *)

Lemma mem_discard c l : mem c (discard c l) = false.
Proof.
  unfold mem, discard. induction l as [|x l IH]; cbn; [reflexivity|].
  destruct (HwCtrlCmd.eqb c x) eqn:E; cbn; [exact IH | rewrite E; exact IH].
Qed.

Lemma registered_add cmd s : registered cmd (snd (activeCmds_add cmd s)).
Proof.
  unfold registered, activeCmds_add, modify. cbn.
  destruct (mem cmd (activeCmds s)) eqn:E; cbn; [exact E|].
  unfold HwCtrlCmd.eqb. rewrite Nat.eqb_refl. reflexivity.
Qed.

Lemma answers_failure cmd : answers cmd (failure cmd).
Proof. left; reflexivity. Qed.

Lemma answers_success cmd d :
  answers cmd
    (HwCtrlResp.mk (HwCtrlCmd.cmd_no cmd) (HwCtrlCmd.opcode cmd) true d).
Proof. right; repeat split. Qed.

Lemma answers_any cmd b :
  answers cmd
    (HwCtrlResp.mk (HwCtrlCmd.cmd_no cmd) (HwCtrlCmd.opcode cmd) b []).
Proof. destruct b; [apply answers_success | apply answers_failure]. Qed.

Lemma answers_echo cmd resp :
  answers cmd resp ->
  HwCtrlResp.cmd_no resp = HwCtrlCmd.cmd_no cmd
  /\ HwCtrlResp.opcode resp = HwCtrlCmd.opcode cmd.
Proof. intros [-> | (H1 & H2 & _)]; split; auto. Qed.

Lemma answers_empty_on_failure cmd resp :
  answers cmd resp ->
  HwCtrlResp.is_successful resp = false -> HwCtrlResp.data resp = [].
Proof. intros [-> | (_ & _ & H)] Hf; [reflexivity | congruence]. Qed.

Ltac yields_step :=
  match goal with
  | |- yields _ (bind _ _) => apply yields_bind; intro
  | |- yields _ (try_except _ _) => apply yields_try_except; [|intro]
  | |- yields _ (try_finally _ _) => apply yields_try_finally
  | |- yields _ (match ?x with _ => _ end) => destruct x
  | |- yields _ (ret _) =>
      apply yields_ret;
      first [apply answers_failure | apply answers_success | apply answers_any]
  | |- yields _ (raise _) => apply yields_raise
  end.

Section Process.
Variable py_float : string -> option pyfloat.
Variable py_int : string -> option Z.
Variable others : State -> State.
Variable cmd : HwCtrlCmd.t.

(** What is assumed of the other threads: they do not release a lock
    this thread holds, and they leave this thread's command in the
    registry. *)
Hypothesis others_locks : forall l s, holds l s -> holds l (others s).
Hypothesis others_registry :
  forall s, registered cmd s -> registered cmd (others s).

Lemma Stable_holds l : Stable (holds l).
Proof.
  split; try (intros; assumption).
  intros l0 s H. unfold holds in *. destruct l, l0; cbn; auto.
Qed.

Lemma Countable_holds l : Countable (holds l).
Proof. intros n s H. exact H. Qed.

Lemma Interruptible_holds l : Interruptible others (holds l).
Proof. exact (others_locks l). Qed.

Lemma Releasable_holds l l' : l <> l' -> Releasable (holds l) l'.
Proof.
  intros H s Hs. unfold holds in *. cbn.
  rewrite held_set_other; assumption.
Qed.

Lemma Lightable_holds l led : Lightable (holds l) led.
Proof. intros level s H. exact H. Qed.

Lemma Stable_registered : Stable (registered cmd).
Proof. split; intros; assumption. Qed.

Lemma Countable_registered : Countable (registered cmd).
Proof. intros n s H. exact H. Qed.

Lemma Interruptible_registered : Interruptible others (registered cmd).
Proof. exact others_registry. Qed.

Lemma Releasable_registered l : Releasable (registered cmd) l.
Proof. intros s Hs. exact Hs. Qed.

Lemma Lightable_registered led : Lightable (registered cmd) led.
Proof. intros level s H. exact H. Qed.

Lemma total_light_eye : total (light_eye py_int cmd).
Proof. apply total_try_except. intro. apply total_ret. Qed.

Lemma total_move : total (move py_float others cmd).
Proof.
  unfold move. apply total_bind.
  - apply total_try_except. intro. apply total_ret.
  - intro. apply total_ret.
Qed.

Lemma total_measure_distance : total (measure_distance others cmd).
Proof.
  apply total_locked. pose proof (Stable_holds I2cLock).
  pose proof (Countable_holds I2cLock).
  pose proof (Interruptible_holds I2cLock). keeps_auto.
Qed.

Lemma total_detect_color : total (detect_color py_float others cmd).
Proof.
  apply total_locked. pose proof (Stable_holds ColorSensorLock).
  pose proof (Countable_holds ColorSensorLock).
  pose proof (Interruptible_holds ColorSensorLock).
  assert (Releasable (holds ColorSensorLock) I2cLock)
    by (apply Releasable_holds; discriminate).
  keeps_auto.
Qed.

Lemma yields_light_eye : yields (answers cmd) (light_eye py_int cmd).
Proof. unfold light_eye. repeat yields_step. Qed.

Lemma yields_move : yields (answers cmd) (move py_float others cmd).
Proof. unfold move. repeat yields_step. Qed.

Lemma yields_measure_distance :
  yields (answers cmd) (measure_distance others cmd).
Proof. unfold measure_distance. repeat yields_step. Qed.

Lemma yields_detect_color :
  yields (answers cmd) (detect_color py_float others cmd).
Proof. unfold detect_color. repeat yields_step. Qed.

(** On every exit of the [try] block the command is in the registry. *)
Lemma registered_process_try h1 h2 h3 h4 st :
  keeps (registered cmd) (h1 cmd) -> keeps (registered cmd) (h2 cmd) ->
  keeps (registered cmd) (h3 cmd) -> keeps (registered cmd) (h4 cmd) ->
  registered cmd (snd (process_try h1 h2 h3 h4 cmd st)).
Proof.
  intros K1 K2 K3 K4. unfold process_try, bind at 1.
  pose proof (registered_add cmd st) as Ha.
  destruct (activeCmds_add cmd st) as [[[]|e] s0] eqn:E; cbn in Ha.
  2:{ unfold activeCmds_add, modify in E. discriminate. }
  revert Ha. generalize s0. change (keeps (registered cmd)
    (if String.eqb (HwCtrlCmd.opcode cmd) Opcode.DETECT_COLOR
     then resp <- h1 cmd;; ret (Return resp)
     else if String.eqb (HwCtrlCmd.opcode cmd) Opcode.MOVE
     then resp <- h2 cmd;; ret (Return resp)
     else if String.eqb (HwCtrlCmd.opcode cmd) Opcode.MEASURE_DISTANCE
     then resp <- h3 cmd;; ret (Return resp)
     else if String.eqb (HwCtrlCmd.opcode cmd) Opcode.LIGHT_EYE
     then resp <- h4 cmd;; ret (Return resp)
     else ret (@Next HwCtrlResp.t unit tt))).
  keeps_auto.
Qed.

(** The [finally] clause of [process]: whatever the four methods do,
    return or raise, the command is out of the registry afterwards. *)
Lemma process_with_cleanup h1 h2 h3 h4 st :
  keeps (registered cmd) (h1 cmd) -> keeps (registered cmd) (h2 cmd) ->
  keeps (registered cmd) (h3 cmd) -> keeps (registered cmd) (h4 cmd) ->
  mem cmd (activeCmds (snd (process_with h1 h2 h3 h4 cmd st))) = false.
Proof.
  intros K1 K2 K3 K4.
  pose proof (registered_process_try h1 h2 h3 h4 st K1 K2 K3 K4) as Hr.
  unfold process_with, bind, try_finally.
  destruct (process_try h1 h2 h3 h4 cmd st) as [r s1]. cbn in Hr.
  unfold activeCmds_remove. rewrite Hr.
  destruct r as [[resp|[]]|e]; cbn; apply mem_discard.
Qed.

(** What the [try] block of [process] gives with the four methods of the
    class: a response of one of them, or nothing for an opcode that is
    none of the four. *)
Lemma process_try_returns st :
  exists r s1,
    process_try (detect_color py_float others) (move py_float others)
      (measure_distance others) (light_eye py_int) cmd st = (Ret r, s1)
    /\ match r with
       | Return resp =>
           answers cmd resp /\ recognized (HwCtrlCmd.opcode cmd) = true
       | Next _ => recognized (HwCtrlCmd.opcode cmd) = false
       end.
Proof.
  unfold process_try, bind at 1, recognized.
  destruct (activeCmds_add cmd st) as [[[]|e0] s0] eqn:Ea.
  2:{ unfold activeCmds_add, modify in Ea. discriminate. }
  destruct (total_detect_color s0) as (r1 & t1 & E1).
  destruct (total_move s0) as (r2 & t2 & E2).
  destruct (total_measure_distance s0) as (r3 & t3 & E3).
  destruct (total_light_eye s0) as (r4 & t4 & E4).
  pose proof (yields_detect_color _ _ _ E1).
  pose proof (yields_move _ _ _ E2).
  pose proof (yields_measure_distance _ _ _ E3).
  pose proof (yields_light_eye _ _ _ E4).
  repeat match goal with
         | |- context [if ?b then _ else _] => destruct b
         end;
    unfold bind; rewrite ?E1, ?E2, ?E3, ?E4; cbn;
    do 2 eexists; (split; [reflexivity | cbn; auto]).
Qed.

Lemma process_returns st :
  exists resp st',
    process py_float py_int others cmd st = (Ret resp, st')
    /\ answers cmd resp
    /\ (recognized (HwCtrlCmd.opcode cmd) = false -> resp = failure cmd)
    /\ mem cmd (activeCmds st') = false.
Proof.
  pose proof Stable_registered as HS.
  pose proof Countable_registered as HC.
  pose proof Interruptible_registered as HI.
  pose proof Releasable_registered as HR.
  pose proof Lightable_registered as HL.
  assert (Hc : mem cmd (activeCmds (snd
             (process py_float py_int others cmd st))) = false)
    by (apply process_with_cleanup; eauto with keeps).
  assert (Hr : registered cmd (snd
             (process_try (detect_color py_float others)
                (move py_float others) (measure_distance others)
                (light_eye py_int) cmd st)))
    by (apply registered_process_try; eauto with keeps).
  destruct (process_try_returns st) as (r & s1 & Et & Hshape).
  revert Hc. unfold process, process_with, bind, try_finally.
  rewrite Et in *. cbn in Hr.
  unfold activeCmds_remove. cbv beta. rewrite !Hr.
  destruct r as [resp|[]]; cbn; intros Hc; do 2 eexists;
    (split; [reflexivity|]); repeat split;
    try tauto; auto using answers_failure.
  destruct Hshape as [_ Hrec]. congruence.
Qed.

End Process.

(** ** The generation counter and the stale wait *)

Lemma bind_modify {B} f (k : unit -> M B) s :
  bind (modify f) k s = k tt (f s).
Proof. reflexivity. Qed.

Lemma bind_gets {A B} (f : State -> A) (k : A -> M B) s :
  bind (gets f) k s = k (f s) s.
Proof. reflexivity. Qed.

Lemma issued_prefix {A} (m : M A) s l :
  trace (snd (m s)) = l ++ trace s -> issued m s = l.
Proof.
  intros H. unfold issued. cbv zeta. rewrite H, length_app, Nat.add_sub.
  rewrite firstn_app, Nat.sub_diag, firstn_all. cbn. apply app_nil_r.
Qed.

Lemma Stable_counts c : Stable (counts c).
Proof. split; intros; assumption. Qed.

Lemma Releasable_counts c l : Releasable (counts c) l.
Proof. intros s H; exact H. Qed.

Lemma Lightable_counts c led : Lightable (counts c) led.
Proof. intros level s H; exact H. Qed.

(** A block under the move lock that starts by incrementing the counter
    leaves it one higher on every exit. *)
Lemma incr_under_lock {A} (rest : M A) (h : exn -> M A) c s :
  keeps (counts (c + 1)) rest ->
  (forall e, keeps (counts (c + 1)) (h e)) ->
  counts c s ->
  counts (c + 1)
    (snd (try_finally
            (try_except
               (Lock_acquire MoveLock;; incr_num_times_moved;; rest) h)
            (Lock_release MoveLock) s)).
Proof.
  intros Hrest Hh Hs.
  unfold try_finally, try_except, Lock_acquire, incr_num_times_moved.
  rewrite !bind_modify.
  match goal with |- context [rest ?x] => set (s2 := x) end.
  assert (H2 : counts (c + 1) s2) by (unfold counts in *; cbn; lia).
  specialize (Hrest s2 H2).
  destruct (rest s2) as [[a|e] s3]; cbn in Hrest.
  - unfold Lock_release. destruct (held (locks s3) MoveLock); exact Hrest.
  - specialize (Hh e s3 Hrest). destruct (h e s3) as [r s4]; cbn in Hh.
    unfold Lock_release. destruct (held (locks s4) MoveLock); exact Hh.
Qed.

Lemma num_stop s :
  num_times_moved (snd (stop_raspicar s)) = num_times_moved s + 1.
Proof.
  unfold stop_raspicar, bind at 1.
  pose proof (Stable_counts (num_times_moved s + 1)) as HS.
  assert (H : counts (num_times_moved s + 1)
    (snd (try_finally
            (try_except
               (Lock_acquire MoveLock;; incr_num_times_moved;;
                MoveCtrlM.stop;; cancel_move;; ret (@Next bool unit tt))
               (fun _ => ret (Return false)))
            (Lock_release MoveLock) s))).
  { apply incr_under_lock; [keeps_auto | intro; keeps_auto | reflexivity]. }
  destruct (try_finally _ _ s) as [[[b|[]]|e] s1]; exact H.
Qed.

Lemma num_begin op sp ev s :
  num_times_moved (snd (move_raspicar_begin op sp ev s))
  = num_times_moved s + 1.
Proof.
  pose proof (Stable_counts (num_times_moved s + 1)) as HS.
  unfold move_raspicar_begin.
  apply incr_under_lock; [keeps_auto | intro; keeps_auto | reflexivity].
Qed.

Lemma num_end n s :
  num_times_moved (snd (move_raspicar_end n s)) = num_times_moved s.
Proof.
  apply (keeps_move_raspicar_end (counts (num_times_moved s)));
    [apply Stable_counts | apply Releasable_counts | reflexivity].
Qed.

(** The value a move captures is the counter after its own increment. *)
Lemma begin_captures op sp ev s n s1 :
  move_raspicar_begin op sp ev s = (Ret (Next n), s1) ->
  n = num_times_moved s + 1 /\ num_times_moved s1 = n.
Proof.
  intros H. pose proof (num_begin op sp ev s) as Hn.
  rewrite H in Hn. cbn in Hn.
  assert (Hc : n = num_times_moved s + 1); [|split; [exact Hc | lia]].
  revert H.
  unfold move_raspicar_begin, try_finally, try_except, Lock_acquire,
    incr_num_times_moved.
  rewrite !bind_modify, bind_gets.
  match goal with
  | |- context [bind (MoveCtrlM.move op sp) ?k ?x] => set (s2 := x)
  end.
  match goal with
  | |- context [bind (MoveCtrlM.move op sp) ?k] =>
      set (m := bind (MoveCtrlM.move op sp) k)
  end.
  assert (Y : yields
                (fun r : flow bool Z => r = Next (num_times_moved s + 1)) m).
  { subst m. repeat (apply yields_bind; intro).
    apply yields_ret. cbn. reflexivity. }
  destruct (m s2) as [[r|e] s3] eqn:E.
  - apply Y in E. subst r. unfold Lock_release.
    destruct (held (locks s3) MoveLock); intros H; inversion H; reflexivity.
  - unfold ret, Lock_release.
    destruct (held (locks s3) MoveLock); intros H; inversion H.
Qed.

(** Every block of a newer command adds one to the counter, and the
    second block of an older one leaves it alone. *)
Lemma num_run_blocks bs s :
  num_times_moved (run_blocks bs s)
  = num_times_moved s + Z.of_nat (List.length (filter newer bs)).
Proof.
  revert s. induction bs as [|b bs IH]; intros s; [cbn; lia|].
  change (run_blocks (b :: bs) s) with (run_blocks bs (run_block b s)).
  rewrite IH.
  destruct b; cbn [run_block filter newer List.length];
    [rewrite num_stop | rewrite num_begin | rewrite num_end]; lia.
Qed.

Lemma end_trace n st :
  trace (snd (move_raspicar_end n st)) =
    (if n =? num_times_moved st
     then [Release MoveLock; PwmWrite (Fin 0); Acquire MoveLock]
     else [Release MoveLock; Acquire MoveLock]) ++ trace st.
Proof.
  unfold move_raspicar_end, try_finally, try_except, Lock_acquire.
  rewrite bind_modify, bind_gets. cbn [num_times_moved log with_locks].
  destruct (n =? num_times_moved st); cbn; [|reflexivity].
  unfold MoveCtrlM.stop, pwm_set, gpio_access, Lock_release, bind, modify, ret.
  cbn. destruct (gpio_faults st) as [|[] g]; reflexivity.
Qed.

(** The motor calls of the second block: one stop when the captured
    value is the counter, none otherwise. *)
Lemma end_motor n st :
  filter motor_action (issued (move_raspicar_end n) st) =
    if n =? num_times_moved st then [PwmWrite (Fin 0)] else [].
Proof.
  rewrite (issued_prefix _ _ _ (end_trace n st)).
  destruct (n =? num_times_moved st); reflexivity.
Qed.

Lemma existsb_filter {A} (f : A -> bool) l :
  existsb f l = negb (Nat.eqb (List.length (filter f l)) 0).
Proof.
  induction l as [|a l IH]; cbn; [reflexivity|]. destruct (f a); cbn; auto.
Qed.

(** ** Stepping through the motor code *)

Lemma bind_ok {A B} (m : M A) (k : A -> M B) s a s' :
  m s = (Ret a, s') -> bind m k s = k a s'.
Proof. intros H. unfold bind. rewrite H. reflexivity. Qed.

Lemma motor_frame_trans s1 s2 s3 :
  motor_frame s1 s2 -> motor_frame s2 s3 -> motor_frame s1 s3.
Proof.
  intros (A1 & A2 & A3 & A4 & A5) (B1 & B2 & B3 & B4 & B5).
  repeat split; congruence.
Qed.

Lemma gpio_access_ok s : gpio_faults s = [] -> gpio_access s = (Ret tt, s).
Proof. intros H. unfold gpio_access. rewrite H. reflexivity. Qed.

Lemma pwm_set_ok v s :
  gpio_faults s = [] ->
  exists s',
    pwm_set v s = (Ret tt, s') /\ motor_frame s s' /\ pwm (move_ctrl s') = v.
Proof.
  intros H. unfold pwm_set. rewrite bind_modify; cbv beta.
  erewrite bind_ok by (apply gpio_access_ok; exact H). cbv beta.
  eexists; split; [reflexivity|]. split; [repeat split | reflexivity].
Qed.

Lemma lhs_phase_set_ok v s :
  gpio_faults s = [] ->
  exists s', lhs_phase_set v s = (Ret tt, s') /\ motor_frame s s'.
Proof.
  intros H. unfold lhs_phase_set. rewrite bind_modify; cbv beta.
  erewrite bind_ok by (apply gpio_access_ok; exact H). cbv beta.
  eexists; split; [reflexivity|]. repeat split.
Qed.

Lemma rhs_phase_set_ok v s :
  gpio_faults s = [] ->
  exists s', rhs_phase_set v s = (Ret tt, s') /\ motor_frame s s'.
Proof.
  intros H. unfold rhs_phase_set. rewrite bind_modify; cbv beta.
  erewrite bind_ok by (apply gpio_access_ok; exact H). cbv beta.
  eexists; split; [reflexivity|]. repeat split.
Qed.

Lemma drive_ok l r v s :
  gpio_faults s = [] ->
  exists s',
    (lhs_phase_set l;; rhs_phase_set r;; pwm_set v) s = (Ret tt, s')
    /\ motor_frame s s'.
Proof.
  intros H.
  destruct (lhs_phase_set_ok l s H) as (s1 & E1 & F1).
  assert (H1 : gpio_faults s1 = []) by (destruct F1 as [-> _]; exact H).
  destruct (rhs_phase_set_ok r s1 H1) as (s2 & E2 & F2).
  assert (H2 : gpio_faults s2 = []) by (destruct F2 as [-> _]; exact H1).
  destruct (pwm_set_ok v s2 H2) as (s3 & E3 & F3 & _).
  rewrite (bind_ok _ _ _ _ _ E1); cbv beta.
  rewrite (bind_ok _ _ _ _ _ E2); cbv beta. rewrite E3.
  eexists; split; [reflexivity|]. eauto using motor_frame_trans.
Qed.

Lemma MoveCtrl_move_ok op sp s :
  gpio_faults s = [] ->
  exists s', MoveCtrlM.move op sp s = (Ret tt, s') /\ motor_frame s s'.
Proof.
  intros H. destruct op; cbn [MoveCtrlM.move];
    [ unfold MoveCtrlM.forward | unfold MoveCtrlM.backward
    | unfold MoveCtrlM.clockwise | unfold MoveCtrlM.counter_clockwise | ];
    cbv zeta; try (apply drive_ok; exact H).
  unfold MoveCtrlM.stop.
  destruct (pwm_set_ok (Fin 0) s H) as (s' & E & F & _). eauto.
Qed.

Lemma cancel_move_ok s :
  exists s',
    cancel_move s = (Ret tt, s')
    /\ gpio_faults s' = gpio_faults s
    /\ num_times_moved s' = num_times_moved s
    /\ locks s' = locks s.
Proof.
  unfold cancel_move. rewrite bind_gets; cbv beta.
  destruct (move_event s); eexists; split; try reflexivity; repeat split.
Qed.

(** With pins that do not fail, the first block of a move returns the
    value it captured. *)
Lemma begin_ok op sp ev s :
  gpio_faults s = [] ->
  exists s1,
    move_raspicar_begin op sp ev s = (Ret (Next (num_times_moved s + 1)), s1)
    /\ gpio_faults s1 = []
    /\ num_times_moved s1 = num_times_moved s + 1.
Proof.
  intros Hg.
  unfold move_raspicar_begin, try_finally, try_except, Lock_acquire,
    incr_num_times_moved.
  rewrite !bind_modify, bind_gets; cbv beta.
  match goal with
  | |- context [bind (MoveCtrlM.move op sp) ?k ?x] => set (s2 := x)
  end.
  destruct (MoveCtrl_move_ok op sp s2 Hg) as (s3 & E3 & G3 & N3 & L3 & _).
  rewrite (bind_ok _ _ _ _ _ E3); cbv beta.
  destruct (cancel_move_ok s3) as (s4 & E4 & G4 & N4 & L4).
  rewrite (bind_ok _ _ _ _ _ E4); cbv beta. rewrite bind_modify; cbv beta.
  unfold ret, Lock_release.
  assert (Hh : held (locks (with_move_event (Some ev) s4)) MoveLock = true).
  { change (held (locks s4) MoveLock = true). rewrite L4, L3. reflexivity. }
  rewrite Hh. eexists; split; [reflexivity|]. split.
  - change (gpio_faults s4 = []). rewrite G4, G3. exact Hg.
  - change (num_times_moved s4 = num_times_moved s + 1).
    rewrite N4, N3. reflexivity.
Qed.

Ltac run_move :=
  unfold stop_raspicar, move_raspicar_end, MoveCtrlM.stop, pwm_set,
    cancel_move, Event_set, incr_num_times_moved, Lock_acquire,
    Lock_release, gpio_access, try_finally, try_except, bind, modify,
    gets, ret.

Lemma end_stale n s :
  n <> num_times_moved s -> fst (move_raspicar_end n s) = Ret (Return true).
Proof.
  intros H. run_move. cbn. apply Z.eqb_neq in H. rewrite H. reflexivity.
Qed.

Lemma end_current s :
  gpio_faults s = [] ->
  fst (move_raspicar_end (num_times_moved s) s) = Ret (Next tt).
Proof.
  intros H. run_move. cbn. rewrite Z.eqb_refl. cbn. rewrite H. reflexivity.
Qed.

Lemma set_flag_sets ev l :
  (ev < List.length l)%nat -> nth ev (set_flag ev l) false = true.
Proof.
  revert ev. induction l as [|b l IH]; intros [|ev] H; cbn in *;
    try lia; try reflexivity.
  apply IH. lia.
Qed.

Lemma stop_raspicar_ok st :
  hd false (gpio_faults st) = false ->
  exists st',
    stop_raspicar st = (Ret true, st')
    /\ num_times_moved st' = num_times_moved st + 1
    /\ pwm (move_ctrl st') = Fin 0
    /\ events st' =
         match move_event st with
         | Some ev => set_flag ev (events st)
         | None => events st
         end
    /\ trace st' =
         Release MoveLock
         :: match move_event st with
            | Some ev => [EventSet ev]
            | None => []
            end
         ++ PwmWrite (Fin 0) :: Acquire MoveLock :: trace st
    /\ held (locks st') MoveLock = false.
Proof.
  intros H. run_move. cbn.
  destruct (gpio_faults st) as [|[] g] eqn:E; cbn in *; try discriminate;
    destruct (move_event st); cbn; eexists; repeat split.
Qed.

Section Move.
Variable py_float : string -> option pyfloat.
Variable others : State -> State.

(** A wait whose timeout is accepted returns, after the other threads
    have run. *)
Lemma wait_returns ev t s :
  too_large t = false ->
  Event_wait others ev t s = (Ret tt, others (log (EventWait ev t) s)).
Proof.
  intros H. unfold Event_wait. cbv zeta.
  destruct (is_set _ ev); [reflexivity|].
  destruct (flt (Fin 0) t); [rewrite H|]; reflexivity.
Qed.

(** A move whose pins do not fail and whose wait is accepted returns
    True, whether the other threads moved the counter during the wait or
    left everything alone. *)
Lemma move_raspicar_true op sp t s :
  gpio_faults s = [] -> too_large t = false ->
  (forall s', gpio_faults s' = [] ->
              num_times_moved s' = num_times_moved (others s') ->
              gpio_faults (others s') = []) ->
  fst (move_raspicar others op sp t s) = Ret true.
Proof.
  intros Hg Ht Hothers. unfold move_raspicar, bind at 1.
  unfold Event_new at 1.
  set (s0 := with_events _ s). set (ev := List.length (events s)).
  destruct (begin_ok op sp ev s0 Hg) as (s1 & E1 & Hg1 & Hn1).
  unfold bind at 1. rewrite E1.
  pose proof (wait_returns ev t s1 Ht) as E2.
  set (s2 := others (log (EventWait ev t) s1)) in *.
  unfold bind at 1. rewrite E2. unfold bind.
  destruct (Z.eq_dec (num_times_moved s0 + 1) (num_times_moved s2))
    as [e|ne].
  - assert (Hg2 : gpio_faults s2 = []).
    { apply Hothers; [exact Hg1|].
      change (num_times_moved (log (EventWait ev t) s1))
        with (num_times_moved s1).
      fold s2. lia. }
    pose proof (end_current s2 Hg2) as He. rewrite <- e in He.
    destruct (move_raspicar_end _ s2) as [r s3]. cbn in He. subst r.
    reflexivity.
  - pose proof (end_stale _ s2 ne) as He.
    destruct (move_raspicar_end _ s2) as [r s3]. cbn in He. subst r.
    reflexivity.
Qed.

Lemma move_parsed cmd st sop sspeed stime rest op speed time :
  HwCtrlCmd.params cmd = sop :: sspeed :: stime :: rest ->
  RaspiCarMoveOp_of sop = Some op -> op <> STOP ->
  py_float sspeed = Some speed -> py_float stime = Some time ->
  fst (move_raspicar others op speed time st) = Ret true ->
  fst (move py_float others cmd st)
  = Ret (HwCtrlResp.mk (HwCtrlCmd.cmd_no cmd) (HwCtrlCmd.opcode cmd)
           true []).
Proof.
  intros Hp Hop Hns Hs Ht Hm.
  unfold move. rewrite Hp.
  unfold try_except, bind, index, RaspiCarMoveOp_, float, ret.
  cbn [nth_error]. rewrite Hop.
  destruct op; try contradiction; rewrite Hs, Ht;
    destruct (move_raspicar others _ speed time st) as [r s'];
    cbn in Hm; subst r; reflexivity.
Qed.

End Move.

(** C10. A move command that is preempted during its wait answers as an
    unpreempted one does.  The parameters parse, the pins do not fail and
    the wait accepts the duration; the other threads, whenever they run,
    increment the counter.  The response of the command is the successful
    one, and it is the response the same command gives when no other
    thread runs. *)
Theorem preempted_move_reports_success
  (py_float : string -> option pyfloat) (others : State -> State)
  cmd st sop sspeed stime rest op speed time :
  HwCtrlCmd.params cmd = sop :: sspeed :: stime :: rest ->
  RaspiCarMoveOp_of sop = Some op -> op <> STOP ->
  py_float sspeed = Some speed -> py_float stime = Some time ->
  too_large time = false ->
  gpio_faults st = [] ->
  (forall s, num_times_moved s < num_times_moved (others s)) ->
  fst (move py_float others cmd st)
  = Ret (HwCtrlResp.mk (HwCtrlCmd.cmd_no cmd) (HwCtrlCmd.opcode cmd)
           true [])
  /\ fst (move py_float others cmd st) = fst (move py_float quiet cmd st).
Proof.
  intros Hp Hop Hns Hs Ht Hl Hg Hpre.
  assert (H1 : fst (move py_float others cmd st)
               = Ret (HwCtrlResp.mk (HwCtrlCmd.cmd_no cmd)
                        (HwCtrlCmd.opcode cmd) true [])).
  { eapply move_parsed; eauto.
    apply move_raspicar_true; auto.
    intros s' _ Heq. specialize (Hpre s'). lia. }
  assert (H2 : fst (move py_float quiet cmd st)
               = Ret (HwCtrlResp.mk (HwCtrlCmd.cmd_no cmd)
                        (HwCtrlCmd.opcode cmd) true [])).
  { eapply move_parsed; eauto.
    apply move_raspicar_true; auto. }
  split; [exact H1 | congruence].
Qed.

(** A forward move of three seconds; during its wait another thread runs
    a stop command. *)
Lemma preempted_move_reports_success_witness :
  fst (move dec_float (fun s => snd (stop_raspicar s))
         (HwCtrlCmd.of_ 8 "8,move,fwd,1,3") CmdProcessor_init)
  = Ret (HwCtrlResp.mk "8" "move" true [])
  /\ num_times_moved
       (snd (move dec_float (fun s => snd (stop_raspicar s))
               (HwCtrlCmd.of_ 8 "8,move,fwd,1,3") CmdProcessor_init)) = 2.
Proof.
  split; [|vm_compute; reflexivity].
  refine (proj1 (preempted_move_reports_success dec_float
                   (fun s => snd (stop_raspicar s))
                   (HwCtrlCmd.of_ 8 "8,move,fwd,1,3") CmdProcessor_init
                   "fwd" "1" "3" [] FORWARD (Fin 1) (Fin 3)
                   _ _ _ _ _ _ _ _));
    try (vm_compute; reflexivity).
  - discriminate.
  - intros s. rewrite num_stop. lia.
Defined.

(** ** Stop and light-eye commands *)

(** C5. A move command whose operation is stop increments the counter,
    commands the motor driver to stop and sets the flag of the active
    move wait-handle, if there is one, all between the acquisition and
    the release of the move lock; it reports success when the call to
    the motor driver does not fail. *)
Theorem stop_command_stops_and_signals
  (py_float : string -> option pyfloat) (others : State -> State)
  cmd st rest :
  HwCtrlCmd.params cmd = "stop" :: rest ->
  hd false (gpio_faults st) = false ->
  exists st',
    move py_float others cmd st
    = (Ret (HwCtrlResp.mk (HwCtrlCmd.cmd_no cmd) (HwCtrlCmd.opcode cmd)
              true []), st')
    /\ num_times_moved st' = num_times_moved st + 1
    /\ pwm (move_ctrl st') = Fin 0
    /\ (forall ev, move_event st = Some ev ->
                   (ev < List.length (events st))%nat ->
                   is_set st' ev = true)
    /\ trace st' =
         Release MoveLock
         :: match move_event st with
            | Some ev => [EventSet ev]
            | None => []
            end
         ++ PwmWrite (Fin 0) :: Acquire MoveLock :: trace st
    /\ held (locks st') MoveLock = false.
Proof.
  intros Hp Hg.
  destruct (stop_raspicar_ok st Hg) as (st' & E & Hn & Hpwm & Hev & Ht & Hl).
  exists st'. split; [|repeat split; auto].
  - unfold move. rewrite Hp.
    unfold try_except, bind, index, RaspiCarMoveOp_, ret.
    cbn [nth_error].
    change (RaspiCarMoveOp_of "stop") with (Some STOP). cbv beta iota.
    rewrite E. reflexivity.
  - intros ev Hev' Hlt. unfold is_set. rewrite Hev, Hev'.
    apply set_flag_sets, Hlt.
Qed.

(** A stop command arrives while a move waits on the handle 0. *)
Lemma stop_command_stops_and_signals_witness :
  HwCtrlCmd.params (HwCtrlCmd.of_ 2 "2,move,stop") = ["stop"]
  /\ hd false
       (gpio_faults
          (with_move_event (Some 0%nat)
             (with_events [false] CmdProcessor_init))) = false
  /\ exists st',
       move dec_float quiet (HwCtrlCmd.of_ 2 "2,move,stop")
         (with_move_event (Some 0%nat)
            (with_events [false] CmdProcessor_init))
       = (Ret (HwCtrlResp.mk "2" "move" true []), st')
       /\ is_set st' 0 = true.
Proof.
  split; [vm_compute; reflexivity|]. split; [reflexivity|].
  destruct (stop_command_stops_and_signals dec_float quiet
              (HwCtrlCmd.of_ 2 "2,move,stop")
              (with_move_event (Some 0%nat)
                 (with_events [false] CmdProcessor_init))
              [] ltac:(vm_compute; reflexivity) eq_refl)
    as (st' & E & _ & _ & Hset & _).
  exists st'. split.
  - exact E.
  - apply Hset; [reflexivity | cbn; lia].
Defined.

(** C9. A light-eye command whose three flags are integers and whose
    eye selector is none of left, right and both reports success and
    touches no lamp: the state after the command is the state before
    it, no call issued. *)
Theorem light_eye_unknown_selector
  (py_int : string -> option Z) cmd st eye p1 p2 p3 rest n1 n2 n3 :
  HwCtrlCmd.params cmd = eye :: p1 :: p2 :: p3 :: rest ->
  py_int p1 = Some n1 -> py_int p2 = Some n2 -> py_int p3 = Some n3 ->
  eye <> RaspiCarEye.LEFT ->
  eye <> RaspiCarEye.RIGHT ->
  eye <> RaspiCarEye.BOTH ->
  light_eye py_int cmd st
  = (Ret (HwCtrlResp.mk (HwCtrlCmd.cmd_no cmd) (HwCtrlCmd.opcode cmd)
            true []), st).
Proof.
  intros Hp H1 H2 H3 HL HR HB.
  unfold light_eye, try_except, bind, index, int. rewrite Hp. cbn.
  rewrite H1, H2, H3. cbn.
  apply String.eqb_neq in HL, HR, HB. rewrite HL, HR, HB. reflexivity.
Qed.

Lemma light_eye_unknown_selector_witness :
  light_eye dec_int (HwCtrlCmd.of_ 7 "7,light-eye,up,1,0,1")
    CmdProcessor_init
  = (Ret (HwCtrlResp.mk "7" "light-eye" true []), CmdProcessor_init).
Proof.
  apply (light_eye_unknown_selector dec_int
           (HwCtrlCmd.of_ 7 "7,light-eye,up,1,0,1") CmdProcessor_init
           "up" "1" "0" "1" [] 1 0 1);
    try (vm_compute; reflexivity); discriminate.
Defined.

(** ** The sensors *)

Lemma lor_shift_add hi lo n :
  0 <= n -> 0 <= lo < 2 ^ n -> Z.lor (Z.shiftl hi n) lo = hi * 2 ^ n + lo.
Proof.
  intros Hn Hl. rewrite <- Z.shiftl_mul_pow2 by lia.
  assert (H0 : Z.land (Z.shiftl hi n) lo = 0).
  { apply Z.bits_inj'. intros k Hk. rewrite Z.land_spec, Z.bits_0.
    destruct (Z.lt_ge_cases k n).
    - rewrite Z.shiftl_spec_low by lia. reflexivity.
    - assert (Hb : Z.testbit lo k = false).
      { destruct (Z.eq_dec lo 0) as [->|Hne]; [apply Z.bits_0|].
        apply Z.bits_above_log2; [lia|].
        apply Z.log2_lt_pow2; [lia|].
        eapply Z.lt_le_trans; [apply Hl|]. apply Z.pow_le_mono_r; lia. }
      rewrite Hb. apply andb_false_r. }
  rewrite <- Z.lxor_lor by exact H0.
  rewrite <- Z.add_nocarry_lxor by exact H0. reflexivity.
Qed.

(** Two bytes, high one first. *)
Lemma be16 hi lo :
  0 <= hi <= 255 -> 0 <= lo <= 255 ->
  Z.lor (Z.shiftl hi 8) lo = hi * 256 + lo /\ 0 <= hi * 256 + lo <= 65535.
Proof.
  intros Hh Hl. split; [|lia].
  apply (lor_shift_add hi lo 8); [lia|]. change (2 ^ 8) with 256. lia.
Qed.

(** Three bytes, high one first. *)
Lemma be24 d0 d1 d2 :
  0 <= d0 <= 255 -> 0 <= d1 <= 255 -> 0 <= d2 <= 255 ->
  Z.lor (Z.lor (Z.shiftl d0 16) (Z.shiftl d1 8)) d2
  = d0 * 65536 + d1 * 256 + d2.
Proof.
  intros H0 H1 H2.
  rewrite <- Z.lor_assoc. rewrite (proj1 (be16 d1 d2 H1 H2)).
  rewrite (lor_shift_add d0 (d1 * 256 + d2) 16);
    [change (2 ^ 16) with 65536; lia | lia |].
  change (2 ^ 16) with 65536. lia.
Qed.

Lemma bind_ret {A B} (a : A) (k : A -> M B) s : bind (ret a) k s = k a s.
Proof. reflexivity. Qed.

Local Opaque Z.shiftl Z.lor.

Section Sensors.
Variable py_float : string -> option pyfloat.
Variable others : State -> State.

(** The other threads do not release a lock this thread holds, and do
    not use the bus while this thread holds the bus lock. *)
Hypothesis others_locks : forall l s, holds l s -> holds l (others s).
Hypothesis others_bus :
  forall s, holds I2cLock s -> i2c_in (others s) = i2c_in s.

Lemma measure_distance_ok cmd st ack d0 d1 d2 rest :
  i2c_in st = Some ack :: Some [d0; d1; d2] :: rest ->
  0 <= d0 <= 255 -> 0 <= d1 <= 255 -> 0 <= d2 <= 255 ->
  exists st',
    measure_distance others cmd st
    = (Ret (HwCtrlResp.mk (HwCtrlCmd.cmd_no cmd) (HwCtrlCmd.opcode cmd) true
              [str_of_int (d0 * 65536 + d1 * 256 + d2)]), st')
    /\ held (locks st') I2cLock = false.
Proof.
  intros Hin H0 H1 H2.
  unfold measure_distance, try_finally, try_except, bind, Lock_acquire,
    write_byte, sleep, read_i2c_block_data, i2c_transact, modify, bind, ret.
  cbn. rewrite Hin. cbn.
  match goal with |- context [others ?s] => set (s1 := s) end.
  assert (Hh : holds I2cLock s1) by reflexivity.
  rewrite (others_bus s1 Hh). cbn.
  assert (Hh' : i2c_lock (locks (others s1)) = true)
    by apply (others_locks I2cLock _ Hh).
  unfold Lock_release. cbn. rewrite Hh'. cbn.
  rewrite be24 by assumption. eexists; split; reflexivity.
Qed.

Lemma measure_distance_fails cmd st :
  acks 2 (i2c_in st) = false ->
  exists st',
    measure_distance others cmd st = (Ret (failure cmd), st')
    /\ held (locks st') I2cLock = false.
Proof.
  intros Hin.
  unfold measure_distance, try_finally, try_except, bind, Lock_acquire,
    write_byte, sleep, read_i2c_block_data, i2c_transact, modify, bind, ret.
  cbn. destruct (i2c_in st) as [|[ack|] script] eqn:E; cbn.
  - unfold Lock_release. cbn. eexists; split; reflexivity.
  - match goal with |- context [others ?s] => set (s1 := s) end.
    assert (Hh : holds I2cLock s1) by reflexivity.
    rewrite (others_bus s1 Hh). cbn.
    assert (Hh' : i2c_lock (locks (others s1)) = true)
      by apply (others_locks I2cLock _ Hh).
    destruct script as [|[d|] script]; cbn in Hin; try discriminate; cbn;
      unfold Lock_release; cbn; rewrite Hh'; eexists; split; reflexivity.
  - unfold Lock_release. cbn. eexists; split; reflexivity.
Qed.

(** C6. A measure-distance command whose two bus transactions succeed
    and whose read yields three bytes answers with success and one
    string, the decimal form of [d0 * 65536 + d1 * 256 + d2]; when one of
    the two transactions fails it answers with the failure response.  In
    both cases the bus lock is released. *)
Theorem measure_distance_decodes cmd st :
  (forall ack d0 d1 d2 rest,
     i2c_in st = Some ack :: Some [d0; d1; d2] :: rest ->
     0 <= d0 <= 255 -> 0 <= d1 <= 255 -> 0 <= d2 <= 255 ->
     exists st',
       measure_distance others cmd st
       = (Ret (HwCtrlResp.mk (HwCtrlCmd.cmd_no cmd) (HwCtrlCmd.opcode cmd)
                 true [str_of_int (d0 * 65536 + d1 * 256 + d2)]), st')
       /\ held (locks st') I2cLock = false)
  /\ (acks 2 (i2c_in st) = false ->
      exists st',
        measure_distance others cmd st = (Ret (failure cmd), st')
        /\ held (locks st') I2cLock = false).
Proof.
  split; [apply measure_distance_ok | apply measure_distance_fails].
Qed.

End Sensors.

(** The payload [0x00, 0x01, 0x00] gives the string 256. *)
Lemma measure_distance_decodes_witness :
  exists st',
    measure_distance quiet (HwCtrlCmd.of_ 9 "9,measure-distance")
      (with_i2c_in [Some []; Some [0; 1; 0]] CmdProcessor_init)
    = (Ret (HwCtrlResp.mk "9" "measure-distance" true ["256"]), st')
    /\ held (locks st') I2cLock = false.
Proof.
  refine (proj1 (measure_distance_decodes quiet _ _
                   (HwCtrlCmd.of_ 9 "9,measure-distance")
                   (with_i2c_in [Some []; Some [0; 1; 0]] CmdProcessor_init))
            [] 0 1 0 [] eq_refl _ _ _); try lia.
  - intros l s H; exact H.
  - intros s H; reflexivity.
Defined.

Section ColorSensor.
Variable py_float : string -> option pyfloat.
Variable others : State -> State.

(** The read-out after the wait, when the bus answers with eight
    bytes. *)
Lemma color_sensor_collect_ok s b0 b1 b2 b3 b4 b5 b6 b7 rest :
  i2c_in s = Some [b0; b1; b2; b3; b4; b5; b6; b7] :: rest ->
  exists s',
    color_sensor_collect s
    = (Ret [Z.lor (Z.shiftl b0 8) b1;
            Z.lor (Z.shiftl b2 8) b3;
            Z.lor (Z.shiftl b4 8) b5], s')
    /\ locks s' = set_held I2cLock false (locks s)
    /\ trace s'
       = Release I2cLock :: I2cReadBlock COLOR_SENSOR_I2C_ADDR 3 8
         :: Acquire I2cLock :: trace s.
Proof.
  intros Hin.
  unfold color_sensor_collect, color_sensor_readout, try_finally, try_except,
    bind, Lock_acquire, read_i2c_block_data, i2c_transact, modify, ret.
  cbn. rewrite Hin. cbn. unfold Lock_release. cbn.
  eexists; split; [reflexivity|]. split; reflexivity.
Qed.

(** C7. A detect-color command whose exposure phase completes and whose
    final bus read yields eight bytes answers with success and three
    strings: the decimal forms of the big-endian 16-bit values of the
    byte pairs 0-1, 2-3 and 4-5, each between 0 and 65535.  Both locks
    are released. *)
Theorem detect_color_decodes
  cmd st p ps e s2 b0 b1 b2 b3 b4 b5 b6 b7 rest :
  HwCtrlCmd.params cmd = p :: ps ->
  py_float p = Some e ->
  color_sensor_expose others e (snd (Lock_acquire ColorSensorLock st))
  = (Ret (Next tt), s2) ->
  holds ColorSensorLock s2 ->
  i2c_in s2 = Some [b0; b1; b2; b3; b4; b5; b6; b7] :: rest ->
  Forall (fun b => 0 <= b <= 255) [b0; b1; b2; b3; b4; b5; b6; b7] ->
  let red := b0 * 256 + b1 in
  let green := b2 * 256 + b3 in
  let blue := b4 * 256 + b5 in
  exists st',
    detect_color py_float others cmd st
    = (Ret (HwCtrlResp.mk (HwCtrlCmd.cmd_no cmd) (HwCtrlCmd.opcode cmd) true
              [str_of_int red; str_of_int green; str_of_int blue]), st')
    /\ Forall (fun v => 0 <= v <= 65535) [red; green; blue]
    /\ held (locks st') ColorSensorLock = false
    /\ held (locks st') I2cLock = false.
Proof.
  intros Hp Hf Hexp Hheld Hin Hbytes red green blue.
  repeat match goal with
         | H : Forall _ (_ :: _) |- _ => inversion H; clear H; subst
         end.
  destruct (be16 b0 b1) as [E0 R0]; try assumption.
  destruct (be16 b2 b3) as [E1 R1]; try assumption.
  destruct (be16 b4 b5) as [E2 R2]; try assumption.
  destruct (color_sensor_collect_ok s2 _ _ _ _ _ _ _ _ _ Hin)
    as (s3 & Ec & Hl & _).
  rewrite E0, E1, E2 in Ec.
  change (snd (Lock_acquire ColorSensorLock st))
    with (log (Acquire ColorSensorLock)
            (with_locks (set_held ColorSensorLock true) st)) in Hexp.
  unfold detect_color, try_finally, try_except, Lock_acquire.
  rewrite bind_modify; cbv beta.
  unfold index. rewrite Hp. cbn [nth_error]. rewrite bind_ret.
  unfold float. rewrite Hf, bind_ret.
  unfold get_color_sensor_val.
  unfold bind at 1. unfold bind at 1. rewrite Hexp, Ec.
  cbn [map]. unfold ret, Lock_release.
  assert (Hh : held (locks s3) ColorSensorLock = true).
  { rewrite Hl. exact Hheld. }
  rewrite Hh. eexists; split; [reflexivity|]. split; [|split].
  - subst red green blue.
    repeat (apply Forall_cons; [assumption|]). apply Forall_nil.
  - reflexivity.
  - cbn. rewrite Hl. reflexivity.
Qed.

End ColorSensor.

(** An exposure of zero seconds on a bus that acknowledges the four
    writes and then delivers eight bytes. *)
Lemma detect_color_decodes_witness :
  exists st',
    detect_color dec_float quiet (HwCtrlCmd.of_ 3 "3,detect-color,0")
      (with_i2c_in
         [Some []; Some []; Some []; Some [];
          Some [1; 2; 3; 4; 5; 6; 7; 8]] CmdProcessor_init)
    = (Ret (HwCtrlResp.mk "3" "detect-color" true ["258"; "772"; "1286"]),
       st')
    /\ held (locks st') ColorSensorLock = false
    /\ held (locks st') I2cLock = false.
Proof.
  destruct (detect_color_decodes dec_float quiet
              (HwCtrlCmd.of_ 3 "3,detect-color,0")
              (with_i2c_in
                 [Some []; Some []; Some []; Some [];
                  Some [1; 2; 3; 4; 5; 6; 7; 8]] CmdProcessor_init)
              "0" [] (Fin 0)
              (snd (color_sensor_expose quiet (Fin 0)
                      (snd (Lock_acquire ColorSensorLock
                              (with_i2c_in
                                 [Some []; Some []; Some []; Some [];
                                  Some [1; 2; 3; 4; 5; 6; 7; 8]]
                                 CmdProcessor_init)))))
              1 2 3 4 5 6 7 8 [])
    as (st' & E & _ & H1 & H2);
    try (vm_compute; reflexivity).
  - repeat constructor; lia.
  - exists st'. repeat split; assumption.
Defined.

(** ** The exposure wait *)

Lemma Qltb_lt a b : Qltb a b = true <-> (a < b)%Q.
Proof.
  unfold Qltb. rewrite negb_true_iff, <- not_true_iff_false, Qle_bool_iff.
  split; [apply Qnot_le_lt | apply Qlt_not_le].
Qed.

(** The register value comes from the clamped exposure: every exposure
    above 11 seconds programs the sensor as 11 seconds does. *)
Lemma integ_val_clamped q :
  (11 < q)%Q -> integ_val_of (Fin q) = integ_val_of (Fin 11).
Proof.
  intros H. unfold integ_val_of, py_min. cbn [flt].
  apply Qltb_lt in H. rewrite H. reflexivity.
Qed.

(** The timeout of the wait comes from the exposure as given: above 11
    seconds it is beyond [4 * 11 * 1.05]. *)
Lemma exposure_wait_beyond_bound q :
  (11 < q)%Q -> flt (Fin (4 * 11 * 1.05)) (exposure_wait (Fin q)) = true.
Proof.
  intros H. unfold exposure_wait. cbn [fmul flt]. apply Qltb_lt. lra.
Qed.

(** Within the valid range the timeout is within the bound. *)
Lemma exposure_wait_within_bound q :
  (0 <= q <= 11)%Q ->
  flt (Fin (4 * 11 * 1.05)) (exposure_wait (Fin q)) = false.
Proof.
  intros H. unfold exposure_wait. cbn [fmul flt].
  apply not_true_iff_false. rewrite Qltb_lt. lra.
Qed.

(** C4, at the command [detect-color,100].  The registers are written
    with the value of the clamped exposure, 11 seconds; the wait is
    entered with the timeout of the exposure as given, [4 * 100 * 1.05]
    seconds, which is 420 and beyond [4 * 11 * 1.05]. *)
Theorem exposure_wait_not_clamped :
  let st :=
    with_i2c_in
      [Some []; Some []; Some []; Some []; Some [0; 1; 0; 2; 0; 3; 0; 0]]
      CmdProcessor_init in
  let st' := snd (get_color_sensor_val quiet (Fin 100) st) in
  integ_val_of (Fin 100) = Ret 62857
  /\ integ_val_of (Fin 11) = Ret 62857
  /\ trace st'
     = [Release I2cLock; I2cReadBlock 42 3 8; Acquire I2cLock;
        EventWait 0 (exposure_wait (Fin 100));
        Release I2cLock;
        I2cWriteByteData 42 0 12; I2cWriteByteData 42 2 137;
        I2cWriteByteData 42 1 245; I2cWriteByteData 42 0 140;
        Acquire I2cLock]
  /\ match exposure_wait (Fin 100) with
     | Fin timeout => (timeout == 420)%Q
     | _ => False
     end
  /\ flt (Fin (4 * 11 * 1.05)) (exposure_wait (Fin 100)) = true.
Proof.
  cbv zeta. repeat split; vm_compute; reflexivity.
Qed.

(** ** Shutdown *)

(** [close] writes the pins of the right eye only: whatever the state
    and the registry, a pin of the left eye keeps its level, as long as
    the other threads leave it alone. *)
Lemma close_keeps_left_eye others st pin :
  (forall s, leds (others s) pin = leds s pin) ->
  In (Led pin) (Eye.values left_eye) ->
  leds (snd (close others st)) pin = leds st pin.
Proof.
  intros Ho Hin.
  apply (keeps_close others (fun s => leds s pin = leds st pin)).
  - split; intros; assumption.
  - intros s H. rewrite Ho. exact H.
  - intros [pin'] Hin' level s H. cbn. unfold set_pin.
    destruct (Nat.eqb_spec pin pin') as [->|]; [|exact H].
    cbn in Hin, Hin'.
    repeat destruct Hin as [Hin|Hin]; repeat destruct Hin' as [Hin'|Hin'];
      try contradiction; inversion Hin; inversion Hin'; subst; discriminate.
  - reflexivity.
Qed.

(** C1, at a processor with every lamp lit and an empty registry.
    [close] returns, the three lamps of the right eye are off and the
    three lamps of the left eye are still lit. *)
Theorem close_leaves_left_eye_lit :
  let st := with_leds (fun _ => true) CmdProcessor_init in
  let st' := snd (close quiet st) in
  fst (close quiet st) = Ret tt
  /\ map (leds st') [23; 25; 24]%nat = [false; false; false]
  /\ map (leds st') [17; 22; 27]%nat = [true; true; true]
  /\ filter (fun a => match a with LedWrite _ _ => true | _ => false end)
       (trace st')
     = [LedWrite 24 false; LedWrite 25 false; LedWrite 23 false;
        LedWrite 24 false; LedWrite 25 false; LedWrite 23 false].
Proof.
  cbv zeta. repeat split; vm_compute; reflexivity.
Qed.

(** ** Failure paths of the methods *)

Section Failures.
Variable py_float : string -> option pyfloat.
Variable py_int : string -> option Z.
Variable others : State -> State.

Lemma light_eye_unparsed cmd s resp s1 :
  match HwCtrlCmd.params cmd with
  | _ :: p1 :: p2 :: p3 :: _ =>
      is_some (py_int p1) && is_some (py_int p2) && is_some (py_int p3)
  | _ => false
  end = false ->
  light_eye py_int cmd s = (Ret resp, s1) -> resp = failure cmd.
Proof.
  unfold light_eye, try_except, bind, index, int, raise, ret.
  destruct (HwCtrlCmd.params cmd) as [|eye [|p1 [|p2 [|p3 ps]]]];
    cbn [nth_error]; intros H;
    repeat match goal with
           | |- context [match py_int ?p with _ => _ end] =>
               destruct (py_int p)
           end;
    cbn in H; try discriminate; intros E; inversion E; reflexivity.
Qed.

Lemma move_unparsed cmd s resp s1 :
  match HwCtrlCmd.params cmd with
  | p0 :: rest =>
      match RaspiCarMoveOp_of p0 with
      | Some STOP => true
      | Some _ =>
          match rest with
          | p1 :: p2 :: _ => is_some (py_float p1) && is_some (py_float p2)
          | _ => false
          end
      | None => false
      end
  | [] => false
  end = false ->
  move py_float others cmd s = (Ret resp, s1) -> resp = failure cmd.
Proof.
  unfold move, try_except, bind at 1.
  assert (Hf : forall x (s' : State),
             (Ret (HwCtrlResp.mk (HwCtrlCmd.cmd_no cmd)
                     (HwCtrlCmd.opcode cmd) false []), s') = (Ret resp, x) ->
             resp = failure cmd)
    by (intros x s' E; inversion E; reflexivity).
  unfold bind at 1, index, RaspiCarMoveOp_, raise, ret.
  destruct (HwCtrlCmd.params cmd) as [|p0 rest]; cbn [nth_error];
    [intros _; apply Hf|].
  destruct (RaspiCarMoveOp_of p0) as [op|]; [|intros _; apply Hf].
  unfold bind, index, float, raise, ret.
  destruct op; try discriminate;
    (destruct rest as [|p1 [|p2 ps]]; cbn [nth_error];
     [ intros _; apply Hf
     | destruct (py_float p1); intros _; apply Hf
     | destruct (py_float p1); [|intros _; apply Hf];
       destruct (py_float p2); [discriminate | intros _; apply Hf] ]).
Qed.

Lemma detect_color_unparsed cmd s resp s1 :
  match HwCtrlCmd.params cmd with
  | p0 :: _ => is_some (py_float p0)
  | [] => false
  end = false ->
  detect_color py_float others cmd s = (Ret resp, s1) -> resp = failure cmd.
Proof.
  unfold detect_color, try_finally, try_except, Lock_acquire.
  rewrite bind_modify; cbv beta.
  unfold bind at 1, index, float, raise, ret.
  destruct (HwCtrlCmd.params cmd) as [|p0 rest]; cbn [nth_error].
  - intros _. unfold Lock_release. cbn.
    intros E; inversion E; reflexivity.
  - unfold bind at 1. destruct (py_float p0); [discriminate|].
    intros _. unfold Lock_release. cbn.
    intros E; inversion E; reflexivity.
Qed.

Lemma measure_distance_bus cmd s resp s1 :
  acks 1 (i2c_in s) = false ->
  measure_distance others cmd s = (Ret resp, s1) -> resp = failure cmd.
Proof.
  intros Hin.
  unfold measure_distance, try_finally, try_except, bind, Lock_acquire,
    write_byte, i2c_transact, modify, bind, ret.
  cbn. destruct (i2c_in s) as [|[ack|] script]; cbn in Hin |- *;
    try discriminate; unfold Lock_release; cbn;
    intros E; inversion E; reflexivity.
Qed.

Lemma bind_raise {A B} (m : M A) (k : A -> M B) s e s' :
  m s = (Raise e, s') -> bind m k s = (Raise e, s').
Proof. intros H. unfold bind. rewrite H. reflexivity. Qed.

(** A register write succeeds and consumes one reply of the bus, or
    raises; it leaves the locks alone. *)
Lemma write_byte_data_cases a r v s :
  (exists s',
     write_byte_data a r v s = (Ret tt, s')
     /\ locks s' = locks s
     /\ forall n, acks (S n) (i2c_in s) = acks n (i2c_in s'))
  \/ (exists s',
        write_byte_data a r v s = (Raise OSError, s')
        /\ locks s' = locks s).
Proof.
  unfold write_byte_data, i2c_transact, bind, ret.
  destruct (i2c_in s) as [|[ack|] script] eqn:E.
  - right. eexists; split; reflexivity.
  - left. eexists; split; [reflexivity|]. split; reflexivity.
  - right. eexists; split; reflexivity.
Qed.

(** A set-up in which one of the four writes fails gives the empty
    list and releases the bus lock. *)
Lemma color_sensor_setup_fails iv ev s :
  acks 4 (i2c_in s) = false ->
  exists s',
    color_sensor_setup iv ev s = (Ret (Return []), s')
    /\ locks s' = set_held I2cLock false (locks s).
Proof.
  intros Hin.
  unfold color_sensor_setup, try_finally, try_except, Lock_acquire.
  rewrite bind_modify; cbv beta.
  match goal with |- context [bind _ _ ?x] => set (s0 := x) end.
  assert (L0 : locks s0 = set_held I2cLock true (locks s)) by reflexivity.
  change (acks 4 (i2c_in s0) = false) in Hin.
  assert (Hrel : forall s', locks s' = locks s0 ->
            exists s'',
              (let (o, s3) := Lock_release I2cLock s' in
               match o with
               | Ret _ => (Ret (@Return (list Z) unit []), s3)
               | Raise e => (Raise e, s3)
               end) = (Ret (Return []), s'')
              /\ locks s'' = set_held I2cLock false (locks s)).
  { intros s' Hl. unfold Lock_release. rewrite Hl, L0.
    rewrite held_set_same. eexists; split; [reflexivity|].
    cbn. rewrite Hl, L0. destruct (locks s); reflexivity. }
  clearbody s0.
  destruct (write_byte_data_cases COLOR_SENSOR_I2C_ADDR 0 0x8C s0)
    as [(s1 & E1 & L1 & A1) | (s1 & E1 & L1)];
    [|rewrite (bind_raise _ _ _ _ _ E1); apply Hrel; exact L1].
  rewrite (bind_ok _ _ _ _ _ E1); cbv beta.
  destruct (write_byte_data_cases COLOR_SENSOR_I2C_ADDR 1
              (Z.shiftr iv 8) s1)
    as [(s2 & E2 & L2 & A2) | (s2 & E2 & L2)];
    [|rewrite (bind_raise _ _ _ _ _ E2); apply Hrel; congruence].
  rewrite (bind_ok _ _ _ _ _ E2); cbv beta.
  destruct (write_byte_data_cases COLOR_SENSOR_I2C_ADDR 2
              (Z.land iv 0xFF) s2)
    as [(s3 & E3 & L3 & A3) | (s3 & E3 & L3)];
    [|rewrite (bind_raise _ _ _ _ _ E3); apply Hrel; congruence].
  rewrite (bind_ok _ _ _ _ _ E3); cbv beta.
  destruct (write_byte_data_cases COLOR_SENSOR_I2C_ADDR 0 0x0C s3)
    as [(s4 & E4 & L4 & A4) | (s4 & E4 & L4)];
    [|rewrite (bind_raise _ _ _ _ _ E4); apply Hrel; congruence].
  rewrite A1, A2, A3, A4 in Hin. discriminate.
Qed.

Lemma detect_color_bus cmd s resp s1 :
  acks 4 (i2c_in s) = false ->
  detect_color py_float others cmd s = (Ret resp, s1) -> resp = failure cmd.
Proof.
  intros Hin.
  unfold detect_color, try_finally, try_except, Lock_acquire.
  rewrite bind_modify; cbv beta.
  match goal with |- context [bind _ _ ?x] => set (s0 := x) end.
  assert (Hh : forall s', locks s' = set_held I2cLock false (locks s0) ->
                          held (locks s') ColorSensorLock = true)
    by (intros s' ->; reflexivity).
  assert (Hrel : forall (r : outcome HwCtrlResp.t) s',
             held (locks s') ColorSensorLock = true ->
             (r = Ret (failure cmd) \/ exists e, r = Raise e) ->
             (let (o, s'') := Lock_release ColorSensorLock s' in
              match o with
              | Ret _ => (r, s'')
              | Raise e => (Raise e, s'')
              end) = (Ret resp, s1) -> resp = failure cmd).
  { intros r s' Hl Hr. unfold Lock_release. rewrite Hl.
    destruct Hr as [-> | [e ->]]; intros E; inversion E; reflexivity. }
  unfold bind at 1, index, raise, ret.
  destruct (HwCtrlCmd.params cmd) as [|p0 rest]; cbn [nth_error];
    [apply Hrel; [reflexivity | left; reflexivity]|].
  unfold bind at 1, float, raise, ret.
  destruct (py_float p0) as [e|];
    [|apply Hrel; [reflexivity | left; reflexivity]].
  unfold get_color_sensor_val, color_sensor_expose.
  unfold bind at 1. unfold bind at 1. unfold bind at 1. unfold lift.
  destruct (integ_val_of e) as [iv|x];
    [|apply Hrel; [reflexivity | left; reflexivity]].
  unfold bind at 1. unfold Event_new.
  match goal with
  | |- context [bind (color_sensor_setup iv ?ev) ?k ?x] =>
      destruct (color_sensor_setup_fails iv ev x Hin) as (s' & E & Hl)
  end.
  rewrite (bind_ok _ _ _ _ _ E); cbv beta iota. unfold ret.
  apply Hrel; [|left; reflexivity].
  apply Hh. exact Hl.
Qed.

End Failures.

(** ** The contract of [process] *)

Lemma i2c_in_add cmd st : i2c_in (snd (activeCmds_add cmd st)) = i2c_in st.
Proof.
  unfold activeCmds_add, modify. cbn.
  destruct (mem cmd (activeCmds st)); reflexivity.
Qed.

Section Contract.
Variable py_float : string -> option pyfloat.
Variable py_int : string -> option Z.
Variable others : State -> State.
Variable cmd : HwCtrlCmd.t.

Hypothesis others_locks : forall l s, holds l s -> holds l (others s).
Hypothesis others_registry :
  forall s, registered cmd s -> registered cmd (others s).

Lemma process_try_unfold st :
  process_try (detect_color py_float others) (move py_float others)
    (measure_distance others) (light_eye py_int) cmd st
  = match method_of py_float py_int others (HwCtrlCmd.opcode cmd) with
    | Some h =>
        (resp <- h cmd;; ret (Return resp)) (snd (activeCmds_add cmd st))
    | None => (Ret (Next tt), snd (activeCmds_add cmd st))
    end.
Proof.
  unfold process_try, method_of, activeCmds_add.
  rewrite bind_modify; cbv beta.
  repeat match goal with
         | |- context [if String.eqb ?a ?b then _ else _] =>
             destruct (String.eqb a b)
         end; reflexivity.
Qed.

(** The response of [process] is the response of the method the opcode
    selects, run once the command is registered. *)
Lemma process_response st :
  exists resp st',
    process py_float py_int others cmd st = (Ret resp, st')
    /\ answers cmd resp
    /\ mem cmd (activeCmds st') = false
    /\ match method_of py_float py_int others (HwCtrlCmd.opcode cmd) with
       | Some h =>
           exists s1, h cmd (snd (activeCmds_add cmd st)) = (Ret resp, s1)
       | None => resp = failure cmd
       end.
Proof.
  destruct (process_returns py_float py_int others cmd
              others_locks others_registry st)
    as (resp & st' & E & Ha & _ & Hm).
  exists resp, st'. repeat split; auto.
  revert E. unfold process, process_with.
  unfold bind at 1. unfold try_finally. rewrite process_try_unfold.
  destruct (method_of py_float py_int others (HwCtrlCmd.opcode cmd))
    as [h|].
  - unfold bind at 1.
    destruct (h cmd (snd (activeCmds_add cmd st))) as [[r|e] s1].
    + unfold ret at 1.
      destruct (activeCmds_remove cmd s1) as [[[]|e'] s2];
        intros E; inversion E; subst. eauto.
    + destruct (activeCmds_remove cmd s1) as [[[]|e'] s2];
        intros E; inversion E.
  - destruct (activeCmds_remove cmd _) as [[[]|e'] s2];
      intros E; inversion E; reflexivity.
Qed.

(** C8. [process] gives one response to a command, and the response
    carries the command's [cmd_no] and [opcode] unchanged, on success
    and on failure, whatever the opcode; they are the first and third
    fields of the line the response prints as. *)
Theorem process_echoes_command st :
  exists resp st',
    process py_float py_int others cmd st = (Ret resp, st')
    /\ HwCtrlResp.cmd_no resp = HwCtrlCmd.cmd_no cmd
    /\ HwCtrlResp.opcode resp = HwCtrlCmd.opcode cmd
    /\ HwCtrlResp.str resp
       = fold_left (fun res val => (res ++ "," ++ val)%string)
           (HwCtrlResp.data resp)
           (HwCtrlCmd.cmd_no cmd ++ ","
            ++ HwCtrlResp.str_of_bool (HwCtrlResp.is_successful resp)
            ++ "," ++ HwCtrlCmd.opcode cmd)%string.
Proof.
  destruct (process_returns py_float py_int others cmd
              others_locks others_registry st)
    as (resp & st' & E & Ha & _).
  apply answers_echo in Ha as [H1 H2].
  exists resp, st'. repeat split; auto.
  unfold HwCtrlResp.str. rewrite H1, H2. reflexivity.
Qed.

End Contract.

Lemma process_echoes_command_witness :
  exists resp st',
    process dec_float dec_int quiet (HwCtrlCmd.of_ 9 "9,measure-distance")
      (with_i2c_in [Some []; Some [0; 1; 0]] CmdProcessor_init)
    = (Ret resp, st')
    /\ HwCtrlResp.cmd_no resp = "9"
    /\ HwCtrlResp.opcode resp = "measure-distance".
Proof.
  destruct (process_echoes_command dec_float dec_int quiet
              (HwCtrlCmd.of_ 9 "9,measure-distance")
              (fun l s H => H) (fun s H => H)
              (with_i2c_in [Some []; Some [0; 1; 0]] CmdProcessor_init))
    as (resp & st' & E & H1 & H2 & _).
  exists resp, st'. repeat split; assumption.
Defined.

(** * Further properties *)

(** ** The text of commands and responses *)

Lemma split_on_nonempty sep s : split_on sep s <> [].
Proof.
  destruct s as [|c r]; cbn; [discriminate|].
  destruct (Ascii.eqb c sep); [discriminate|].
  destruct (split_on sep r); discriminate.
Qed.

Lemma split_on_app_sep sep a b :
  split_on sep (a ++ String sep b)%string = split_on sep a ++ split_on sep b.
Proof.
  induction a as [|c a IH]; cbn.
  - rewrite Ascii.eqb_refl. reflexivity.
  - destruct (Ascii.eqb c sep); [rewrite IH; reflexivity|].
    rewrite IH. pose proof (split_on_nonempty sep a) as Hn.
    destruct (split_on sep a) as [|h t]; [contradiction|]. reflexivity.
Qed.

Lemma split_on_no_sep sep s : has_char sep s = false -> split_on sep s = [s].
Proof.
  induction s as [|c r IH]; cbn; [reflexivity|].
  intros H. apply orb_false_elim in H as [Hc Hr].
  rewrite Hc, (IH Hr). reflexivity.
Qed.

(** No field of a split contains the separator. *)
Lemma split_on_clean sep s :
  Forall (fun f => has_char sep f = false) (split_on sep s).
Proof.
  induction s as [|c r IH]; cbn [split_on].
  - constructor; [reflexivity | constructor].
  - destruct (Ascii.eqb c sep) eqn:E.
    + constructor; [reflexivity | exact IH].
    + destruct (split_on sep r) as [|h t].
      * constructor; [cbn; rewrite E; reflexivity | constructor].
      * inversion IH as [|? ? Hh Ht]; subst.
        constructor; [cbn; rewrite E; exact Hh | exact Ht].
Qed.

Lemma concat_split sep s :
  String.concat (String sep EmptyString) (split_on sep s) = s.
Proof.
  induction s as [|c r IH]; cbn; [reflexivity|].
  pose proof (split_on_nonempty sep r) as Hn.
  destruct (Ascii.eqb c sep) eqn:E.
  - apply Ascii.eqb_eq in E. subst c.
    destruct (split_on sep r) as [|h t]; [contradiction|].
    cbn in *. rewrite IH. reflexivity.
  - destruct (split_on sep r) as [|h t]; [contradiction|].
    cbn in *. destruct t; cbn in *; rewrite IH; reflexivity.
Qed.

Lemma split_concat sep l :
  l <> [] -> Forall (fun s => has_char sep s = false) l ->
  split_on sep (String.concat (String sep EmptyString) l) = l.
Proof.
  induction l as [|a l IH]; [contradiction|]. intros _ H.
  inversion H as [|? ? Ha Hl]; subst.
  destruct l as [|b l].
  - apply split_on_no_sep, Ha.
  - change (String.concat (String sep EmptyString) (a :: b :: l))
      with (a ++ String sep
                   (String.concat (String sep EmptyString) (b :: l)))%string.
    rewrite split_on_app_sep, (split_on_no_sep _ _ Ha), IH; auto.
    discriminate.
Qed.

Lemma has_char_split sep s :
  has_char sep s = true -> (2 <= List.length (split_on sep s))%nat.
Proof.
  induction s as [|c r IH]; cbn; [discriminate|].
  pose proof (split_on_nonempty sep r) as Hn.
  destruct (Ascii.eqb c sep) eqn:E; cbn.
  - intros _. destruct (split_on sep r); [contradiction | cbn; lia].
  - intros H. apply IH in H.
    destruct (split_on sep r) as [|h t]; cbn in *; lia.
Qed.

(** The fields of a parsed line, joined by commas, are the line. *)
Lemma of_join oid line :
  let c := HwCtrlCmd.of_ oid line in
  if has_char "," line
  then String.concat ","
         (HwCtrlCmd.cmd_no c :: HwCtrlCmd.opcode c :: HwCtrlCmd.params c)
       = line
  else c = HwCtrlCmd.mk oid line "" [].
Proof.
  cbv zeta. destruct (has_char "," line) eqn:E.
  - pose proof (has_char_split _ _ E) as Hl.
    pose proof (concat_split "," line) as Hc.
    unfold HwCtrlCmd.of_.
    destruct (split_on "," line) as [|a [|b ps]]; cbn in Hl; try lia.
    cbn [HwCtrlCmd.cmd_no HwCtrlCmd.opcode HwCtrlCmd.params List.length
         Nat.leb nth skipn].
    destruct ps; exact Hc.
  - unfold HwCtrlCmd.of_. rewrite (split_on_no_sep _ _ E). reflexivity.
Qed.

(** X1. [HwCtrlCmd.of] loses nothing of a line: no field of the command
    contains a comma, and when the line has a comma the command number,
    the opcode and the parameters joined by commas give the line back; a
    line without a comma is the command number of a command with the
    empty opcode and no parameter. *)
Theorem of_round_trip oid line :
  let c := HwCtrlCmd.of_ oid line in
  Forall (fun f => has_char "," f = false)
    (HwCtrlCmd.cmd_no c :: HwCtrlCmd.opcode c :: HwCtrlCmd.params c)
  /\ if has_char "," line
     then String.concat ","
            (HwCtrlCmd.cmd_no c :: HwCtrlCmd.opcode c :: HwCtrlCmd.params c)
          = line
     else c = HwCtrlCmd.mk oid line "" [].
Proof.
  cbv zeta. split; [|exact (of_join oid line)].
  unfold HwCtrlCmd.of_.
  pose proof (split_on_clean "," line) as Hc.
  pose proof (split_on_nonempty "," line) as Hn.
  destruct (split_on "," line) as [|a [|b ps]]; [contradiction| |].
  - inversion Hc; subst. repeat constructor; assumption.
  - cbn [HwCtrlCmd.cmd_no HwCtrlCmd.opcode HwCtrlCmd.params List.length
         Nat.leb nth skipn].
    destruct ps; exact Hc.
Qed.

(** X2. [HwCtrlCmd.of] is the inverse of joining: a line made of a
    command number, an opcode and parameters that contain no comma
    parses to exactly these fields. *)
Theorem of_of_fields oid cmd_no opcode params :
  Forall (fun s => has_char "," s = false) (cmd_no :: opcode :: params) ->
  HwCtrlCmd.of_ oid (String.concat "," (cmd_no :: opcode :: params))
  = HwCtrlCmd.mk oid cmd_no opcode params.
Proof.
  intros H. unfold HwCtrlCmd.of_.
  rewrite split_concat; [|discriminate|exact H].
  cbn [List.length Nat.leb nth skipn]. destruct params; reflexivity.
Qed.

Lemma of_of_fields_witness :
  HwCtrlCmd.of_ 4 "4,move,fwd,0.5,2"
  = HwCtrlCmd.mk 4 "4" "move" ["fwd"; "0.5"; "2"].
Proof.
  apply (of_of_fields 4 "4" "move" ["fwd"; "0.5"; "2"]).
  repeat (apply Forall_cons; [reflexivity|]). apply Forall_nil.
Defined.

Lemma fold_left_join l init :
  Forall (fun s => has_char "," s = false) l ->
  split_on "," (fold_left (fun res val => (res ++ "," ++ val)%string) l init)
  = split_on "," init ++ l.
Proof.
  revert init. induction l as [|v l IH]; intros init H; cbn [fold_left].
  - symmetry. apply app_nil_r.
  - inversion H as [|? ? Hv Hl]; subst. rewrite (IH _ Hl).
    cbn [append].
    rewrite split_on_app_sep, (split_on_no_sep _ _ Hv), <- app_assoc.
    reflexivity.
Qed.

(** X3. The text of a response splits back into its fields: when no
    field contains a comma, splitting [str(resp)] at the commas gives
    the command number, [True] or [False], the opcode and the data, in
    this order. *)
Theorem str_fields r :
  Forall (fun s => has_char "," s = false)
    (HwCtrlResp.cmd_no r :: HwCtrlResp.opcode r :: HwCtrlResp.data r) ->
  split_on "," (HwCtrlResp.str r)
  = HwCtrlResp.cmd_no r
    :: HwCtrlResp.str_of_bool (HwCtrlResp.is_successful r)
    :: HwCtrlResp.opcode r :: HwCtrlResp.data r.
Proof.
  intros H. inversion H as [|? ? Hc H']; subst.
  inversion H' as [|? ? Ho Hd]; subst.
  unfold HwCtrlResp.str. rewrite (fold_left_join _ _ Hd).
  cbn [append].
  rewrite !split_on_app_sep, (split_on_no_sep _ _ Hc),
    (split_on_no_sep _ _ Ho).
  rewrite split_on_no_sep; [reflexivity|].
  destruct (HwCtrlResp.is_successful r); reflexivity.
Qed.

Lemma str_fields_witness :
  split_on ","
    (HwCtrlResp.str
       (HwCtrlResp.mk "3" "detect-color" true ["258"; "772"; "1286"]))
  = ["3"; "True"; "detect-color"; "258"; "772"; "1286"].
Proof.
  apply (str_fields
           (HwCtrlResp.mk "3" "detect-color" true ["258"; "772"; "1286"])).
  repeat (apply Forall_cons; [reflexivity|]). apply Forall_nil.
Defined.

(** ** The reading loop and the output thread *)

Lemma rstrip_newlines k : rstrip_newline (newlines k) = "".
Proof.
  induction k as [|k IH]; [reflexivity|]. cbn [newlines rstrip_newline].
  rewrite IH, Ascii.eqb_refl. reflexivity.
Qed.

Lemma rstrip_app_newlines s k :
  rstrip_newline (s ++ newlines k)%string = rstrip_newline s.
Proof.
  induction s as [|c s IH]; [apply rstrip_newlines|].
  cbn [append rstrip_newline]. rewrite IH. reflexivity.
Qed.

Lemma read_commands_app oid pre rest fifo :
  Forall (fun l => rstrip_newline l <> "terminate") pre ->
  read_commands oid (pre ++ rest) fifo
  = read_commands (oid + List.length pre) rest
      (fifo ++ map (fun p => HwCtrlCmd.of_ (fst p) (rstrip_newline (snd p)))
                 (combine (seq oid (List.length pre)) pre)).
Proof.
  revert oid fifo. induction pre as [|l pre IH]; intros oid fifo H.
  - cbn. rewrite Nat.add_0_r, app_nil_r. reflexivity.
  - inversion H as [|? ? Hl Hpre]; subst.
    cbn [app read_commands]. cbv zeta.
    apply String.eqb_neq in Hl. rewrite Hl.
    rewrite (IH _ _ Hpre). cbn [List.length seq combine map fst snd].
    rewrite <- app_assoc. cbn [app].
    replace (S oid + List.length pre)%nat
      with (oid + S (List.length pre))%nat by lia.
    reflexivity.
Qed.

(** X4. The reading loop of [main] stops at the first line that is
    [terminate] once its trailing newlines are stripped: the lines after
    it are never parsed, and the queue holds what the lines before it
    give, one command per line, each a distinct object, in the order of
    the lines and with the text of its line (a line without a comma
    becomes a command number with the empty opcode). *)
Theorem read_commands_until_terminate oid pre k post :
  Forall (fun l => rstrip_newline l <> "terminate") pre ->
  let cmds :=
    read_commands oid
      (pre ++ ("terminate" ++ newlines k)%string :: post) [] in
  cmds = read_commands oid pre []
  /\ map HwCtrlCmd.oid cmds = seq oid (List.length pre)
  /\ map (fun c => String.concat ","
                     (HwCtrlCmd.cmd_no c :: HwCtrlCmd.opcode c
                      :: HwCtrlCmd.params c)) cmds
     = map (fun l => if has_char "," (rstrip_newline l)
                     then rstrip_newline l
                     else (rstrip_newline l ++ ",")%string) pre.
Proof.
  intros H cmds. subst cmds.
  rewrite (read_commands_app _ _ _ _ H).
  cbn [read_commands]. cbv zeta. rewrite rstrip_app_newlines.
  change (rstrip_newline "terminate") with "terminate".
  rewrite String.eqb_refl. cbn [app].
  split.
  { rewrite <- (app_nil_r pre) at 3. rewrite (read_commands_app _ _ _ _ H).
    reflexivity. }
  clear H. revert oid.
  induction pre as [|l pre IH]; intros oid; [split; reflexivity|].
  cbn [List.length seq combine map fst snd].
  destruct (IH (S oid)) as [IH1 IH2]. split.
  - f_equal. exact IH1.
  - f_equal; [|exact IH2].
    pose proof (of_join oid (rstrip_newline l)) as R. cbv zeta in R.
    destruct (has_char "," (rstrip_newline l)); [exact R|].
    rewrite R. reflexivity.
Qed.

Lemma read_commands_until_terminate_witness :
  map HwCtrlCmd.oid
    (read_commands 0
       [("1,move,fwd,1,2" ++ newlines 1)%string;
        ("2,measure-distance" ++ newlines 1)%string;
        ("terminate" ++ newlines 1)%string;
        ("3,light-eye,both,1,1,1" ++ newlines 1)%string] [])
  = [0; 1]%nat.
Proof.
  apply (read_commands_until_terminate 0
           [("1,move,fwd,1,2" ++ newlines 1)%string;
            ("2,measure-distance" ++ newlines 1)%string]
           1 [("3,light-eye,both,1,1,1" ++ newlines 1)%string]).
  repeat (apply Forall_cons; [vm_compute; discriminate|]). apply Forall_nil.
Defined.

Lemma append_assoc (a b c : string) : ((a ++ b) ++ c = a ++ (b ++ c))%string.
Proof.
  induction a as [|x a IH]; cbn; [reflexivity|]. rewrite IH. reflexivity.
Qed.

Lemma append_nil_r (a : string) : (a ++ "")%string = a.
Proof.
  induction a as [|x a IH]; cbn; [reflexivity|]. rewrite IH. reflexivity.
Qed.

Lemma output_fifo_elems_app polls stdout :
  output_fifo_elems polls stdout
  = (stdout ++ output_fifo_elems polls "")%string.
Proof.
  revert stdout. induction polls as [|[r|] polls IH]; intros out.
  - cbn. symmetry. apply append_nil_r.
  - cbn [output_fifo_elems]. rewrite IH. rewrite (IH ("" ++ _)%string).
    cbn [append]. rewrite !append_assoc. reflexivity.
  - cbn [output_fifo_elems]. apply IH.
Qed.

(** X5. The output thread writes one line per response, in the order of
    the queue, and nothing for a poll that times out: when no response
    text contains a newline, the standard output split at the newlines
    is the list of the response texts (the first one after what was
    already on the unfinished line), followed by the empty rest after
    the last newline. *)
Theorem output_fifo_elems_lines polls stdout :
  Forall (fun r => has_char newline (HwCtrlResp.str r) = false)
    (taken polls) ->
  has_char newline stdout = false ->
  split_on newline (output_fifo_elems polls stdout)
  = match map HwCtrlResp.str (taken polls) with
    | [] => [stdout]
    | first :: lines => (stdout ++ first)%string :: lines ++ [EmptyString]
    end.
Proof.
  revert stdout. induction polls as [|[r|] polls IH]; intros out H Hout.
  - cbn. apply split_on_no_sep, Hout.
  - change (taken (Some r :: polls)) with (r :: taken polls) in *.
    cbn [map]. inversion H as [|? ? Hr Hrest]; subst.
    cbn [output_fifo_elems]. rewrite output_fifo_elems_app.
    replace ((out ++ HwCtrlResp.str r ++ String newline "")
             ++ output_fifo_elems polls "")%string
      with ((out ++ HwCtrlResp.str r)
            ++ String newline (output_fifo_elems polls ""))%string
      by (rewrite !append_assoc; reflexivity).
    rewrite split_on_app_sep.
    assert (Hor : has_char newline (out ++ HwCtrlResp.str r) = false).
    { clear - Hout Hr. induction out as [|c out IHo]; cbn in *; [exact Hr|].
      apply orb_false_elim in Hout as [Hc Ho]. rewrite Hc. cbn. auto. }
    rewrite (split_on_no_sep _ _ Hor).
    rewrite (IH "" Hrest eq_refl). cbn [app].
    destruct (map HwCtrlResp.str (taken polls)); reflexivity.
  - cbn [output_fifo_elems]. apply IH; assumption.
Qed.

Lemma output_fifo_elems_lines_witness :
  split_on newline
    (output_fifo_elems
       [Some (HwCtrlResp.mk "1" "move" true []); None;
        Some (HwCtrlResp.mk "2" "measure-distance" true ["256"])] "")
  = ["1,True,move"; "2,True,measure-distance,256"; ""].
Proof.
  apply (output_fifo_elems_lines
           [Some (HwCtrlResp.mk "1" "move" true []); None;
            Some (HwCtrlResp.mk "2" "measure-distance" true ["256"])] "").
  - repeat (apply Forall_cons; [vm_compute; reflexivity|]). apply Forall_nil.
  - reflexivity.
Defined.

(** ** The worker loop and the registry *)

Lemma Stable_listed c b : Stable (listed c b).
Proof. split; intros; assumption. Qed.

Lemma Countable_listed c b : Countable (listed c b).
Proof. intros n s H; exact H. Qed.

Lemma Releasable_listed c b l : Releasable (listed c b) l.
Proof. intros s H; exact H. Qed.

Lemma Lightable_listed c b led : Lightable (listed c b) led.
Proof. intros level s H; exact H. Qed.

Lemma mem_discard_other c c' l :
  HwCtrlCmd.oid c' <> HwCtrlCmd.oid c -> mem c' (discard c l) = mem c' l.
Proof.
  intros Hne. unfold mem, discard.
  induction l as [|x l IH]; cbn; [reflexivity|].
  destruct (HwCtrlCmd.eqb c x) eqn:E; cbn; rewrite IH; [|reflexivity].
  unfold HwCtrlCmd.eqb in *. apply Nat.eqb_eq in E.
  destruct (Nat.eqb_spec (HwCtrlCmd.oid c') (HwCtrlCmd.oid x));
    [congruence | reflexivity].
Qed.

Lemma keeps_listed_add c c' b :
  HwCtrlCmd.oid c' <> HwCtrlCmd.oid c -> keeps (listed c' b) (activeCmds_add c).
Proof.
  intros Hne s H. unfold activeCmds_add, modify, listed in *. cbn.
  destruct (mem c (activeCmds s)); [exact H|]. cbn.
  unfold HwCtrlCmd.eqb at 1.
  destruct (Nat.eqb_spec (HwCtrlCmd.oid c') (HwCtrlCmd.oid c));
    [contradiction | exact H].
Qed.

Lemma keeps_listed_remove c c' b :
  HwCtrlCmd.oid c' <> HwCtrlCmd.oid c ->
  keeps (listed c' b) (activeCmds_remove c).
Proof.
  intros Hne s H. unfold activeCmds_remove, listed in *.
  destruct (mem c (activeCmds s)); [|exact H].
  change (mem c' (discard c (activeCmds s)) = b).
  rewrite mem_discard_other; assumption.
Qed.

(** X6. [process] changes the registry for its own command only: any
    other command object is in the registry after [process] exactly when
    it was before, whatever the opcode and the outcome, provided the
    other threads leave that object where it is meanwhile. *)
Theorem process_leaves_other_commands
  (py_float : string -> option pyfloat) (py_int : string -> option Z)
  (others : State -> State) cmd c' st :
  HwCtrlCmd.oid c' <> HwCtrlCmd.oid cmd ->
  (forall s, mem c' (activeCmds (others s)) = mem c' (activeCmds s)) ->
  mem c' (activeCmds (snd (process py_float py_int others cmd st)))
  = mem c' (activeCmds st).
Proof.
  intros Hne Ho.
  pose proof (Stable_listed c' (mem c' (activeCmds st))) as HS.
  pose proof (Countable_listed c' (mem c' (activeCmds st))) as HC.
  pose proof (Releasable_listed c' (mem c' (activeCmds st))) as HR.
  pose proof (Lightable_listed c' (mem c' (activeCmds st))) as HL.
  assert (HI : Interruptible others (listed c' (mem c' (activeCmds st))))
    by (intros s H; unfold listed in *; rewrite Ho; exact H).
  pose proof (keeps_listed_add cmd c' (mem c' (activeCmds st)) Hne) as Ka.
  pose proof (keeps_listed_remove cmd c' (mem c' (activeCmds st)) Hne) as Kr.
  assert (K : keeps (listed c' (mem c' (activeCmds st)))
                (process py_float py_int others cmd)).
  { unfold process, process_with, process_try. keeps_auto. }
  apply K. reflexivity.
Qed.

Lemma process_leaves_other_commands_witness :
  mem (HwCtrlCmd.of_ 1 "1,move,fwd,1,5")
    (activeCmds
       (snd (process dec_float dec_int quiet
               (HwCtrlCmd.of_ 2 "2,measure-distance")
               (with_activeCmds [HwCtrlCmd.of_ 1 "1,move,fwd,1,5"]
                  CmdProcessor_init))))
  = true.
Proof.
  apply (process_leaves_other_commands dec_float dec_int quiet
           (HwCtrlCmd.of_ 2 "2,measure-distance")
           (HwCtrlCmd.of_ 1 "1,move,fwd,1,5")
           (with_activeCmds [HwCtrlCmd.of_ 1 "1,move,fwd,1,5"]
              CmdProcessor_init)).
  - cbn. discriminate.
  - intros s. reflexivity.
Defined.

Lemma locked_releases {A} l (rest : M A) (x : A) s :
  keeps (holds l) rest ->
  held (locks (snd (try_finally
           (try_except (Lock_acquire l;; rest) (fun _ => ret x))
           (Lock_release l) s))) l = false.
Proof.
  intros Hk. unfold try_finally, try_except, bind, Lock_acquire, modify.
  assert (H1 : holds l (log (Acquire l) (with_locks (set_held l true) s)))
    by apply held_set_same.
  specialize (Hk _ H1). unfold holds in Hk.
  destruct (rest _) as [[a|e] s2]; cbn in *;
    unfold Lock_release; rewrite Hk; cbn; apply held_set_same.
Qed.

Section Worker.

Variable py_float : string -> option pyfloat.
Variable py_int : string -> option Z.
Variable others : State -> State.
Hypothesis others_locks : forall l s, holds l s -> holds l (others s).

(** X7. The worker loop never dies of a command: whatever the commands
    it takes from the queue, [process_cmds] raises nothing and puts
    exactly one response per command on the response queue, after the
    responses already there and in the order the commands were taken,
    each one the failure response or a successful echo of its command;
    a poll that times out puts nothing.  The other threads are assumed
    to respect the locks and the registry entries of this thread. *)
Theorem process_cmds_answers_each polls resp_fifo st :
  (forall cmd, In (Some cmd) polls ->
     forall s, registered cmd s -> registered cmd (others s)) ->
  exists resps st',
    process_cmds py_float py_int others polls resp_fifo st
    = (Ret (resp_fifo ++ resps), st')
    /\ Forall2 answers (taken polls) resps.
Proof.
  revert resp_fifo st.
  induction polls as [|p polls IH]; intros fifo st Hreg.
  - exists [], st. split; [cbn; rewrite app_nil_r; reflexivity | constructor].
  - cbn [process_cmds]. rewrite bind_modify; cbv beta.
    assert (Hreg' : forall cmd, In (Some cmd) polls ->
              forall s, registered cmd s -> registered cmd (others s))
      by (intros c Hc; apply Hreg; right; exact Hc).
    destruct p as [cmd|].
    + destruct (process_returns py_float py_int others cmd others_locks
                  (Hreg cmd (or_introl eq_refl)) (others st))
        as (resp & s1 & E & Ha & _).
      rewrite (bind_ok _ _ _ _ _ E); cbv beta.
      destruct (IH (fifo ++ [resp]) s1 Hreg') as (resps & st' & E' & Hall).
      exists (resp :: resps), st'. split.
      * rewrite E', <- app_assoc. reflexivity.
      * cbn. constructor; assumption.
    + destruct (IH fifo (others st) Hreg') as (resps & st' & E' & Hall).
      exists resps, st'. split; assumption.
Qed.

(** X8. A sensor command never leaves its lock held: after
    [__measure_distance] the bus lock is free and after
    [__detect_color] the colour-sensor lock is free, on every path,
    whatever the bus answers and whatever the parameters, as long as
    the other threads do not release a lock they do not hold. *)
Theorem sensor_locks_released cmd st :
  held (locks (snd (measure_distance others cmd st))) I2cLock = false
  /\ held (locks (snd (detect_color py_float others cmd st))) ColorSensorLock
     = false.
Proof.
  split.
  - apply locked_releases. pose proof (Stable_holds I2cLock).
    pose proof (Countable_holds I2cLock).
    pose proof (Interruptible_holds others others_locks I2cLock).
    keeps_auto.
  - apply locked_releases. pose proof (Stable_holds ColorSensorLock).
    pose proof (Countable_holds ColorSensorLock).
    pose proof (Interruptible_holds others others_locks ColorSensorLock).
    assert (Releasable (holds ColorSensorLock) I2cLock)
      by (apply Releasable_holds; discriminate).
    keeps_auto.
Qed.

End Worker.

Lemma process_cmds_answers_each_witness :
  exists resps st',
    process_cmds dec_float dec_int quiet
      [Some (HwCtrlCmd.of_ 1 "1,light-eye,left,1,0,1"); None;
       Some (HwCtrlCmd.of_ 2 "2,jump")] [] CmdProcessor_init
    = (Ret resps, st')
    /\ List.length resps = 2%nat.
Proof.
  destruct (process_cmds_answers_each dec_float dec_int quiet
              (fun l s H => H)
              [Some (HwCtrlCmd.of_ 1 "1,light-eye,left,1,0,1"); None;
               Some (HwCtrlCmd.of_ 2 "2,jump")] [] CmdProcessor_init
              (fun cmd _ s H => H))
    as (resps & st' & E & F).
  exists resps, st'. split; [exact E|].
  apply Forall2_length in F. symmetry. exact F.
Defined.

Lemma sensor_locks_released_witness :
  held (locks (snd (measure_distance quiet
                      (HwCtrlCmd.of_ 9 "9,measure-distance")
                      (with_i2c_in [Some []; None] CmdProcessor_init))))
    I2cLock = false.
Proof.
  exact (proj1 (sensor_locks_released dec_float quiet (fun l s H => H)
                  (HwCtrlCmd.of_ 9 "9,measure-distance")
                  (with_i2c_in [Some []; None] CmdProcessor_init))).
Defined.

(** ** The motor driver *)

Lemma Qltb_false a b : Qltb a b = false <-> (b <= a)%Q.
Proof. unfold Qltb. rewrite negb_false_iff. apply Qle_bool_iff. Qed.

(** X9. The speed that [MoveCtrl] hands to the PWM output is always a
    finite number of the interval from 0 to 1: a finite speed below 0
    gives 0, one within the interval is kept, one above 1 gives 1;
    minus infinity gives 0; plus infinity gives 1, and so does a speed
    that is not a number, which [max] lets through and [min] replaces
    by its first argument. *)
Theorem clamp_unit_interval sp :
  exists q,
    MoveCtrlM.clamp sp = Fin q /\ (0 <= q <= 1)%Q
    /\ match sp with
       | Fin q0 =>
           ((q0 < 0 -> q == 0) /\ (0 <= q0 <= 1 -> q == q0)
            /\ (1 < q0 -> q == 1))%Q
       | NegInf => (q == 0)%Q
       | PosInf => (q == 1)%Q
       | NaN => (q == 1)%Q
       end.
Proof.
  unfold MoveCtrlM.clamp, py_min, py_max.
  destruct sp as [q0| | |]; cbn [flt].
  - destruct (Qltb q0 0) eqn:E0; cbn [flt].
    + apply Qltb_lt in E0.
      assert (E1 : Qltb 0 1 = true) by reflexivity. rewrite E1.
      exists 0%Q. repeat split; try lra; intros; lra.
    + apply Qltb_false in E0. destruct (Qltb q0 1) eqn:E1.
      * apply Qltb_lt in E1. exists q0. repeat split; try lra; intros; lra.
      * apply Qltb_false in E1. exists 1%Q.
        repeat split; try lra; intros; lra.
  - exists 1%Q. repeat split; lra.
  - cbn. exists 0%Q. repeat split; lra.
  - exists 1%Q. repeat split; lra.
Qed.

Lemma clamp_unit_interval_witness :
  exists q, MoveCtrlM.clamp (Fin 2.5) = Fin q /\ (q == 1)%Q.
Proof.
  destruct (clamp_unit_interval (Fin 2.5)) as (q & E & _ & _ & _ & H).
  exists q. split; [exact E|]. apply H. reflexivity.
Defined.

Lemma drive_eq l r v s :
  gpio_faults s = [] ->
  (lhs_phase_set l;; rhs_phase_set r;; pwm_set v) s
  = (Ret tt,
     with_move_ctrl (mkMoveCtrl v l r)
       (log (PwmWrite v) (log (PhaseWrite 26 r) (log (PhaseWrite 16 l) s)))).
Proof. intros H. destruct s. cbn in H. subst. reflexivity. Qed.

Lemma stop_eq s :
  gpio_faults s = [] ->
  MoveCtrlM.stop s
  = (Ret tt,
     with_move_ctrl
       (mkMoveCtrl (Fin 0) (lhs_phase (move_ctrl s)) (rhs_phase (move_ctrl s)))
       (log (PwmWrite (Fin 0)) s)).
Proof. intros H. destruct s. cbn in H. subst. reflexivity. Qed.

(** X10. The direction table of [MoveCtrl.move], with pins that do not
    fail: forward puts both phase outputs low, backward both high,
    clockwise the left low and the right high, counter-clockwise the
    left high and the right low, each with the clamped speed on the
    PWM output; stop puts 0 on the PWM output and leaves the phase
    outputs as they are.  A direction is written before the speed:
    left phase, right phase, then PWM. *)
Theorem MoveCtrl_direction_table sp s :
  gpio_faults s = [] ->
  let after op := move_ctrl (snd (MoveCtrlM.move op sp s)) in
  after FORWARD = mkMoveCtrl (MoveCtrlM.clamp sp) false false
  /\ after BACKWARD = mkMoveCtrl (MoveCtrlM.clamp sp) true true
  /\ after CLOCKWISE = mkMoveCtrl (MoveCtrlM.clamp sp) false true
  /\ after COUNTERCLOCKWISE = mkMoveCtrl (MoveCtrlM.clamp sp) true false
  /\ after STOP
     = mkMoveCtrl (Fin 0) (lhs_phase (move_ctrl s)) (rhs_phase (move_ctrl s))
  /\ forall op,
       fst (MoveCtrlM.move op sp s) = Ret tt
       /\ issued (MoveCtrlM.move op sp) s
          = match op with
            | STOP => [PwmWrite (Fin 0)]
            | _ => [PwmWrite (pwm (after op));
                    PhaseWrite 26 (rhs_phase (after op));
                    PhaseWrite 16 (lhs_phase (after op))]
            end.
Proof.
  intros H after. subst after. cbv beta.
  cbn [MoveCtrlM.move].
  unfold MoveCtrlM.forward, MoveCtrlM.backward, MoveCtrlM.clockwise,
    MoveCtrlM.counter_clockwise. cbv zeta.
  rewrite !drive_eq, stop_eq by exact H.
  repeat (split; [reflexivity|]).
  intros op.
  destruct op; cbn [MoveCtrlM.move];
    unfold MoveCtrlM.forward, MoveCtrlM.backward, MoveCtrlM.clockwise,
      MoveCtrlM.counter_clockwise; cbv zeta;
    (split; [rewrite ?drive_eq, ?stop_eq by exact H; reflexivity|]);
    apply issued_prefix; rewrite ?drive_eq, ?stop_eq by exact H;
    reflexivity.
Qed.

Lemma MoveCtrl_direction_table_witness :
  move_ctrl (snd (MoveCtrlM.move CLOCKWISE (Fin 2) CmdProcessor_init))
  = mkMoveCtrl (Fin 1) false true.
Proof.
  destruct (MoveCtrl_direction_table (Fin 2) CmdProcessor_init eq_refl)
    as (_ & _ & H & _).
  exact H.
Defined.

(** ** Moves that fail *)

(** A timeout above 9223372037 seconds, or infinite, is beyond
    [TIMEOUT_MAX] by more than any rounding of the conversion. *)
Lemma beyond_timeout_max t :
  flt (Fin 9223372037) t = true -> too_large t = true.
Proof.
  destruct t as [q| | |]; cbn; try discriminate; [|reflexivity].
  intros H. apply Qltb_lt in H. apply Qltb_lt. unfold TIMEOUT_MAX. lra.
Qed.

Lemma too_large_positive t : too_large t = true -> flt (Fin 0) t = true.
Proof.
  destruct t as [q| | |]; cbn; try discriminate; [|reflexivity].
  unfold Qltb. intros H. apply negb_true_iff in H. apply negb_true_iff.
  destruct (Qle_bool q 0) eqn:E; [|reflexivity].
  apply Qle_bool_iff in E.
  destruct (Qle_bool q TIMEOUT_MAX) eqn:E2; [discriminate|].
  assert (Hq : (q <= TIMEOUT_MAX)%Q) by (unfold TIMEOUT_MAX; lra).
  apply Qle_bool_iff in Hq. congruence.
Qed.

Lemma nth_set_flag_other ev n l :
  ev <> n -> nth n (set_flag ev l) false = nth n l false.
Proof.
  revert ev n. induction l as [|b l IH]; intros [|ev] [|n] H; cbn;
    try reflexivity; try congruence.
  apply IH. congruence.
Qed.

Lemma nth_fresh (l : list bool) :
  nth (List.length l) (l ++ [false]) false = false.
Proof. rewrite app_nth2, Nat.sub_diag by lia. reflexivity. Qed.

(** The first block of a move with pins that do not fail. *)
Lemma begin_state op sp ev s :
  gpio_faults s = [] -> op <> STOP ->
  exists s1,
    move_raspicar_begin op sp ev s = (Ret (Next (num_times_moved s + 1)), s1)
    /\ gpio_faults s1 = []
    /\ num_times_moved s1 = num_times_moved s + 1
    /\ pwm (move_ctrl s1) = MoveCtrlM.clamp sp
    /\ events s1 = match move_event s with
                   | Some e => set_flag e (events s)
                   | None => events s
                   end
    /\ move_event s1 = Some ev
    /\ held (locks s1) MoveLock = false.
Proof.
  intros H Hop. destruct s as [lk n me ge ac mc ld evs io gf tr].
  cbn in H. subst gf.
  exists (mkState (set_held MoveLock false (set_held MoveLock true lk))
            (n + 1) (Some ev) ge ac
            (mkMoveCtrl (MoveCtrlM.clamp sp)
               match op with
               | BACKWARD | COUNTERCLOCKWISE => true
               | _ => false
               end
               match op with
               | BACKWARD | CLOCKWISE => true
               | _ => false
               end)
            ld
            match me with
            | Some e => set_flag e evs
            | None => evs
            end
            io []
            (Release MoveLock
             :: match me with
                | Some e => [EventSet e]
                | None => []
                end
             ++ PwmWrite (MoveCtrlM.clamp sp)
             :: PhaseWrite 26 match op with
                              | BACKWARD | CLOCKWISE => true
                              | _ => false
                              end
             :: PhaseWrite 16 match op with
                              | BACKWARD | COUNTERCLOCKWISE => true
                              | _ => false
                              end
             :: Acquire MoveLock :: tr)).
  split; [|repeat split; reflexivity].
  destruct op; try contradiction; destruct me; vm_compute; reflexivity.
Qed.

(** The second block of a move whose captured value is stale. *)
Lemma end_stale_state n s :
  n <> num_times_moved s ->
  move_raspicar_end n s
  = (Ret (Return true),
     log (Release MoveLock) (with_locks (set_held MoveLock false)
       (log (Acquire MoveLock) (with_locks (set_held MoveLock true) s)))).
Proof.
  intros H. apply Z.eqb_neq in H.
  unfold move_raspicar_end, try_finally, try_except, Lock_acquire.
  rewrite bind_modify, bind_gets. cbn [num_times_moved log with_locks].
  rewrite H. cbn. reflexivity.
Qed.

Lemma begin_releases op sp ev s :
  held (locks (snd (move_raspicar_begin op sp ev s))) MoveLock = false.
Proof.
  apply locked_releases. pose proof (Stable_holds MoveLock).
  pose proof (Countable_holds MoveLock). keeps_auto.
Qed.

Lemma end_releases n s :
  held (locks (snd (move_raspicar_end n s))) MoveLock = false.
Proof.
  apply locked_releases. pose proof (Stable_holds MoveLock).
  pose proof (Countable_holds MoveLock).
  apply keeps_bind; [keeps_auto | intro a].
  destruct (negb _); keeps_auto.
Qed.

Section Motor.

Variable py_float : string -> option pyfloat.
Variable others : State -> State.

(** X11. A move whose duration is beyond what a wait accepts (more than
    9223372037 seconds, which is above [threading.TIMEOUT_MAX], or
    infinite) starts the motor and never stops it: the first block
    runs, the wait, called on the new handle that nobody has set yet,
    raises OverflowError, and [__move] answers with the failure
    response while the PWM output keeps the clamped speed, the counter
    is incremented, the new wait handle is the active one and is not
    set, and the move lock is free.  The wait is the last call issued:
    no stop follows. *)
Theorem overlong_move_keeps_running
  cmd st sop sspeed stime rest op speed time :
  HwCtrlCmd.params cmd = sop :: sspeed :: stime :: rest ->
  RaspiCarMoveOp_of sop = Some op -> op <> STOP ->
  py_float sspeed = Some speed -> py_float stime = Some time ->
  flt (Fin 9223372037) time = true ->
  gpio_faults st = [] ->
  (forall ev, move_event st = Some ev -> (ev < List.length (events st))%nat) ->
  exists st',
    move py_float others cmd st = (Ret (failure cmd), st')
    /\ pwm (move_ctrl st') = MoveCtrlM.clamp speed
    /\ num_times_moved st' = num_times_moved st + 1
    /\ move_event st' = Some (List.length (events st))
    /\ is_set st' (List.length (events st)) = false
    /\ held (locks st') MoveLock = false
    /\ hd I2cClose (trace st')
       = EventWait (List.length (events st)) time.
Proof.
  intros Hp Hop Hns Hs Ht Hbeyond Hg Hev.
  pose proof (beyond_timeout_max _ Hbeyond) as Hl.
  unfold move, try_except, bind at 1.
  rewrite Hp. cbn [index nth_error].
  rewrite bind_ret. unfold RaspiCarMoveOp_. rewrite Hop. rewrite bind_ret.
  assert (E : forall s,
          (p1 <- ret sspeed;;
           speed0 <- float py_float p1;;
           p2 <- ret stime;;
           time0 <- float py_float p2;;
           move_raspicar others op speed0 time0) s
          = move_raspicar others op speed time s).
  { intros s. rewrite bind_ret. unfold float.
    rewrite Hs, bind_ret, bind_ret, Ht, bind_ret. reflexivity. }
  assert (E' : match op with
     | STOP => stop_raspicar
     | _ => p1 <- ret sspeed;;
          speed0 <- float py_float p1;;
          p2 <- ret stime;;
          time0 <- float py_float p2;; move_raspicar others op speed0 time0
     end st = move_raspicar others op speed time st).
  { destruct op; try contradiction; apply E. }
  rewrite E'. clear E E'.
  unfold move_raspicar, bind at 1. unfold Event_new at 1.
  set (s0 := with_events (events st ++ [false]) st).
  destruct (begin_state op speed (List.length (events st)) s0 Hg Hns)
    as (s1 & E1 & G1 & N1 & P1 & V1 & M1 & L1).
  rewrite (bind_ok _ _ _ _ _ E1); cbv beta iota.
  assert (Hunset : is_set (log (EventWait (List.length (events st)) time) s1)
                     (List.length (events st)) = false).
  { unfold is_set.
    change (nth (List.length (events st)) (events s1) false = false).
    rewrite V1. change (move_event s0) with (move_event st).
    change (events s0) with (events st ++ [false]).
    destruct (move_event st) as [e|] eqn:Em; [|apply nth_fresh].
    rewrite nth_set_flag_other; [apply nth_fresh|].
    specialize (Hev e eq_refl). lia. }
  assert (Ew : Event_wait others (List.length (events st)) time s1
               = (Raise OverflowError,
                  log (EventWait (List.length (events st)) time) s1)).
  { unfold Event_wait. cbv zeta.
    rewrite Hunset, (too_large_positive _ Hl), Hl. reflexivity. }
  rewrite (bind_raise _ _ _ _ _ Ew).
  eexists. split; [reflexivity|].
  repeat split; try assumption.
Qed.

(** X12. A move whose first pin access fails makes the running move
    stale without waking it: [__move_raspicar] returns False with the
    counter incremented, the motor outputs, the active wait handle and
    every flag unchanged (the new handle is never installed) and the
    move lock free; the second block of a move that captured the old
    counter value then returns True through the early return and
    leaves the motor outputs as they are. *)
Theorem failed_move_orphans_running_move op sp t st :
  hd false (gpio_faults st) = true ->
  exists st',
    move_raspicar others op sp t st = (Ret false, st')
    /\ num_times_moved st' = num_times_moved st + 1
    /\ move_ctrl st' = move_ctrl st
    /\ move_event st' = move_event st
    /\ events st' = events st ++ [false]
    /\ held (locks st') MoveLock = false
    /\ fst (move_raspicar_end (num_times_moved st) st') = Ret (Return true)
    /\ move_ctrl (snd (move_raspicar_end (num_times_moved st) st'))
       = move_ctrl st.
Proof.
  intros H. destruct st as [lk n me ge ac mc ld ev io gf tr]. cbn in H.
  destruct gf as [|[] gf]; try discriminate.
  exists (mkState (set_held MoveLock false (set_held MoveLock true lk))
            (n + 1) me ge ac mc ld (ev ++ [false]) io gf
            (Release MoveLock
             :: match op with
                | FORWARD | CLOCKWISE => PhaseWrite 16 false
                | BACKWARD | COUNTERCLOCKWISE => PhaseWrite 16 true
                | STOP => PwmWrite (Fin 0)
                end
             :: Acquire MoveLock :: tr)).
  split; [destruct op; vm_compute; reflexivity|].
  do 5 (split; [reflexivity|]).
  rewrite end_stale_state by (cbn -[Z.add]; lia). split; reflexivity.
Qed.

(** X13. The move lock is never left held: after [__stop_raspicar] and
    after [__move_raspicar] the lock is free, whether the pins fail,
    the wait raises or the move is preempted, and whatever the other
    threads did during the wait. *)
Theorem move_lock_released op sp t st :
  held (locks (snd (stop_raspicar st))) MoveLock = false
  /\ held (locks (snd (move_raspicar others op sp t st))) MoveLock = false.
Proof.
  split.
  - unfold stop_raspicar, bind at 1.
    pose proof (locked_releases MoveLock
        (incr_num_times_moved;; MoveCtrlM.stop;; cancel_move;;
         ret (@Next bool unit tt))
        (Return false) st) as Hr.
    assert (K : keeps (holds MoveLock)
      (incr_num_times_moved;; MoveCtrlM.stop;; cancel_move;;
       ret (@Next bool unit tt))).
    { pose proof (Stable_holds MoveLock).
      pose proof (Countable_holds MoveLock). keeps_auto. }
    specialize (Hr K).
    destruct (try_finally _ _ st) as [[[b|[]]|e] s1]; exact Hr.
  - unfold move_raspicar, bind at 1, Event_new at 1.
    pose proof (begin_releases op sp (List.length (events st))
                  (with_events (events st ++ [false]) st)) as Hb.
    unfold bind at 1.
    destruct (move_raspicar_begin _ _ _ _) as [[[b|n]|e] s1]; cbn [snd] in *;
      try exact Hb.
    unfold bind at 1.
    destruct (Event_wait others (List.length (events st)) t s1)
      as [[[]|e] s2] eqn:Ew.
    + pose proof (end_releases n s2) as He. unfold bind.
      destruct (move_raspicar_end n s2) as [[[b|[]]|e] s3]; exact He.
    + unfold Event_wait in Ew. cbv zeta in Ew.
      destruct (is_set _ _); [discriminate|].
      destruct (flt _ _); [|discriminate].
      destruct (too_large t); [|discriminate].
      inversion Ew; subst. exact Hb.
Qed.

End Motor.

Lemma overlong_move_keeps_running_witness :
  exists st',
    move dec_float quiet (HwCtrlCmd.of_ 6 "6,move,fwd,1,10000000000")
      CmdProcessor_init
    = (Ret (HwCtrlResp.mk "6" "move" false []), st')
    /\ pwm (move_ctrl st') = Fin 1
    /\ num_times_moved st' = 1.
Proof.
  destruct (overlong_move_keeps_running dec_float quiet
              (HwCtrlCmd.of_ 6 "6,move,fwd,1,10000000000") CmdProcessor_init
              "fwd" "1" "10000000000" [] FORWARD (Fin 1) (Fin 10000000000)
              ltac:(vm_compute; reflexivity) ltac:(reflexivity)
              ltac:(discriminate) ltac:(vm_compute; reflexivity)
              ltac:(vm_compute; reflexivity) ltac:(vm_compute; reflexivity)
              ltac:(reflexivity) ltac:(intros ev H; discriminate H))
    as (st' & E & P & N & _).
  exists st'. split; [exact E|]. split; [exact P | exact N].
Defined.

Lemma failed_move_orphans_running_move_witness :
  exists st',
    move_raspicar quiet FORWARD (Fin 1) (Fin 3)
      (with_gpio_faults [true] CmdProcessor_init)
    = (Ret false, st')
    /\ num_times_moved st' = 1
    /\ pwm (move_ctrl st') = Fin 0.
Proof.
  destruct (failed_move_orphans_running_move quiet FORWARD (Fin 1) (Fin 3)
              (with_gpio_faults [true] CmdProcessor_init) eq_refl)
    as (st' & E & N & C & _).
  exists st'. split; [exact E|]. split; [exact N|]. rewrite C. reflexivity.
Defined.

(** X14. A stop whose PWM write fails wakes nobody: [__stop_raspicar]
    returns False with the counter incremented, the motor outputs and
    every flag unchanged, no [set()] issued and the move lock free; a
    running move that captured the old counter value will then return
    True without stopping the motor. *)
Theorem failed_stop_wakes_nobody st :
  hd false (gpio_faults st) = true ->
  exists st',
    stop_raspicar st = (Ret false, st')
    /\ num_times_moved st' = num_times_moved st + 1
    /\ move_ctrl st' = move_ctrl st
    /\ events st' = events st
    /\ filter (fun a => match a with EventSet _ => true | _ => false end)
         (issued stop_raspicar st) = []
    /\ held (locks st') MoveLock = false
    /\ fst (move_raspicar_end (num_times_moved st) st') = Ret (Return true)
    /\ move_ctrl (snd (move_raspicar_end (num_times_moved st) st'))
       = move_ctrl st.
Proof.
  intros H. destruct st as [lk n me ge ac mc ld ev io gf tr]. cbn in H.
  destruct gf as [|[] gf]; try discriminate.
  exists (mkState (set_held MoveLock false (set_held MoveLock true lk))
            (n + 1) me ge ac mc ld ev io gf
            (Release MoveLock :: PwmWrite (Fin 0) :: Acquire MoveLock :: tr)).
  assert (E : stop_raspicar
                (mkState lk n me ge ac mc ld ev io (true :: gf) tr)
              = (Ret false,
                 mkState (set_held MoveLock false (set_held MoveLock true lk))
                   (n + 1) me ge ac mc ld ev io gf
                   (Release MoveLock :: PwmWrite (Fin 0)
                    :: Acquire MoveLock :: tr)))
    by (vm_compute; reflexivity).
  split; [exact E|].
  do 3 (split; [reflexivity|]).
  split.
  { rewrite (issued_prefix _ _
               [Release MoveLock; PwmWrite (Fin 0); Acquire MoveLock]);
      [reflexivity | rewrite E; reflexivity]. }
  split; [reflexivity|].
  rewrite end_stale_state by (cbn -[Z.add]; lia). split; reflexivity.
Qed.

Lemma failed_stop_wakes_nobody_witness :
  exists st',
    stop_raspicar
      (with_gpio_faults [true]
         (with_move_event (Some 0%nat) (with_events [false] CmdProcessor_init)))
    = (Ret false, st')
    /\ is_set st' 0 = false.
Proof.
  destruct (failed_stop_wakes_nobody
              (with_gpio_faults [true]
                 (with_move_event (Some 0%nat)
                    (with_events [false] CmdProcessor_init))) eq_refl)
    as (st' & E & _ & _ & V & _).
  exists st'. split; [exact E|]. unfold is_set. rewrite V. reflexivity.
Defined.

(** ** The exposure register *)

Lemma exposure_clamped e :
  exists q, py_max (Fin 0) (py_min e (Fin 11)) = Fin q /\ (0 <= q <= 11)%Q.
Proof.
  unfold py_min, py_max. destruct e as [q0| | |]; cbn [flt].
  - destruct (Qltb 11 q0) eqn:E1; cbn [flt].
    + exists 11%Q. split; [reflexivity | lra].
    + apply Qltb_false in E1. destruct (Qltb 0 q0) eqn:E0.
      * apply Qltb_lt in E0. exists q0. split; [reflexivity | lra].
      * exists 0%Q. split; [reflexivity | lra].
  - exists 11%Q. split; [reflexivity | lra].
  - exists 0%Q. split; [reflexivity | lra].
  - exists 0%Q. split; [reflexivity | lra].
Qed.

(** Truncation of a rational between 0 and 62857.5. *)
Lemma trunc_bound x :
  (0 <= x <= 62857.5)%Q -> 0 <= Z.quot (Qnum x) (Zpos (Qden x)) <= 62857.
Proof.
  destruct x as [n d]. unfold Qle. cbn [Qnum Qden]. intros [H0 H1]. split.
  - apply Z.quot_pos; lia.
  - apply Z.lt_succ_r. apply Z.quot_lt_upper_bound; lia.
Qed.

(** X15. The integration-time value of [__get_color_sensor_val] is
    defined for every exposure, finite, infinite or not a number, and
    whatever the rounding of the float product and quotient: for every
    rounding that is monotone and leaves the floats 0, 11000000 and
    62857.5 as they are (as rounding to the nearest binary64 does), the
    conversion to int never raises, the value lies between 0 and 62857,
    and the two register bytes written to the sensor fit in a byte, the
    upper one at most 245.  Without rounding the value is the one of the
    exact computation. *)
Theorem integ_val_bytes (rnd : Q -> Q) e :
  (forall x y, (x <= y)%Q -> (rnd x <= rnd y)%Q) ->
  (rnd 0 == 0)%Q -> (rnd 11000000 == 11000000)%Q ->
  (rnd 62857.5 == 62857.5)%Q ->
  (exists iv,
     integ_val_rounded rnd e = Ret iv
     /\ 0 <= iv <= 62857
     /\ 0 <= Z.shiftr iv 8 <= 245
     /\ 0 <= Z.land iv 0xFF <= 255)
  /\ integ_val_rounded (fun q => q) e = integ_val_of e.
Proof.
  intros Hmono H0 Hmax Hhalf.
  destruct (exposure_clamped e) as (q & Eq & Hq0 & Hq11).
  split; [|unfold integ_val_rounded, integ_val_of; cbv zeta;
           rewrite Eq; reflexivity].
  unfold integ_val_rounded. cbv zeta. rewrite Eq.
  unfold fdiv. cbn [fmul fround int_of_float].
  eexists; split; [reflexivity|].
  set (us := rnd (q * 1000000)%Q).
  assert (Hus : (0 <= us <= 11000000)%Q).
  { unfold us. split.
    - rewrite <- H0. apply Hmono. nra.
    - rewrite <- Hmax. apply Hmono. nra. }
  set (v := rnd (us * / 175)%Q).
  assert (Hv : (0 <= v <= 62857.5)%Q).
  { unfold v. split.
    - rewrite <- H0. apply Hmono.
      apply Qmult_le_0_compat; [lra | discriminate].
    - rewrite <- Hhalf. apply Hmono.
      apply Qle_shift_div_r; [reflexivity | lra]. }
  pose proof (trunc_bound v Hv) as Hiv.
  set (iv := Z.quot _ _) in *.
  split; [exact Hiv|]. split.
  - rewrite Z.shiftr_div_pow2 by lia. change (2 ^ 8) with 256.
    split; [apply Z.div_pos; lia|].
    apply Z.lt_succ_r. apply Z.div_lt_upper_bound; lia.
  - change (Z.land iv 0xFF) with (Z.land iv (Z.ones 8)).
    rewrite Z.land_ones by lia. change (2 ^ 8) with 256.
    pose proof (Z.mod_pos_bound iv 256). lia.
Qed.

(** An exposure of 0.06405 s without rounding: the quotient is 366; a
    rounding downwards gives 365, within the same bounds. *)
Lemma integ_val_bytes_witness :
  exists iv,
    integ_val_rounded (fun q => q) (Fin 0.06405) = Ret iv
    /\ 0 <= iv <= 62857.
Proof.
  destruct (proj1 (integ_val_bytes (fun q => q) (Fin 0.06405)
                     (fun x y H => H) ltac:(reflexivity) ltac:(reflexivity)
                     ltac:(reflexivity)))
    as (iv & E & H & _).
  exists iv. split; [exact E | exact H].
Defined.

(** ** The lamps *)

Lemma light_leds3_eq a b c fa fb fc s :
  gpio_faults s = [] ->
  light_leds [(Led a, fa); (Led b, fb); (Led c, fc)] s
  = (Ret tt,
     mkState (locks s) (num_times_moved s) (move_event s) (get_color_event s)
       (activeCmds s) (move_ctrl s)
       (set_pin c fc (set_pin b fb (set_pin a fa (leds s))))
       (events s) (i2c_in s) []
       (LedWrite c fc :: LedWrite b fb :: LedWrite a fa :: trace s)).
Proof.
  intros H. destruct s. cbn in H. subst.
  destruct fa, fb, fc; reflexivity.
Qed.

(** X16. A light-eye command with integer flags and pins that do not
    fail reports success and sets the lamps of the selected eye, red,
    green, blue in this order, each one on exactly when its flag is not
    0: [left] writes pins 17, 22, 27, [right] writes pins 23, 25, 24,
    [both] writes the left eye and then the right one; the lamps of an
    eye that is not selected and every other pin keep their level. *)
Theorem light_eye_sets_lamps
  (py_int : string -> option Z) cmd st eye p1 p2 p3 rest n1 n2 n3 :
  HwCtrlCmd.params cmd = eye :: p1 :: p2 :: p3 :: rest ->
  py_int p1 = Some n1 -> py_int p2 = Some n2 -> py_int p3 = Some n3 ->
  gpio_faults st = [] ->
  let left := String.eqb eye "left" || String.eqb eye "both" in
  let right := String.eqb eye "right" || String.eqb eye "both" in
  let flags := [negb (n1 =? 0); negb (n2 =? 0); negb (n3 =? 0)] in
  exists st',
    light_eye py_int cmd st
    = (Ret (HwCtrlResp.mk (HwCtrlCmd.cmd_no cmd) (HwCtrlCmd.opcode cmd)
              true []), st')
    /\ map (leds st') [17; 22; 27]%nat
       = (if left then flags else map (leds st) [17; 22; 27]%nat)
    /\ map (leds st') [23; 25; 24]%nat
       = (if right then flags else map (leds st) [23; 25; 24]%nat)
    /\ (forall pin, ~ In pin [17; 22; 27; 23; 25; 24]%nat ->
                    leds st' pin = leds st pin)
    /\ trace st'
       = (if right
          then map (fun x => LedWrite (fst x) (snd x))
                 (rev (combine [23; 25; 24]%nat flags))
          else [])
         ++ (if left
             then map (fun x => LedWrite (fst x) (snd x))
                    (rev (combine [17; 22; 27]%nat flags))
             else [])
         ++ trace st.
Proof.
  intros Hp H1 H2 H3 Hg left right flags.
  unfold light_eye, try_except.
  rewrite Hp. cbn [index nth_error]. rewrite !bind_ret.
  unfold int.
  rewrite H1, bind_ret, bind_ret, H2, bind_ret, bind_ret, H3, bind_ret.
  cbv zeta. unfold bool_of_int.
  change (String.eqb eye RaspiCarEye.LEFT || String.eqb eye RaspiCarEye.BOTH)
    with left.
  change (String.eqb eye RaspiCarEye.RIGHT || String.eqb eye RaspiCarEye.BOTH)
    with right.
  change (Eye.red left_eye) with (Led 17).
  change (Eye.green left_eye) with (Led 22).
  change (Eye.blue left_eye) with (Led 27).
  change (Eye.red right_eye) with (Led 23).
  change (Eye.green right_eye) with (Led 25).
  change (Eye.blue right_eye) with (Led 24).
  assert (Hout : forall (f : nat -> bool) pin a b c x y z,
            ~ In pin [a; b; c]%nat ->
            set_pin c z (set_pin b y (set_pin a x f)) pin = f pin).
  { intros f pin a b c x y z Hn. unfold set_pin.
    destruct (Nat.eqb_spec pin c); [subst; exfalso; apply Hn; cbn; auto|].
    destruct (Nat.eqb_spec pin b); [subst; exfalso; apply Hn; cbn; auto|].
    destruct (Nat.eqb_spec pin a); [subst; exfalso; apply Hn; cbn; auto|].
    reflexivity. }
  destruct left, right.
  - erewrite bind_ok by (apply light_leds3_eq; exact Hg). cbv beta.
    erewrite bind_ok by (apply light_leds3_eq; reflexivity). cbv beta.
    eexists. split; [reflexivity|]. cbn [leds trace map].
    repeat split; try reflexivity.
    intros pin Hn. rewrite !Hout; [reflexivity| |];
      intro Hin; apply Hn; cbn in *; tauto.
  - erewrite bind_ok by (apply light_leds3_eq; exact Hg). cbv beta.
    rewrite bind_ret. eexists. split; [reflexivity|]. cbn [leds trace map].
    repeat split; try reflexivity.
    intros pin Hn. rewrite !Hout; [reflexivity|];
      intro Hin; apply Hn; cbn in *; tauto.
  - rewrite bind_ret.
    erewrite bind_ok by (apply light_leds3_eq; exact Hg). cbv beta.
    eexists. split; [reflexivity|]. cbn [leds trace map].
    repeat split; try reflexivity.
    intros pin Hn. rewrite !Hout; [reflexivity|];
      intro Hin; apply Hn; cbn in *; tauto.
  - rewrite !bind_ret. eexists. split; [reflexivity|].
    repeat split; reflexivity.
Qed.

Lemma light_eye_sets_lamps_witness :
  exists st',
    light_eye dec_int (HwCtrlCmd.of_ 7 "7,light-eye,left,1,0,5")
      CmdProcessor_init
    = (Ret (HwCtrlResp.mk "7" "light-eye" true []), st')
    /\ map (leds st') [17; 22; 27]%nat = [true; false; true]
    /\ map (leds st') [23; 25; 24]%nat = [false; false; false].
Proof.
  destruct (light_eye_sets_lamps dec_int
              (HwCtrlCmd.of_ 7 "7,light-eye,left,1,0,5") CmdProcessor_init
              "left" "1" "0" "5" [] 1 0 5
              ltac:(vm_compute; reflexivity) ltac:(vm_compute; reflexivity)
              ltac:(vm_compute; reflexivity) ltac:(vm_compute; reflexivity)
              ltac:(reflexivity))
    as (st' & E & L & R & _).
  exists st'. split; [exact E|]. split; [exact L | exact R].
Defined.

(** ** Shutdown, continued *)








Section Shutdown.

Variable others : State -> State.

Section Polling.

(** The trace is the calls of this thread: the others leave it alone. *)
Hypothesis others_trace : forall s, trace (others s) = trace s.



End Polling.


End Shutdown.



(** ** The second block of a move, within [__move_raspicar] *)

(** The second block of a move whose captured value is current, when the
    pin does not fail. *)
Lemma end_current_state s :
  hd false (gpio_faults s) = false ->
  exists s',
    move_raspicar_end (num_times_moved s) s = (Ret (Next tt), s')
    /\ pwm (move_ctrl s') = Fin 0
    /\ num_times_moved s' = num_times_moved s
    /\ held (locks s') MoveLock = false
    /\ trace s'
       = Release MoveLock :: PwmWrite (Fin 0) :: Acquire MoveLock :: trace s.
Proof.
  intros Hg.
  unfold move_raspicar_end, try_finally, try_except, Lock_acquire.
  rewrite bind_modify, bind_gets. cbn [num_times_moved log with_locks].
  rewrite Z.eqb_refl. cbn [negb].
  destruct s as [lk n me ge ac mc ld evs io gf tr]. cbn in Hg.
  destruct lk as [l1 l2 l3].
  destruct gf as [|[] gf]; try discriminate;
    (eexists; split; [vm_compute; reflexivity|]; repeat split).
Qed.

(** A wait that returns has let the other threads run. *)
Lemma wait_state others ev t s s2 :
  Event_wait others ev t s = (Ret tt, s2) ->
  s2 = others (log (EventWait ev t) s).
Proof.
  unfold Event_wait. cbv zeta.
  destruct (is_set _ ev); [intros E; inversion E; reflexivity|].
  destruct (flt (Fin 0) t); [destruct (too_large t)|];
    intros E; inversion E; reflexivity.
Qed.

(** After a first block that succeeded and a wait that returned,
    [__move_raspicar] is its second block. *)
Lemma move_raspicar_second others op sp t st n s1 s2 :
  move_raspicar_begin op sp (List.length (events st))
    (with_events (events st ++ [false]) st) = (Ret (Next n), s1) ->
  Event_wait others (List.length (events st)) t s1 = (Ret tt, s2) ->
  move_raspicar others op sp t st
  = (r' <- move_raspicar_end n;;
     match r' with
     | Return b => ret b
     | Next _ => ret true
     end) s2.
Proof.
  intros E1 E2. unfold move_raspicar.
  assert (En : Event_new st
               = (Ret (List.length (events st)),
                  with_events (events st ++ [false]) st)) by reflexivity.
  rewrite (bind_ok _ _ _ _ _ En); cbv beta.
  rewrite (bind_ok _ _ _ _ _ E1); cbv beta iota.
  rewrite (bind_ok _ _ _ _ _ E2); cbv beta. reflexivity.
Qed.

(** C3. After its wait, a move command stops the motor exactly when the
    counter still has the value the command captured after its own
    increment.  Take a [__move_raspicar] whose first block succeeded
    and captured [n], and whose wait returned in the state [s2].  The
    method then returns, [n] is the counter of the start plus one, and
    the calls it issues after the wait contain the one call that stops
    the motor when [n] is the counter in [s2], and no call to the motor
    at all when it is not: in that case it returns True and leaves the
    motor outputs as they are.  When [n] is still the counter and the
    pin does not fail, it returns True with 0 on the PWM output.  If
    what the other threads ran during the wait is a sequence of blocks
    under the move lock, [n] is still the counter exactly when none of
    them belongs to a newer move or stop command. *)
Theorem stale_wait_leaves_motor
  (others : State -> State) op sp t st n s1 s2 :
  move_raspicar_begin op sp (List.length (events st))
    (with_events (events st ++ [false]) st) = (Ret (Next n), s1) ->
  Event_wait others (List.length (events st)) t s1 = (Ret tt, s2) ->
  exists b s3 l,
    move_raspicar others op sp t st = (Ret b, s3)
    /\ n = num_times_moved st + 1
    /\ trace s3 = l ++ trace s2
    /\ filter motor_action l
       = (if n =? num_times_moved s2 then [PwmWrite (Fin 0)] else [])
    /\ (n <> num_times_moved s2 -> b = true /\ move_ctrl s3 = move_ctrl s2)
    /\ (n = num_times_moved s2 -> hd false (gpio_faults s2) = false ->
        b = true /\ pwm (move_ctrl s3) = Fin 0)
    /\ (forall bs,
          s2 = run_blocks bs (log (EventWait (List.length (events st)) t) s1) ->
          (n =? num_times_moved s2) = negb (existsb newer bs)).
Proof.
  intros E1 E2.
  rewrite (move_raspicar_second others op sp t st n s1 s2 E1 E2).
  destruct (begin_captures _ _ _ _ _ _ E1) as [Hn H1].
  change (num_times_moved (with_events (events st ++ [false]) st))
    with (num_times_moved st) in Hn.
  pose proof (end_trace n s2) as Ht.
  destruct (Z.eqb_spec n (num_times_moved s2)) as [Heq|Hne].
  - assert (Hret : exists b s3,
              (r' <- move_raspicar_end n;;
               match r' with
               | Return b => ret b
               | Next _ => ret true
               end) s2 = (Ret b, s3)
              /\ trace s3 = trace (snd (move_raspicar_end n s2))
              /\ (hd false (gpio_faults s2) = false ->
                  b = true /\ pwm (move_ctrl s3) = Fin 0)).
    { unfold bind.
      destruct (hd false (gpio_faults s2)) eqn:Hg.
      - assert (K : keeps (holds MoveLock)
                      (current <- gets num_times_moved;;
                       if negb (n =? current) then ret (Return true)
                       else (MoveCtrlM.stop;; ret (@Next bool unit tt)))).
        { pose proof (Stable_holds MoveLock).
          apply keeps_bind; [keeps_auto | intro a].
          destruct (negb _); keeps_auto. }
        destruct (total_locked MoveLock _ (Return false) K s2)
          as (r & s3 & E3).
        change (move_raspicar_end n s2 = (Ret r, s3)) in E3.
        rewrite E3. cbn [snd].
        destruct r as [b|[]]; do 2 eexists;
          (split; [reflexivity|]); (split; [reflexivity|]); discriminate.
      - destruct (end_current_state s2 Hg) as (s3 & E3 & P3 & _).
        rewrite Heq, E3. cbn [snd]. do 2 eexists.
        split; [reflexivity|]. split; [reflexivity|]. intros _.
        split; [reflexivity | exact P3]. }
    destruct Hret as (b & s3 & E & T & Hok).
    exists b, s3, [Release MoveLock; PwmWrite (Fin 0); Acquire MoveLock].
    split; [exact E|]. split; [exact Hn|]. split; [rewrite T, Ht; reflexivity|].
    split; [reflexivity|]. split; [intros C; contradiction|].
    split; [intros _; exact Hok|].
    intros bs Hbs. rewrite Hbs in Heq. rewrite num_run_blocks in Heq.
    change (num_times_moved (log _ s1)) with (num_times_moved s1) in Heq.
    rewrite existsb_filter.
    destruct (filter newer bs) as [|x xs]; [reflexivity|].
    cbn [List.length] in Heq. lia.
  - rewrite (bind_ok _ _ _ _ _ (end_stale_state n s2 Hne)); cbv beta iota.
    do 2 eexists. exists [Release MoveLock; Acquire MoveLock].
    split; [reflexivity|]. split; [exact Hn|]. split; [reflexivity|].
    split; [reflexivity|]. split; [intros _; split; reflexivity|].
    split; [intros C; contradiction|].
    intros bs Hbs. rewrite Hbs in Hne. rewrite num_run_blocks in Hne.
    change (num_times_moved (log _ s1)) with (num_times_moved s1) in Hne.
    rewrite existsb_filter.
    destruct (filter newer bs) as [|x xs]; [|reflexivity].
    cbn [List.length] in Hne. lia.
Qed.

(** A forward move of three seconds is overtaken during its wait by a
    stop command: it returns True and issues no motor call after the
    wait. *)
Lemma stale_wait_leaves_motor_witness :
  exists s3 l,
    move_raspicar (fun s => snd (stop_raspicar s)) FORWARD (Fin 1) (Fin 3)
      CmdProcessor_init = (Ret true, s3)
    /\ filter motor_action l = []
    /\ trace s3
       = l ++ trace (snd (Event_wait (fun s => snd (stop_raspicar s)) 0
                            (Fin 3)
                            (snd (move_raspicar_begin FORWARD (Fin 1) 0
                                    (with_events [false] CmdProcessor_init)))))
    /\ pwm (move_ctrl s3) = Fin 0.
Proof.
  destruct (stale_wait_leaves_motor (fun s => snd (stop_raspicar s))
              FORWARD (Fin 1) (Fin 3) CmdProcessor_init 1
              (snd (move_raspicar_begin FORWARD (Fin 1) 0
                      (with_events [false] CmdProcessor_init)))
              (snd (Event_wait (fun s => snd (stop_raspicar s)) 0 (Fin 3)
                      (snd (move_raspicar_begin FORWARD (Fin 1) 0
                              (with_events [false] CmdProcessor_init)))))
              ltac:(vm_compute; reflexivity) ltac:(vm_compute; reflexivity))
    as (b & s3 & l & E & _ & T & F & Hstale & _).
  assert (Hnum : num_times_moved
                   (snd (Event_wait (fun s => snd (stop_raspicar s)) 0 (Fin 3)
                           (snd (move_raspicar_begin FORWARD (Fin 1) 0
                                   (with_events [false] CmdProcessor_init)))))
                 = 2) by (vm_compute; reflexivity).
  rewrite Hnum in F, Hstale.
  destruct (Hstale ltac:(lia)) as [-> Hm].
  exists s3, l. split; [exact E|]. split; [exact F|]. split; [exact T|].
  rewrite Hm. vm_compute. reflexivity.
Defined.

Section Unpreempted.

Variable others : State -> State.

(** X19. A move that no other thread overtakes stops the motor: when
    the pins do not fail, the wait accepts the duration (any duration
    up to [threading.TIMEOUT_MAX], also zero, negative or not a number,
    for which the wait does not block) and the other threads leave the
    counter and the pins alone while they run, [__move_raspicar]
    returns True with 0 on the PWM output, the counter incremented
    once and the move lock free, and its last calls are the stop
    between the acquisition and the release of the lock. *)
Theorem unpreempted_move_stops_motor op sp time st :
  too_large time = false ->
  gpio_faults st = [] -> op <> STOP ->
  (forall s, num_times_moved (others s) = num_times_moved s) ->
  (forall s, gpio_faults (others s) = gpio_faults s) ->
  exists st',
    move_raspicar others op sp time st = (Ret true, st')
    /\ pwm (move_ctrl st') = Fin 0
    /\ num_times_moved st' = num_times_moved st + 1
    /\ held (locks st') MoveLock = false
    /\ firstn 3 (trace st')
       = [Release MoveLock; PwmWrite (Fin 0); Acquire MoveLock].
Proof.
  intros Ht Hg Hop Hnum Hpins.
  set (ev := List.length (events st)).
  destruct (begin_state op sp ev (with_events (events st ++ [false]) st)
              Hg Hop) as (s1 & E1 & G1 & N1 & _).
  pose proof (wait_returns others ev time s1 Ht) as E2.
  rewrite (move_raspicar_second others op sp time st _ _ _ E1 E2).
  set (s2 := others (log (EventWait ev time) s1)) in *.
  assert (G2 : hd false (gpio_faults s2) = false).
  { unfold s2. rewrite Hpins. cbn [gpio_faults log].
    change (hd false (gpio_faults s1) = false). rewrite G1. reflexivity. }
  assert (N2 : num_times_moved s2 = num_times_moved st + 1).
  { unfold s2. rewrite Hnum. exact N1. }
  destruct (end_current_state s2 G2) as (s3 & E3 & P3 & N3 & L3 & T3).
  rewrite N2 in E3.
  change (num_times_moved (with_events (events st ++ [false]) st))
    with (num_times_moved st).
  rewrite (bind_ok _ _ _ _ _ E3); cbv beta iota.
  exists s3. split; [reflexivity|]. split; [exact P3|].
  split; [rewrite N3; exact N2|]. split; [exact L3|].
  rewrite T3. reflexivity.
Qed.

End Unpreempted.

(** A forward move of zero seconds with no other thread. *)
Lemma unpreempted_move_stops_motor_witness :
  exists st',
    move_raspicar quiet FORWARD (Fin 1) (Fin 0) CmdProcessor_init
    = (Ret true, st')
    /\ pwm (move_ctrl st') = Fin 0
    /\ num_times_moved st' = 1.
Proof.
  destruct (unpreempted_move_stops_motor quiet FORWARD (Fin 1) (Fin 0)
              CmdProcessor_init eq_refl eq_refl ltac:(discriminate)
              (fun s => eq_refl) (fun s => eq_refl))
    as (st' & E & P & N & _).
  exists st'. split; [exact E|]. split; [exact P | exact N].
Defined.

(** ** Failure paths: the bus and the pins *)

Section Failing.

Variable py_float : string -> option pyfloat.
Variable py_int : string -> option Z.
Variable others : State -> State.

(** What [finally: lock.release()] leaves of a block that gave the
    failure response or raised. *)
Lemma released_failure (l : Lock) cmd (r : outcome HwCtrlResp.t) s' resp s1 :
  (r = Ret (failure cmd) \/ exists e, r = Raise e) ->
  (let (o, s'') := Lock_release l s' in
   match o with
   | Ret _ => (r, s'')
   | Raise e => (Raise e, s'')
   end) = (Ret resp, s1) ->
  resp = failure cmd.
Proof.
  intros Hr. destruct (Lock_release l s') as [[[]|e'] s''];
    destruct Hr as [-> | [e ->]]; intros E; inversion E; reflexivity.
Qed.

Section Bus.

Hypothesis others_bus : forall s, i2c_in (others s) = i2c_in s.

Lemma measure_distance_transport cmd s resp s1 :
  negb (acks 1 (i2c_in s)) || reads_short 3 (skipn 1 (i2c_in s)) = true ->
  measure_distance others cmd s = (Ret resp, s1) -> resp = failure cmd.
Proof.
  intros Hin.
  unfold measure_distance, try_finally, try_except.
  unfold Lock_acquire. rewrite bind_modify; cbv beta.
  unfold write_byte, sleep, read_i2c_block_data.
  match goal with |- context [bind _ _ ?x] => set (s0 := x) end.
  assert (H0 : i2c_in s0 = i2c_in s) by reflexivity.
  clearbody s0. rewrite <- H0 in Hin. clear H0.
  destruct (i2c_in s0) as [|[ack|] script] eqn:E0.
  - unfold bind at 1. unfold bind at 1. unfold i2c_transact at 1.
    rewrite E0. apply released_failure. left; reflexivity.
  - unfold bind at 1. unfold bind at 1. unfold i2c_transact at 1.
    rewrite E0. unfold ret at 1. rewrite bind_modify; cbv beta.
    match goal with |- context [others ?x] => set (s2 := others x) end.
    assert (H2 : i2c_in s2 = script) by (unfold s2; rewrite others_bus; reflexivity).
    clearbody s2. cbn [acks negb orb skipn reads_short] in Hin.
    unfold bind at 1. unfold i2c_transact at 1. rewrite H2.
    destruct script as [|[d|] script'].
    + apply released_failure. left; reflexivity.
    + cbn [reads_short] in Hin.
      destruct d as [|d0 [|d1 [|d2 d]]]; try discriminate Hin;
        cbn [index nth_error]; unfold bind, raise, ret;
        apply released_failure; left; reflexivity.
    + apply released_failure. left; reflexivity.
  - unfold bind at 1. unfold bind at 1. unfold i2c_transact at 1.
    rewrite E0. apply released_failure. left; reflexivity.
Qed.


(** The set-up on a bus that acknowledges the four writes. *)
Lemma color_sensor_setup_script iv ev s a b c d rest :
  i2c_in s = Some a :: Some b :: Some c :: Some d :: rest ->
  color_sensor_setup iv ev s
  = (Ret (Next tt), snd (color_sensor_setup iv ev s))
  /\ i2c_in (snd (color_sensor_setup iv ev s)) = rest.
Proof.
  intros H. destruct s as [lk n me ge ac mc ld evs io gf tr].
  cbn in H. subst io. destruct lk as [l1 l2 l3].
  split; vm_compute; reflexivity.
Qed.

(** A read-out that fails or yields fewer than six bytes gives no
    colour. *)
Lemma color_sensor_collect_short s v s' :
  reads_short 6 (i2c_in s) = true ->
  color_sensor_collect s = (Ret v, s') -> v = [].
Proof.
  intros H. destruct s as [lk n me ge ac mc ld evs io gf tr].
  cbn [i2c_in] in H. destruct lk as [l1 l2 l3].
  destruct io as [|[d|] io]; cbn [reads_short] in H.
  - intros E. vm_compute in E. inversion E. reflexivity.
  - destruct d as [|d0 [|d1 [|d2 [|d3 [|d4 [|d5 d]]]]]];
      try discriminate H;
      intros E; vm_compute in E; inversion E.
  - intros E. vm_compute in E. inversion E. reflexivity.
Qed.

Lemma detect_color_transport cmd s resp s1 :
  negb (acks 4 (i2c_in s)) || reads_short 6 (skipn 4 (i2c_in s)) = true ->
  detect_color py_float others cmd s = (Ret resp, s1) -> resp = failure cmd.
Proof.
  intros Hin.
  destruct (acks 4 (i2c_in s)) eqn:Ha;
    [|apply (detect_color_bus py_float others cmd s resp s1 Ha)].
  cbn [negb orb] in Hin.
  destruct (i2c_in s) as [|[a|] [|[b|] [|[c|] [|[d|] rest]]]] eqn:Es;
    try discriminate Ha.
  cbn [skipn] in Hin.
  unfold detect_color, try_finally, try_except, Lock_acquire.
  rewrite bind_modify; cbv beta.
  match goal with |- context [bind _ _ ?x] => set (s0 := x) end.
  assert (H0 : i2c_in s0 = Some a :: Some b :: Some c :: Some d :: rest)
    by exact Es.
  clearbody s0.
  unfold bind at 1, index, raise, ret.
  destruct (HwCtrlCmd.params cmd) as [|p0 ps]; cbn [nth_error];
    [apply released_failure; left; reflexivity|].
  unfold bind at 1, float, raise, ret.
  destruct (py_float p0) as [e|];
    [|apply released_failure; left; reflexivity].
  assert (Hcol : forall colors s',
            get_color_sensor_val others e s0 = (Ret colors, s') ->
            colors = []).
  { intros colors s'. unfold get_color_sensor_val, color_sensor_expose.
    unfold bind at 1. unfold bind at 1. unfold lift.
    destruct (integ_val_of e) as [iv|x]; [|discriminate].
    unfold bind at 1. unfold Event_new.
    match goal with
    | |- context [bind (color_sensor_setup iv ?ev) ?k ?x] =>
        destruct (color_sensor_setup_script iv ev x a b c d rest H0)
          as [E1 I1];
        set (s1' := snd (color_sensor_setup iv ev x)) in *
    end.
    rewrite (bind_ok _ _ _ _ _ E1); cbv beta iota.
    unfold bind at 1.
    destruct (Event_wait others _ _ s1') as [[[]|x] s2] eqn:Ew;
      [|discriminate].
    apply wait_state in Ew.
    assert (I2 : i2c_in s2 = rest).
    { rewrite Ew, others_bus. exact I1. }
    unfold ret at 1. intros Ec.
    apply (color_sensor_collect_short s2 colors s'); [|exact Ec].
    rewrite I2. exact Hin. }
  unfold bind at 1.
  destruct (get_color_sensor_val others e s0) as [[colors|x] s'] eqn:Eg.
  - rewrite (Hcol colors s' eq_refl). unfold ret.
    apply released_failure. left; reflexivity.
  - apply released_failure. left; reflexivity.
Qed.

End Bus.

(** One lamp write consumes one entry of the fault script. *)
Lemma LED_write_step led level s :
  exists s',
    LED_write led level s
    = (if hd false (gpio_faults s) then Raise GPIOZeroError else Ret tt, s')
    /\ gpio_faults s' = tl (gpio_faults s).
Proof.
  destruct led as [pin]. destruct s as [lk n me ge ac mc ld evs io gf tr].
  destruct gf as [|[] gf]; eexists; split; reflexivity.
Qed.

Lemma faults_S n s :
  faults (S n) s
  = hd false (gpio_faults s)
    || existsb (fun b => b) (firstn n (tl (gpio_faults s))).
Proof. unfold faults. destruct (gpio_faults s) as [|b g]; [destruct n|]; reflexivity. Qed.

(** [__light_leds] raises exactly when one of its pin accesses fails. *)
Lemma light_leds_faults l s :
  exists o s',
    light_leds l s = (o, s')
    /\ (faults (List.length l) s = true -> exists e, o = Raise e)
    /\ (faults (List.length l) s = false ->
        o = Ret tt /\ gpio_faults s' = skipn (List.length l) (gpio_faults s)).
Proof.
  revert s. induction l as [|[led flag] l IH]; intros s.
  - exists (Ret tt), s. split; [reflexivity|]. split; [discriminate|].
    intros _. split; reflexivity.
  - cbn [light_leds List.length]. rewrite faults_S.
    assert (Hw : exists s',
              (if flag then LED_on led else LED_off led) s
              = (if hd false (gpio_faults s)
                 then Raise GPIOZeroError else Ret tt, s')
              /\ gpio_faults s' = tl (gpio_faults s)).
    { destruct flag; apply LED_write_step. }
    destruct Hw as (s1 & E1 & G1).
    destruct (hd false (gpio_faults s)) eqn:Hh.
    + rewrite (bind_raise _ _ _ _ _ E1). do 2 eexists.
      split; [reflexivity|]. split; [eauto | discriminate].
    + rewrite (bind_ok _ _ _ _ _ E1); cbv beta.
      destruct (IH s1) as (o & s2 & E2 & Hf & Hc).
      exists o, s2. split; [exact E2|]. cbn [orb].
      unfold faults in Hf, Hc. rewrite G1 in Hf, Hc.
      split; [exact Hf|]. intros H. destruct (Hc H) as [-> G2].
      split; [reflexivity|]. rewrite G2.
      destruct (gpio_faults s); [destruct (List.length l)|]; reflexivity.
Qed.

Lemma faults_add a b s s' :
  gpio_faults s' = skipn a (gpio_faults s) ->
  faults (a + b) s = faults a s || faults b s'.
Proof.
  unfold faults. intros ->. generalize (gpio_faults s) as g.
  induction a as [|a IH]; intros g; [reflexivity|].
  destruct g as [|x g]; cbn [Nat.add firstn existsb skipn].
  - destruct b; reflexivity.
  - rewrite IH, orb_assoc. reflexivity.
Qed.

Lemma light_eye_pins cmd s resp s1 :
  match HwCtrlCmd.params cmd with
  | eye :: _ => faults (lamps eye) s
  | [] => false
  end = true ->
  light_eye py_int cmd s = (Ret resp, s1) -> resp = failure cmd.
Proof.
  intros Hf.
  destruct (match HwCtrlCmd.params cmd with
            | _ :: p1 :: p2 :: p3 :: _ =>
                is_some (py_int p1) && is_some (py_int p2)
                && is_some (py_int p3)
            | _ => false
            end) eqn:Hp;
    [|apply (light_eye_unparsed py_int cmd s resp s1 Hp)].
  destruct (HwCtrlCmd.params cmd) as [|eye [|p1 [|p2 [|p3 ps]]]] eqn:Ep;
    try discriminate Hp.
  destruct (py_int p1) as [n1|] eqn:E1; [|discriminate Hp].
  destruct (py_int p2) as [n2|] eqn:E2; [|discriminate Hp].
  destruct (py_int p3) as [n3|] eqn:E3; [|discriminate Hp].
  unfold light_eye, try_except. rewrite Ep. cbn [index nth_error].
  rewrite !bind_ret. unfold int.
  rewrite E1, bind_ret, bind_ret, E2, bind_ret, bind_ret, E3, bind_ret.
  cbv zeta. unfold lamps in Hf.
  set (L := [(Eye.red left_eye, bool_of_int n1);
             (Eye.green left_eye, bool_of_int n2);
             (Eye.blue left_eye, bool_of_int n3)]).
  set (R := [(Eye.red right_eye, bool_of_int n1);
             (Eye.green right_eye, bool_of_int n2);
             (Eye.blue right_eye, bool_of_int n3)]).
  assert (Hfail : forall (r : outcome HwCtrlResp.t) (x : State),
            (exists e, r = Raise e) ->
            match r with
            | Ret a => (Ret a, x)
            | Raise _ => ret (failure cmd) x
            end = (Ret resp, s1) -> resp = failure cmd).
  { intros r x [e ->] E. inversion E. reflexivity. }
  destruct (String.eqb eye RaspiCarEye.LEFT || String.eqb eye RaspiCarEye.BOTH);
    destruct (String.eqb eye RaspiCarEye.RIGHT
              || String.eqb eye RaspiCarEye.BOTH).
  - destruct (light_leds_faults L s) as (o1 & s2 & El & Hlf & Hlc).
    change (List.length L) with 3%nat in Hlf, Hlc.
    destruct (faults 3 s) eqn:F1.
    + destruct (Hlf eq_refl) as [e ->].
      rewrite (bind_raise _ _ _ _ _ El). intros E; inversion E; reflexivity.
    + destruct (Hlc eq_refl) as [-> G2].
      rewrite (bind_ok _ _ _ _ _ El); cbv beta.
      rewrite (faults_add 3 3 s s2 G2), F1 in Hf. cbn [orb] in Hf.
      destruct (light_leds_faults R s2) as (o2 & s3 & Er & Hrf & _).
      destruct (Hrf Hf) as [e ->].
      rewrite (bind_raise _ _ _ _ _ Er). intros E; inversion E; reflexivity.
  - destruct (light_leds_faults L s) as (o1 & s2 & El & Hlf & _).
    destruct (Hlf Hf) as [e ->].
    rewrite (bind_raise _ _ _ _ _ El). intros E; inversion E; reflexivity.
  - rewrite bind_ret.
    destruct (light_leds_faults R s) as (o2 & s3 & Er & Hrf & _).
    destruct (Hrf Hf) as [e ->].
    rewrite (bind_raise _ _ _ _ _ Er). intros E; inversion E; reflexivity.
  - discriminate Hf.
Qed.


(** A stop whose pin access fails returns False. *)
Lemma stop_raspicar_faulty s :
  faults 1 s = true -> fst (stop_raspicar s) = Ret false.
Proof.
  unfold faults. intros H.
  destruct s as [lk n me ge ac mc ld evs io gf tr]. cbn [gpio_faults] in H.
  destruct gf as [|[] gf]; try discriminate H.
  destruct lk as [l1 l2 l3]. vm_compute. reflexivity.
Qed.

(** The first block of a move with a failing pin access returns False;
    with three accesses that do not fail it yields the value it
    captured. *)
Lemma begin_faulty op sp ev s :
  op <> STOP -> faults 3 s = true ->
  fst (move_raspicar_begin op sp ev s) = Ret (Return false).
Proof.
  unfold faults. intros Hop H.
  destruct s as [lk n me ge ac mc ld evs io gf tr]. cbn [gpio_faults] in H.
  destruct lk as [l1 l2 l3].
  destruct gf as [|[] [|[] [|[] gf]]]; cbn in H; try discriminate H;
    destruct op; try contradiction; vm_compute; reflexivity.
Qed.

Lemma begin_clean op sp ev s :
  op <> STOP -> faults 3 s = false ->
  move_raspicar_begin op sp ev s
  = (Ret (Next (num_times_moved s + 1)),
     snd (move_raspicar_begin op sp ev s))
  /\ gpio_faults (snd (move_raspicar_begin op sp ev s))
     = skipn 3 (gpio_faults s)
  /\ num_times_moved (snd (move_raspicar_begin op sp ev s))
     = num_times_moved s + 1.
Proof.
  unfold faults. intros Hop H.
  destruct s as [lk n me ge ac mc ld evs io gf tr]. cbn [gpio_faults] in H.
  destruct lk as [l1 l2 l3].
  destruct gf as [|[] [|[] [|[] gf]]]; cbn in H; try discriminate H;
    destruct op; try contradiction; destruct me;
    (split; [|split]); vm_compute; reflexivity.
Qed.

(** The second block of a move whose captured value is current and whose
    stop fails returns False. *)
Lemma end_faulty s :
  faults 1 s = true ->
  fst (move_raspicar_end (num_times_moved s) s) = Ret (Return false).
Proof.
  unfold faults. intros H. run_move. cbn. rewrite Z.eqb_refl. cbn.
  destruct (gpio_faults s) as [|[] g]; try discriminate H. reflexivity.
Qed.

Section Pins.

Hypothesis others_pins : forall s, gpio_faults (others s) = gpio_faults s.
Hypothesis others_counter :
  forall s, num_times_moved (others s) = num_times_moved s.

Lemma move_raspicar_pins op sp t s b s' :
  op <> STOP -> faults 4 s = true ->
  move_raspicar others op sp t s = (Ret b, s') -> b = false.
Proof.
  intros Hop Hf. unfold move_raspicar.
  assert (En : Event_new s
               = (Ret (List.length (events s)),
                  with_events (events s ++ [false]) s)) by reflexivity.
  rewrite (bind_ok _ _ _ _ _ En); cbv beta.
  set (s0 := with_events (events s ++ [false]) s).
  set (ev := List.length (events s)).
  assert (Hf0 : faults 4 s0 = true) by exact Hf.
  destruct (faults 3 s0) eqn:F3.
  - pose proof (begin_faulty op sp ev s0 Hop F3) as Eb.
    unfold bind at 1.
    destruct (move_raspicar_begin op sp ev s0) as [r s1]. cbn in Eb.
    subst r. intros E; inversion E; reflexivity.
  - destruct (begin_clean op sp ev s0 Hop F3) as (E1 & G1 & N1).
    set (s1 := snd (move_raspicar_begin op sp ev s0)) in *.
    rewrite (bind_ok _ _ _ _ _ E1); cbv beta iota.
    change 4%nat with (3 + 1)%nat in Hf0.
    rewrite (faults_add 3 1 s0 s1 G1), F3 in Hf0. cbn [orb] in Hf0.
    unfold bind at 1.
    destruct (Event_wait others ev t s1) as [[[]|x] s2] eqn:Ew;
      [|discriminate].
    apply wait_state in Ew.
    assert (F2 : faults 1 s2 = true).
    { unfold faults. rewrite Ew, others_pins. exact Hf0. }
    assert (N2 : num_times_moved s2 = num_times_moved s0 + 1).
    { rewrite Ew, others_counter. exact N1. }
    pose proof (end_faulty s2 F2) as Ee. rewrite N2 in Ee.
    unfold bind at 1.
    destruct (move_raspicar_end (num_times_moved s0 + 1) s2) as [r s3].
    cbn in Ee. subst r. intros E; inversion E; reflexivity.
Qed.

Lemma move_pins cmd s resp s1 :
  match HwCtrlCmd.params cmd with
  | p0 :: _ =>
      match RaspiCarMoveOp_of p0 with
      | Some STOP => faults 1 s
      | Some _ => faults 4 s
      | None => false
      end
  | [] => false
  end = true ->
  move py_float others cmd s = (Ret resp, s1) -> resp = failure cmd.
Proof.
  intros Hf. unfold move.
  assert (Hsucc : forall b x,
            try_except
              (p0 <- index (HwCtrlCmd.params cmd) 0;;
               move_op <- RaspiCarMoveOp_ p0;;
               match move_op with
               | STOP => stop_raspicar
               | _ =>
                   p1 <- index (HwCtrlCmd.params cmd) 1;;
                   speed <- float py_float p1;;
                   p2 <- index (HwCtrlCmd.params cmd) 2;;
                   time <- float py_float p2;;
                   move_raspicar others move_op speed time
               end)
              (fun _ => ret false) s = (Ret b, x) -> b = false).
  { intros b x. unfold try_except.
    destruct (HwCtrlCmd.params cmd) as [|p0 ps]; [discriminate Hf|].
    cbn [index nth_error]. rewrite bind_ret. unfold RaspiCarMoveOp_.
    destruct (RaspiCarMoveOp_of p0) as [op|]; [|discriminate Hf].
    rewrite bind_ret.
    assert (Hgen : forall (m : M bool),
              (forall b' x', m s = (Ret b', x') -> b' = false) ->
              match m s with
              | (Ret a, s') => (Ret a, s')
              | (Raise _, s') => ret false s'
              end = (Ret b, x) -> b = false).
    { intros m Hm. destruct (m s) as [[b'|e] x'] eqn:Em.
      - intros E; inversion E; subst. eapply Hm. reflexivity.
      - intros E; inversion E; reflexivity. }
    assert (Hmv : forall mop, mop <> STOP -> faults 4 s = true ->
              forall b' x',
                (p1 <- index (p0 :: ps) 1;;
                 speed <- float py_float p1;;
                 p2 <- index (p0 :: ps) 2;;
                 time <- float py_float p2;;
                 move_raspicar others mop speed time) s = (Ret b', x') ->
                b' = false).
    { intros mop Hm F b' x'. unfold index.
      destruct ps as [|p1 [|p2 ps']]; cbn [nth_error];
        try (unfold bind, raise; discriminate).
      - rewrite bind_ret. unfold float.
        destruct (py_float p1); unfold bind, raise, ret; discriminate.
      - rewrite bind_ret. unfold float.
        destruct (py_float p1) as [sp|];
          [|unfold bind, raise; discriminate].
        rewrite bind_ret, bind_ret.
        destruct (py_float p2) as [t|];
          [|unfold bind, raise; discriminate].
        rewrite bind_ret. apply move_raspicar_pins; assumption. }
    destruct op; apply Hgen;
      try (apply Hmv; [discriminate | exact Hf]).
    intros b' x' E. pose proof (stop_raspicar_faulty s Hf) as Hs.
    rewrite E in Hs. cbn in Hs. congruence. }
  unfold bind at 1.
  match goal with
  | |- context [try_except ?m ?h s] =>
      destruct (try_except m h s) as [[b|e] x] eqn:Et
  end.
  - rewrite (Hsucc b x eq_refl). unfold ret.
    intros E; inversion E; reflexivity.
  - discriminate.
Qed.

End Pins.
End Failing.

Lemma gpio_faults_add cmd st :
  gpio_faults (snd (activeCmds_add cmd st)) = gpio_faults st.
Proof.
  unfold activeCmds_add, modify. cbn.
  destruct (mem cmd (activeCmds st)); reflexivity.
Qed.

Section FailurePaths.

Variable py_float : string -> option pyfloat.
Variable py_int : string -> option Z.
Variable others : State -> State.
Variable cmd : HwCtrlCmd.t.

Hypothesis others_locks : forall l s, holds l s -> holds l (others s).
Hypothesis others_registry :
  forall s, registered cmd s -> registered cmd (others s).

(** C2. [process] never raises.  It returns a response that is either
    the failure response of the command ([success] false, no data) or a
    successful one.  It is the failure response when the opcode is none
    of the four, when a parameter does not parse, when the first bus
    transaction of a sensor command fails, and, the other threads
    leaving the bus alone, when any bus transaction of a sensor
    command fails or its read is too short to decode; it is also the
    failure response when a pin access of a light-eye, stop or move
    command fails, the other threads leaving the pins and the counter
    alone.  On return the command is no longer in the registry.  The
    removal does not depend on what the four methods do: with any
    methods in their place, returning or raising, the command is out of
    the registry after [process]. *)
Theorem process_never_raises st :
  (exists resp st',
     process py_float py_int others cmd st = (Ret resp, st')
     /\ (resp = failure cmd \/ HwCtrlResp.is_successful resp = true)
     /\ (recognized (HwCtrlCmd.opcode cmd) = false -> resp = failure cmd)
     /\ (parses py_float py_int cmd = false -> resp = failure cmd)
     /\ (bus_fails cmd st = true -> resp = failure cmd)
     /\ ((forall s, i2c_in (others s) = i2c_in s) ->
         transport_fails cmd st = true -> resp = failure cmd)
     /\ ((forall s, gpio_faults (others s) = gpio_faults s) ->
         (forall s, num_times_moved (others s) = num_times_moved s) ->
         pins_fail cmd st = true -> resp = failure cmd)
     /\ mem cmd (activeCmds st') = false)
  /\ (forall h1 h2 h3 h4 : HwCtrlCmd.t -> M HwCtrlResp.t,
        keeps (registered cmd) (h1 cmd) ->
        keeps (registered cmd) (h2 cmd) ->
        keeps (registered cmd) (h3 cmd) ->
        keeps (registered cmd) (h4 cmd) ->
        mem cmd (activeCmds (snd (process_with h1 h2 h3 h4 cmd st)))
        = false).
Proof.
  split; [|intros; apply process_with_cleanup; assumption].
  destruct (process_returns py_float py_int others cmd
              others_locks others_registry st)
    as (resp0 & st0 & E0 & _ & Hrec & _).
  destruct (process_response py_float py_int others cmd
              others_locks others_registry st)
    as (resp & st' & E & Ha & Hm & Hlink).
  assert (resp0 = resp) by congruence. subst resp0.
  exists resp, st'. split; [exact E|]. split; [|split; [exact Hrec|]].
  { destruct Ha as [-> | (_ & _ & Hs)]; auto. }
  split; [|split; [|split; [|split; [|exact Hm]]]].
  - revert Hlink. unfold parses, method_of.
    repeat match goal with
           | |- context [if String.eqb ?a ?b then _ else _] =>
               destruct (String.eqb a b)
           end; try discriminate; auto.
    + intros [s1 Eh] Hp. eapply detect_color_unparsed; eassumption.
    + intros [s1 Eh] Hp. eapply move_unparsed; eassumption.
    + intros [s1 Eh] Hp. eapply light_eye_unparsed; eassumption.
  - intros Hb. unfold bus_fails in Hb. unfold method_of in Hlink.
    destruct (String.eqb (HwCtrlCmd.opcode cmd) Opcode.DETECT_COLOR) eqn:Ed.
    + apply String.eqb_eq in Ed. rewrite Ed in Hb.
      change (negb (acks 4 (i2c_in st)) || false = true) in Hb.
      rewrite orb_false_r in Hb. apply negb_true_iff in Hb.
      rewrite <- i2c_in_add with (cmd := cmd) in Hb.
      destruct Hlink as [s1 Eh]. eapply detect_color_bus; eassumption.
    + cbn [andb orb] in Hb.
      destruct (String.eqb (HwCtrlCmd.opcode cmd) Opcode.MEASURE_DISTANCE)
        eqn:Em; [|discriminate].
      cbn [andb] in Hb. apply negb_true_iff in Hb.
      rewrite <- i2c_in_add with (cmd := cmd) in Hb.
      apply String.eqb_eq in Em. rewrite Em in Hlink.
      change (exists s1, measure_distance others cmd
                           (snd (activeCmds_add cmd st)) = (Ret resp, s1))
        in Hlink.
      destruct Hlink as [s1 Eh]. eapply measure_distance_bus; eassumption.
  - intros Hbus Hb. unfold transport_fails in Hb. unfold method_of in Hlink.
    rewrite <- i2c_in_add with (cmd := cmd) in Hb.
    destruct (String.eqb (HwCtrlCmd.opcode cmd) Opcode.DETECT_COLOR) eqn:Ed.
    + cbn [andb] in Hb.
      destruct Hlink as [s1 Eh].
      destruct (negb (acks 4 (i2c_in (snd (activeCmds_add cmd st))))
                || reads_short 6
                     (skipn 4 (i2c_in (snd (activeCmds_add cmd st)))))
        eqn:Hc.
      * eapply detect_color_transport; eassumption.
      * cbn [orb] in Hb. apply String.eqb_eq in Ed. rewrite Ed in Hb.
        discriminate Hb.
    + cbn [andb orb] in Hb.
      destruct (String.eqb (HwCtrlCmd.opcode cmd) Opcode.MEASURE_DISTANCE)
        eqn:Em; [|discriminate].
      cbn [andb] in Hb.
      apply String.eqb_eq in Em. rewrite Em in Hlink.
      change (exists s1, measure_distance others cmd
                           (snd (activeCmds_add cmd st)) = (Ret resp, s1))
        in Hlink.
      destruct Hlink as [s1 Eh].
      eapply measure_distance_transport; eassumption.
  - intros Hpins Hnum Hb. unfold pins_fail in Hb.
    unfold faults in Hb.
    rewrite <- gpio_faults_add with (cmd := cmd) in Hb.
    fold (faults (match HwCtrlCmd.params cmd with
                  | eye :: _ => lamps eye | [] => 0%nat end)
            (snd (activeCmds_add cmd st))) in Hb.
    unfold method_of in Hlink.
    destruct (String.eqb (HwCtrlCmd.opcode cmd) Opcode.LIGHT_EYE) eqn:El.
    + apply String.eqb_eq in El. rewrite El in Hlink.
      change (exists s1, light_eye py_int cmd
                           (snd (activeCmds_add cmd st)) = (Ret resp, s1))
        in Hlink.
      destruct Hlink as [s1 Eh].
      eapply light_eye_pins; [|exact Eh].
      destruct (HwCtrlCmd.params cmd); exact Hb.
    + destruct (String.eqb (HwCtrlCmd.opcode cmd) Opcode.MOVE) eqn:Em;
        [|discriminate].
      apply String.eqb_eq in Em. rewrite Em in Hlink.
      change (exists s1, move py_float others cmd
                           (snd (activeCmds_add cmd st)) = (Ret resp, s1))
        in Hlink.
      destruct Hlink as [s1 Eh].
      eapply move_pins; [exact Hpins | exact Hnum | | exact Eh].
      destruct (HwCtrlCmd.params cmd) as [|p0 ps]; [exact Hb|].
      destruct (RaspiCarMoveOp_of p0) as [[]|]; exact Hb.
Qed.

End FailurePaths.

(** A light-eye command on an idle processor; a command whose opcode is
    none of the four; a detect-color command whose read-out fails; a
    light-eye command whose second lamp fails. *)
Lemma process_never_raises_witness :
  (exists st',
     process dec_float dec_int quiet (HwCtrlCmd.of_ 7 "7,light-eye,left,1,0,1")
       CmdProcessor_init
     = (Ret (HwCtrlResp.mk "7" "light-eye" true []), st')
     /\ activeCmds st' = [])
  /\ (exists st',
        process dec_float dec_int quiet (HwCtrlCmd.of_ 5 "5,jump,1")
          CmdProcessor_init
        = (Ret (HwCtrlResp.mk "5" "jump" false []), st')
        /\ mem (HwCtrlCmd.of_ 5 "5,jump,1") (activeCmds st') = false)
  /\ (exists st',
        process dec_float dec_int quiet (HwCtrlCmd.of_ 3 "3,detect-color,0")
          (with_i2c_in [Some []; Some []; Some []; Some []; None]
             CmdProcessor_init)
        = (Ret (HwCtrlResp.mk "3" "detect-color" false []), st'))
  /\ exists st',
       process dec_float dec_int quiet
         (HwCtrlCmd.of_ 7 "7,light-eye,left,1,0,1")
         (with_gpio_faults [false; true] CmdProcessor_init)
       = (Ret (HwCtrlResp.mk "7" "light-eye" false []), st').
Proof.
  split; [|split; [|split]].
  - eexists. split; vm_compute; reflexivity.
  - destruct (proj1 (process_never_raises dec_float dec_int quiet
                       (HwCtrlCmd.of_ 5 "5,jump,1")
                       (fun l s H => H) (fun s H => H) CmdProcessor_init))
      as (resp & st' & E & _ & Hrec & _ & _ & _ & _ & Hm).
    exists st'. split; [|exact Hm].
    rewrite E, (Hrec ltac:(vm_compute; reflexivity)). reflexivity.
  - destruct (proj1 (process_never_raises dec_float dec_int quiet
                       (HwCtrlCmd.of_ 3 "3,detect-color,0")
                       (fun l s H => H) (fun s H => H)
                       (with_i2c_in [Some []; Some []; Some []; Some []; None]
                          CmdProcessor_init)))
      as (resp & st' & E & _ & _ & _ & _ & Hbus & _).
    exists st'.
    rewrite E, (Hbus (fun s => eq_refl) ltac:(vm_compute; reflexivity)).
    reflexivity.
  - destruct (proj1 (process_never_raises dec_float dec_int quiet
                       (HwCtrlCmd.of_ 7 "7,light-eye,left,1,0,1")
                       (fun l s H => H) (fun s H => H)
                       (with_gpio_faults [false; true] CmdProcessor_init)))
      as (resp & st' & E & _ & _ & _ & _ & _ & Hpin & _).
    exists st'.
    rewrite E, (Hpin (fun s => eq_refl) (fun s => eq_refl)
                  ltac:(vm_compute; reflexivity)).
    reflexivity.
Defined.
